(** * The query engine of [square/metrics], embedded and verified

    Part I translates the Go code function by function: the transforms
    (package [transform]), grouping and aggregation (package [aggregate]), the
    bucketing of the backend's points (package [blueflood]) and the evaluation
    of a fetch expression (package [query]); the naming rules (package
    [internal]) are modelled from their specification.  Part II states and
    proves the properties.

    Go's [float64] is the kernel's binary64 [float]; [int64] is [Z] with its
    wrap-around written out; a slice is a list, read with [!!] and written
    with [<[i:=x]>]; a [map[string]string] is a [gmap string string], whose
    read of an absent key gives the empty string, as Go's does; a returned
    [error] and a panic are the second constructor of a result type. *)

From Stdlib Require Import ZArith Lia Floats Ascii String.
From stdpp Require Import gmap strings list fin_maps.

Local Open Scope Z_scope.

(** * Part I: the embedding *)

(** ** Go's [float64] and the parts of package [math] the code calls *)

Module Float64.

(** [math.NaN()]. *)
Definition NaN : float := nan.

(** [math.IsNaN(f)] is [f != f]. *)
Definition IsNaN (f : float) : bool := negb (f =? f)%float.

(** [math.IsInf(f, sign)]. *)
Definition IsInf (f : float) (sign : Z) : bool :=
  ((0 <=? sign) && (f =? infinity)%float) || ((sign <=? 0) && (f =? neg_infinity)%float).

(** [math.Signbit(x)]; the code only asks for it on zeros. *)
Definition Signbit (x : float) : bool := get_sign x.

(** [math.Min(x, y)], special cases first, as the Go library documents them:
    [Min(x, -Inf) = Min(-Inf, x) = -Inf], [Min(x, NaN) = Min(NaN, x) = NaN],
    [Min(-0, ±0) = Min(±0, -0) = -0]. *)
Definition Min (x y : float) : float :=
  if IsInf x (-1) || IsInf y (-1) then neg_infinity
  else if IsNaN x || IsNaN y then NaN
  else if (x =? 0)%float && (x =? y)%float then (if Signbit x then x else y)
  else if (x <? y)%float then x else y.

(** [math.Max(x, y)]: [Max(x, +Inf) = Max(+Inf, x) = +Inf],
    [Max(x, NaN) = Max(NaN, x) = NaN], [Max(+0, ±0) = Max(±0, +0) = +0]. *)
Definition Max (x y : float) : float :=
  if IsInf x 1 || IsInf y 1 then infinity
  else if IsNaN x || IsNaN y then NaN
  else if (x =? 0)%float && (x =? y)%float then (if Signbit x then y else x)
  else if (y <? x)%float then x else y.

(** The conversion [float64(n)] of an integer: the nearest binary64 value. *)
Definition of_Z (z : Z) : float := SF2Prim (binary_normalize prec emax z 0 false).

Definition of_nat (n : nat) : float := of_Z (Z.of_nat n).

End Float64.

#[global] Instance float_inhabited : Inhabited float := populate 0%float.

(** ** Slices and [for i := range] loops *)

(** [for i := range s { st = body i st }] over a slice of length [n]. *)
Definition for_range {S : Type} (n : nat) (body : nat -> S -> S) (st : S) : S :=
  foldl (fun st i => body i st) st (seq 0 n).

(** [for i, x := range l { st = body i x st }], the index starting at [i]. *)
Fixpoint for_each_from {A S : Type} (i : nat) (l : list A) (body : nat -> A -> S -> S)
    (st : S) : S :=
  match l with
  | [] => st
  | x :: l => for_each_from (Datatypes.S i) l body (body i x st)
  end.

Definition for_each {A S : Type} (l : list A) (body : nat -> A -> S -> S) (st : S) : S :=
  for_each_from 0 l body st.

(** [make([]float64, n)]: [n] zeros. *)
Definition make_floats (n : nat) : list float := replicate n 0%float.

(** ** Package [api]: the data model *)

Module Api.

(** Modelled from the spec: the declarations of package [api], which are
    missing, as §3 gives them and as the code uses them.  A [TagSet] is a
    [map[string]string]. *)
Abbreviation TagSet := (gmap string string).

(** [ts[tag]]: Go's map read, the empty string for an absent key. *)
Definition tag (ts : TagSet) (t : string) : string := default EmptyString (ts !! t).

(** [api.NewTagSet()]. *)
Definition NewTagSet : TagSet := ∅.

(** Modelled from the spec: the declaration of [api.Timeseries], which is
    missing: [(values[slots], tag_set)], with the fields [Values] and [TagSet]
    of the code. *)
Record Timeseries := {
  ts_Values : list float;
  ts_TagSet : TagSet
}.

(** Modelled from the spec: the declaration of [api.Timerange], which is
    missing.  A timerange is the triple [(start_ms, end_ms, resolution_ms)],
    with [resolution_ms > 0], and [slots = (end_ms - start_ms) / resolution_ms + 1]. *)
Record Timerange := {
  tr_start : Z;
  tr_end : Z;
  tr_resolution : Z
}.

Definition Start (tr : Timerange) : Z := tr_start tr.
Definition End (tr : Timerange) : Z := tr_end tr.
Definition Resolution (tr : Timerange) : Z := tr_resolution tr.
Definition Slots (tr : Timerange) : Z := (tr_end tr - tr_start tr) ÷ tr_resolution tr + 1.

(** Modelled from the spec: the declaration of [api.SeriesList], which is
    missing: [(series[], timerange, name)]. *)
Record SeriesList := {
  sl_Series : list Timeseries;
  sl_Timerange : Timerange;
  sl_Name : string
}.

Definition MetricKey := string.

(** Modelled from the spec: the declaration of [api.TaggedMetric], which is
    missing: [(MetricKey, TagSet)]. *)
Record TaggedMetric := {
  tm_MetricKey : MetricKey;
  tm_TagSet : TagSet
}.

(** Modelled from the spec: the sample methods, [mean], [min] and [max]. *)
Inductive SampleMethod := SampleMean | SampleMin | SampleMax.

End Api.

(** ** Package [function]: values and errors *)

Module Function.

(** A Go [error] value, by its message. *)
Definition error := string.

(** A Go call returning [(A, error)]. *)
Inductive result (A : Type) :=
| Ok (a : A)
| Err (e : error).
Arguments Ok {A} a.
Arguments Err {A} e.

(** Modelled from the spec: the declaration of [function.Value], which is
    missing: the tagged variant [scalar | duration | string | series_list] of
    §4.2. *)
Inductive Value :=
| ScalarValue (v : float)
| DurationValue (ms : Z)
| StringValue (s : string)
| SeriesListValue (l : Api.SeriesList).

End Function.

(** ** Package [transform] *)

Module Transform.
Import Api Function.

(** [type transform func([]float64, []function.Value, float64) ([]float64, error)]. *)
Definition transform := list float -> list Value -> float -> result (list float).

Definition transformTimeseries (series : Timeseries) (t : transform)
    (parameters : list Value) (scale : float) : result Timeseries :=
  match t (ts_Values series) parameters scale with
  | Err e => Err e
  | Ok values => Ok {| ts_Values := values; ts_TagSet := ts_TagSet series |}
  end.

(** The body of the loop of [ApplyTransform]; its state is the slice
    [result.Series] under construction, or the error the function has returned
    with. *)
Definition ApplyTransform_step (sl : SeriesList) (t : transform) (parameters : list Value)
    (i : nat) (series : Timeseries) (st : result (list Timeseries)) : result (list Timeseries) :=
  match st with
  | Err e => Err e
  | Ok result =>
      match transformTimeseries series t parameters
              (Float64.of_Z (Resolution sl.(sl_Timerange)) / 1000)%float with
      | Err e => Err e
      | Ok s => Ok (<[i := s]> result)
      end
  end.

Definition ApplyTransform (sl : SeriesList) (t : transform) (parameters : list Value)
    : result SeriesList :=
  let n := length sl.(sl_Series) in
  let zero := {| ts_Values := []; ts_TagSet := NewTagSet |} in
  match for_each sl.(sl_Series) (ApplyTransform_step sl t parameters) (Ok (replicate n zero)) with
  | Err e => Err e
  | Ok series =>
      Ok {| sl_Series := series;
            sl_Timerange := sl.(sl_Timerange);
            sl_Name := sl.(sl_Name) |}
  end.

Definition Derivative_body (values : list float) (scale : float) (i : nat)
    (result : list float) : list float :=
  if Nat.eqb i 0 then <[i := 0%float]> result
  else <[i := ((values !!! i - values !!! (i - 1)%nat) / scale)%float]> result.

Definition Derivative : transform := fun values parameters scale =>
  Ok (for_range (length values) (Derivative_body values scale) (make_floats (length values))).

Definition Rate_body (values : list float) (scale : float) (i : nat)
    (result : list float) : list float :=
  if Nat.eqb i 0 then <[i := 0%float]> result
  else
    let result := <[i := ((values !!! i - values !!! (i - 1)%nat) / scale)%float]> result in
    if (result !!! i <? 0)%float then <[i := 0%float]> result else result.

Definition Rate : transform := fun values parameters scale =>
  Ok (for_range (length values) (Rate_body values scale) (make_floats (length values))).

(** The state of the loops of [Integral] and [Cumulative]: the running sum and
    the result slice. *)
Definition Integral_body (values : list float) (scale : float) (i : nat)
    (st : float * list float) : float * list float :=
  let '(integral, result) := st in
  let integral := if negb (Float64.IsNaN (values !!! i)) then (integral + values !!! i)%float else integral in
  (integral, <[i := (integral * scale)%float]> result).

Definition Integral : transform := fun values parameters scale =>
  Ok (snd (for_range (length values) (Integral_body values scale) (0%float, make_floats (length values)))).

Definition Cumulative_body (values : list float) (i : nat)
    (st : float * list float) : float * list float :=
  let '(sum, result) := st in
  let sum := if negb (Float64.IsNaN (values !!! i)) then (sum + values !!! i)%float else sum in
  (sum, <[i := sum]> result).

Definition Cumulative : transform := fun values parameters scale =>
  Ok (snd (for_range (length values) (Cumulative_body values) (0%float, make_floats (length values)))).

End Transform.

(** ** Package [aggregate] *)

Module Aggregate.
Import Api.

(** A Go call that may panic instead of returning. *)
Inductive outcome (A : Type) :=
| Done (a : A)
| Panic (msg : string).
Arguments Done {A} a.
Arguments Panic {A} msg.

(** The panic of [applyAggregation], and the run-time panic of a slice read
    past its length. *)
Definition empty_group_panic : string := "applyAggregation given empty group for tagset".
Definition index_out_of_range : string := "runtime error: index out of range".

Record group := {
  g_List : list Timeseries;
  g_TagSet : TagSet
}.

Fixpoint groupAccepts (left right : TagSet) (tags : list string) : bool :=
  match tags with
  | [] => true
  | t :: tags =>
      if decide (tag left t <> tag right t) then false
      else groupAccepts left right tags
  end.

(** The loop of [addToGroup] over [rows]: the rows with the series appended
    to the first row that accepts it, or [None] when the loop falls through. *)
Fixpoint addToGroup_rows (rows : list group) (series : Timeseries) (tags : list string)
    : option (list group) :=
  match rows with
  | [] => None
  | row :: rows =>
      if groupAccepts (g_TagSet row) (ts_TagSet series) tags
      then Some ({| g_List := g_List row ++ [series]; g_TagSet := g_TagSet row |} :: rows)
      else option_map (cons row) (addToGroup_rows rows series tags)
  end.

Definition addToGroup (rows : list group) (series : Timeseries) (tags : list string)
    : list group :=
  let newTags :=
    foldl (fun newTags t => <[t := tag (ts_TagSet series) t]> newTags) NewTagSet tags in
  let series := {| ts_Values := ts_Values series; ts_TagSet := newTags |} in
  match addToGroup_rows rows series tags with
  | Some rows => rows
  | None => rows ++ [ {| g_List := [series]; g_TagSet := newTags |} ]
  end.

Definition groupBy (sl : SeriesList) (tags : list string) : list group :=
  foldl (fun result series => addToGroup result series tags) [] (sl_Series sl).

Definition filterNaN (array : list float) : list float :=
  foldl (fun result v => if negb (Float64.IsNaN v) then result ++ [v] else result) [] array.

Definition Sum (array : list float) : float :=
  let array := filterNaN array in
  foldl (fun sum v => (sum + v)%float) 0%float array.

Definition Mean (array : list float) : float :=
  let array := filterNaN array in
  if Nat.eqb (length array) 0 then Float64.NaN
  else
    let sum := foldl (fun sum v => (sum + v)%float) 0%float array in
    (sum / Float64.of_nat (length array))%float.

Definition Min (array : list float) : float :=
  let array := filterNaN array in
  if Nat.eqb (length array) 0 then Float64.NaN
  else foldl (fun min v => Float64.Min min v) (array !!! 0%nat) array.

Definition Max (array : list float) : float :=
  let array := filterNaN array in
  if Nat.eqb (length array) 0 then Float64.NaN
  else foldl (fun max v => Float64.Max max v) (array !!! 0%nat) array.

(** The inner loop of [applyAggregation]: [timeSlice[j] = list[j].Values[i]] ([lst] is the source's [list]),
    a read that panics when series [j] has no slot [i]. *)
Fixpoint timeSlice_loop (lst : list Timeseries) (i j : nat) (timeSlice : list float)
    : outcome (list float) :=
  match lst with
  | [] => Done timeSlice
  | series :: lst =>
      match ts_Values series !! i with
      | None => Panic index_out_of_range
      | Some v => timeSlice_loop lst i (S j) (<[j := v]> timeSlice)
      end
  end.

(** The outer loop, over the slots [i, i + n) of [result.Values]. *)
Fixpoint applyAggregation_loop (lst : list Timeseries) (aggregator : list float -> float)
    (n i : nat) (values : list float) : outcome (list float) :=
  match n with
  | O => Done values
  | S n =>
      match timeSlice_loop lst i 0 (make_floats (length lst)) with
      | Panic msg => Panic msg
      | Done timeSlice =>
          applyAggregation_loop lst aggregator n (S i) (<[i := aggregator timeSlice]> values)
      end
  end.

Definition applyAggregation (g : group) (aggregator : list float -> float)
    : outcome Timeseries :=
  let lst := g_List g in
  let tagSet := g_TagSet g in
  match lst with
  | [] => Panic empty_group_panic
  | first :: _ =>
      let n := length (ts_Values first) in
      match applyAggregation_loop lst aggregator n 0 (make_floats n) with
      | Panic msg => Panic msg
      | Done values => Done {| ts_Values := values; ts_TagSet := tagSet |}
      end
  end.

(** The loop of [AggregateBy] over the groups, from slot [i]. *)
Fixpoint AggregateBy_loop (groups : list group) (aggregator : list float -> float)
    (i : nat) (series : list Timeseries) : outcome (list Timeseries) :=
  match groups with
  | [] => Done series
  | g :: groups =>
      match applyAggregation g aggregator with
      | Panic msg => Panic msg
      | Done s => AggregateBy_loop groups aggregator (S i) (<[i := s]> series)
      end
  end.

Definition AggregateBy (sl : SeriesList) (aggregator : list float -> float)
    (tags : list string) : outcome SeriesList :=
  let groups := groupBy sl tags in
  let zero := {| ts_Values := []; ts_TagSet := NewTagSet |} in
  match AggregateBy_loop groups aggregator 0 (replicate (length groups) zero) with
  | Panic msg => Panic msg
  | Done series =>
      Done {| sl_Series := series;
              sl_Timerange := sl_Timerange sl;
              sl_Name := sl_Name sl |}
  end.

End Aggregate.

(** ** Package [blueflood] *)

Module Blueflood.
Import Api.

(** [int64] arithmetic: the result of an operation on [Z], wrapped. *)
Definition wrap64 (z : Z) : Z := (z + 2 ^ 63) mod 2 ^ 64 - 2 ^ 63.

Definition int64_sub (x y : Z) : Z := wrap64 (x - y).

(** The run-time panics of a division by zero and of a [make] with a negative
    length. *)
Definition integer_divide_by_zero : string := "runtime error: integer divide by zero".
Definition makeslice_len_out_of_range : string := "runtime error: makeslice: len out of range".

(** Go's [/] on [int64]: it panics on a zero divisor, and otherwise truncates
    toward zero. *)
Definition int64_quo (x y : Z) : Aggregate.outcome Z :=
  if y =? 0 then Aggregate.Panic integer_divide_by_zero
  else Aggregate.Done (wrap64 (x ÷ y)).

Record metricPoint := {
  mp_Points : Z;
  mp_Timestamp : Z;
  mp_Average : float;
  mp_Max : float;
  mp_Min : float;
  mp_Variance : float
}.

Record queryResponse := {
  qr_Values : list metricPoint
}.

Record sampler := {
  fieldName : string;
  fieldSelector : metricPoint -> float;
  bucketSampler : list float -> float
}.

(** [addMetricPoint]; the division panics on a zero resolution, and the write
    [buckets[index]] panics when the slice has no such bucket. *)
Definition addMetricPoint (point : metricPoint) (field : metricPoint -> float)
    (timerange : Timerange) (buckets : list (list float))
    : Aggregate.outcome (bool * list (list float)) :=
  let value := field point in
  match int64_quo (int64_sub (mp_Timestamp point) (Start timerange)) (Resolution timerange) with
  | Aggregate.Panic msg => Aggregate.Panic msg
  | Aggregate.Done index =>
      if (index <? 0) || (Slots timerange <=? index) then Aggregate.Done (false, buckets)
      else
        match buckets !! Z.to_nat index with
        | None => Aggregate.Panic Aggregate.index_out_of_range
        | Some bucket =>
            Aggregate.Done (true, <[Z.to_nat index := bucket ++ [value]]> buckets)
        end
  end.

(** The loop of [bucketsFromMetricPoints] over the points: the buckets after
    them, or the panic of the first call of [addMetricPoint] that panics. *)
Definition addMetricPoints (metricPoints : list metricPoint)
    (resultField : metricPoint -> float) (timerange : Timerange)
    (buckets : list (list float)) : Aggregate.outcome (list (list float)) :=
  foldl (fun st point =>
           match st with
           | Aggregate.Panic msg => Aggregate.Panic msg
           | Aggregate.Done buckets =>
               match addMetricPoint point resultField timerange buckets with
               | Aggregate.Panic msg => Aggregate.Panic msg
               | Aggregate.Done (_, buckets) => Aggregate.Done buckets
               end
           end)
        (Aggregate.Done buckets) metricPoints.

(** [bucketsFromMetricPoints]; [make] panics on a negative number of slots. *)
Definition bucketsFromMetricPoints (metricPoints : list metricPoint)
    (resultField : metricPoint -> float) (timerange : Timerange)
    : Aggregate.outcome (list (list float)) :=
  if Slots timerange <? 0 then Aggregate.Panic makeslice_len_out_of_range
  else
    let n := Z.to_nat (Slots timerange) in
    let buckets := for_range n (fun i buckets => <[i := []]> buckets) (replicate n []) in
    addMetricPoints metricPoints resultField timerange buckets.

Definition processResult (parsedResult : queryResponse) (timerange : Timerange)
    (s : sampler) : Aggregate.outcome (list float) :=
  match bucketsFromMetricPoints (qr_Values parsedResult) (fieldSelector s) timerange with
  | Aggregate.Panic msg => Aggregate.Panic msg
  | Aggregate.Done buckets =>
      if Slots timerange <? 0 then Aggregate.Panic makeslice_len_out_of_range
      else
        let values := make_floats (Z.to_nat (Slots timerange)) in
        Aggregate.Done
          (for_each buckets
             (fun i bucket values =>
                if Nat.eqb (length bucket) 0 then <[i := Float64.NaN]> values
                else <[i := bucketSampler s bucket]> values)
             values)
  end.

(** [samplerMap]; every sample method has an entry. *)
Definition samplerMap (m : SampleMethod) : option sampler :=
  match m with
  | SampleMean =>
      Some {| fieldName := "average";
              fieldSelector := mp_Average;
              bucketSampler := fun bucket =>
                let value := foldl (fun value v => (value + v)%float) 0%float bucket in
                (value / Float64.of_nat (length bucket))%float |}
  | SampleMin =>
      Some {| fieldName := "min";
              fieldSelector := mp_Min;
              bucketSampler := fun bucket =>
                foldl (fun value v => Float64.Min value v) (bucket !!! 0%nat) bucket |}
  | SampleMax =>
      Some {| fieldName := "max";
              fieldSelector := mp_Max;
              bucketSampler := fun bucket =>
                foldl (fun value v => Float64.Max value v) (bucket !!! 0%nat) bucket |}
  end.

End Blueflood.

(** ** Package [query]: evaluating a fetch expression *)

Module Query.
Import Api Function.

(** [api.Predicate], an interface with the one method [Apply(TagSet) bool]. *)
Record Predicate := {
  Apply : TagSet -> bool
}.

Definition TruePredicate : Predicate := {| Apply := fun _ => true |}.

(** Modelled from the spec: the declaration of [andPredicate], which is
    missing.  [and(list)] holds of a tag set when every predicate of the list
    does. *)
Definition andPredicate (predicates : list Predicate) : Predicate :=
  {| Apply := fun ts => forallb (fun p => Apply p ts) predicates |}.

(** [api.FetchMultipleRequest], without the handles it carries along (the API,
    the cancellation token, the profiler). *)
Record FetchMultipleRequest := {
  fmr_Metrics : list TaggedMetric;
  fmr_SampleMethod : SampleMethod;
  fmr_Timerange : Timerange
}.

(** What a query's evaluation changes: the number of fetches admitted so far
    by the fetch-limit counter, and the multi-fetches issued, in order. *)
Record world := {
  w_admitted : Z;
  w_fetches : list FetchMultipleRequest
}.

(** [function.EvaluationContext]: the metadata API and the multi-backend stand
    as the functions they are called as. *)
Record EvaluationContext := {
  ctx_GetAllTags : MetricKey -> result (list TagSet);
  ctx_FetchMultipleSeries : FetchMultipleRequest -> result SeriesList;
  ctx_Predicate : option Predicate;
  ctx_SampleMethod : SampleMethod;
  ctx_Timerange : Timerange;
  ctx_FetchLimit : Z
}.

(** Modelled from the spec: [FetchCounter.Consume], which is missing.
    [consume(k)] either increments the number of admitted fetches by [k], or
    fails when that would exceed the fetch limit. *)
Definition Consume (limit : Z) (k : Z) (admitted : Z) : bool * Z :=
  if admitted + k <=? limit then (true, admitted + k) else (false, admitted).

Record metricFetchExpression := {
  metricName : string;
  predicate : option Predicate
}.

Definition fetch_limit_exceeded : error := "fetch limit exceeded: too many series to fetch".

Definition applyPredicates (tagSets : list TagSet) (p : Predicate) : list TagSet :=
  foldl (fun output ts => if Apply p ts then output ++ [ts] else output) [] tagSets.

(** The predicate [Evaluate] filters with. *)
Definition mergePredicates (context_predicate expr_predicate : option Predicate) : Predicate :=
  match context_predicate, expr_predicate with
  | None, None => TruePredicate
  | None, Some p => p
  | Some c, None => c
  | Some c, Some p => andPredicate [p; c]
  end.

Definition Evaluate (expr : metricFetchExpression) (context : EvaluationContext) (w : world)
    : result Value * world :=
  let p := mergePredicates (ctx_Predicate context) (predicate expr) in
  match ctx_GetAllTags context (metricName expr) with
  | Err e => (Err e, w)
  | Ok metricTagSets =>
      let filtered := applyPredicates metricTagSets p in
      let '(ok, admitted) :=
        Consume (ctx_FetchLimit context) (Z.of_nat (length filtered)) (w_admitted w) in
      let w := {| w_admitted := admitted; w_fetches := w_fetches w |} in
      if negb ok then (Err fetch_limit_exceeded, w)
      else
        let metrics :=
          (fun ts => {| tm_MetricKey := metricName expr; tm_TagSet := ts |}) <$> filtered in
        let request := {| fmr_Metrics := metrics;
                          fmr_SampleMethod := ctx_SampleMethod context;
                          fmr_Timerange := ctx_Timerange context |} in
        let w := {| w_admitted := w_admitted w; w_fetches := w_fetches w ++ [request] |} in
        match ctx_FetchMultipleSeries context request with
        | Err e => (Err e, w)
        | Ok serieslist =>
            (Ok (SeriesListValue {| sl_Series := sl_Series serieslist;
                                    sl_Timerange := sl_Timerange serieslist;
                                    sl_Name := metricName expr |}), w)
        end
  end.

End Query.

(** ** Package [internal]: the naming rules

    The rule engine is known by its tests and by its caller [ruletester]; its
    own code is missing, and it is modelled from the specification (§3, §4.1). *)

Module Rules.
Import Api.

(** Modelled from the spec: the parsed form of a pattern, which is missing.
    A pattern "is a sequence of literal segments and [%tag%] placeholders". *)
Inductive segment :=
| Lit (s : string)
| Tag (name : string).

Definition lit_segment (acc : string) : list segment :=
  if decide (acc = EmptyString) then [] else [Lit acc].

Definition percent : ascii := "%"%char.
Definition dot : ascii := "."%char.

(** Modelled from the spec: the parser of patterns, which is missing.  It
    yields the segments of a pattern, and [None] for an unclosed [%] or an
    empty tag name ([%%]).  [in_tag] tells whether the text read into [acc] is
    a tag name. *)
Fixpoint parse_segments (s : string) (in_tag : bool) (acc : string) : option (list segment) :=
  match s with
  | EmptyString => if in_tag then None else Some (lit_segment acc)
  | String c s =>
      if Ascii.eqb c percent then
        if in_tag then
          if decide (acc = EmptyString) then None
          else option_map (cons (Tag acc)) (parse_segments s false EmptyString)
        else option_map (app (lit_segment acc)) (parse_segments s true EmptyString)
      else parse_segments s in_tag (acc ++ String c EmptyString)
  end.

Definition parse_pattern (s : string) : option (list segment) :=
  parse_segments s false EmptyString.

(** The ordered list of the tag names embedded in a pattern. *)
Fixpoint tags_of (segs : list segment) : list string :=
  match segs with
  | [] => []
  | Lit _ :: segs => tags_of segs
  | Tag t :: segs => t :: tags_of segs
  end.

(** Two placeholders with no separator between them. *)
Fixpoint adjacent_tags (segs : list segment) : bool :=
  match segs with
  | Tag _ :: ((Tag _ :: _) as segs) => true
  | _ :: segs => adjacent_tags segs
  | [] => false
  end.

(** Modelled from the spec: the declaration of [RawRule], which is missing:
    [(pattern, metric_key_pattern, regex_overrides)].  A custom regex stands
    as the test of the values it matches. *)
Record RawRule := {
  Pattern : string;
  MetricKeyPattern : string;
  Regex : gmap string (string -> bool)
}.

(** Modelled from the spec: the declaration of the compiled [Rule], which is
    missing.  It holds, besides the raw rule, the parsed patterns and the
    ordered tag lists of both. *)
Record Rule := {
  raw : RawRule;
  graphitePattern : list segment;
  metricKeyPattern : list segment;
  graphitePatternTags : list string;
  metricKeyTags : list string
}.

Inductive RuleErrorCode := InvalidPattern | InvalidMetricKey | InvalidCustomRegex | InvalidYaml.

Inductive ConversionErrorCode := MissingTag | CannotInterpolate.

(** Modelled from the spec: [Compile], which is missing.  It refuses an
    empty metric key, an empty pattern, an unclosed [%], [%%], a repeated tag
    name and two adjacent placeholders. *)
Definition Compile (rule : RawRule) : RuleErrorCode + Rule :=
  if decide (MetricKeyPattern rule = EmptyString) then inl InvalidMetricKey
  else if decide (Pattern rule = EmptyString) then inl InvalidPattern
  else
    match parse_pattern (Pattern rule), parse_pattern (MetricKeyPattern rule) with
    | None, _ => inl InvalidPattern
    | _, None => inl InvalidMetricKey
    | Some pattern, Some key =>
        if negb (bool_decide (NoDup (tags_of pattern))) || adjacent_tags pattern
        then inl InvalidPattern
        else if negb (bool_decide (NoDup (tags_of key))) || adjacent_tags key
        then inl InvalidMetricKey
        else inr {| raw := rule;
                    graphitePattern := pattern;
                    metricKeyPattern := key;
                    graphitePatternTags := tags_of pattern;
                    metricKeyTags := tags_of key |}
    end.

(** The default of a placeholder, [[^.]+]: a non-empty run of characters
    without the separator. *)
Fixpoint no_dot (v : string) : bool :=
  match v with
  | EmptyString => true
  | String c v => negb (Ascii.eqb c dot) && no_dot v
  end.

Definition default_regex (v : string) : bool :=
  negb (bool_decide (v = EmptyString)) && no_dot v.

(** The values a placeholder may capture: those of its custom regex, or of
    the default. *)
Definition tag_regex (regex : gmap string (string -> bool)) (t : string) : string -> bool :=
  default default_regex (regex !! t).

(** [strip_prefix l s]: what follows the literal [l] at the start of [s]. *)
Fixpoint strip_prefix (l s : string) : option string :=
  match l with
  | EmptyString => Some s
  | String c l =>
      match s with
      | EmptyString => None
      | String d s => if Ascii.eqb c d then strip_prefix l s else None
      end
  end.

(** The ways to cut [s] in two, the longest first part first. *)
Fixpoint splits (s : string) : list (string * string) :=
  match s with
  | EmptyString => [(EmptyString, EmptyString)]
  | String c s' => ((fun vr => (String c (fst vr), snd vr)) <$> splits s') ++ [(EmptyString, s)]
  end.

(** The first candidate on which [f] succeeds. *)
Fixpoint first_success {A B : Type} (f : A -> option B) (l : list A) : option B :=
  match l with
  | [] => None
  | x :: l => match f x with Some y => Some y | None => first_success f l end
  end.

(** Modelled from the spec: the match of a name against the anchored regex
    of a pattern, which is missing, with its named captures in the order of the
    pattern.  Each
    placeholder takes the longest value that lets the rest of the pattern
    match, as a regex engine's greedy repetition does. *)
Fixpoint match_segments (regex : gmap string (string -> bool)) (segs : list segment)
    (s : string) : option (list (string * string)) :=
  match segs with
  | [] => if decide (s = EmptyString) then Some [] else None
  | Lit l :: segs =>
      match strip_prefix l s with
      | Some rest => match_segments regex segs rest
      | None => None
      end
  | Tag t :: segs =>
      first_success
        (fun vr =>
           if tag_regex regex t (fst vr) then
             option_map (cons (t, fst vr)) (match_segments regex segs (snd vr))
           else None)
        (splits s)
  end.

(** The pattern with every [%tag%] replaced by the value the tag set has for
    it; [None] when a tag is absent. *)
Fixpoint interpolate (segs : list segment) (tags : TagSet) : option string :=
  match segs with
  | [] => Some EmptyString
  | Lit l :: segs => option_map (String.append l) (interpolate segs tags)
  | Tag t :: segs =>
      match tags !! t with
      | Some v => option_map (String.append v) (interpolate segs tags)
      | None => None
      end
  end.

(** Modelled from the spec: [Rule.MatchRule], which is missing.  The
    forward operation yields the tag set of the named captures, without
    the tags the metric key takes up, and the metric key pattern with its
    placeholders replaced by the captures; [None] stands for [(_, false)]. *)
Definition MatchRule (rule : Rule) (input : string) : option TaggedMetric :=
  match match_segments (Regex (raw rule)) (graphitePattern rule) input with
  | None => None
  | Some captures =>
      let tagSet : TagSet := list_to_map captures in
      match interpolate (metricKeyPattern rule) tagSet with
      | None => None
      | Some key =>
          Some {| tm_MetricKey := key;
                  tm_TagSet := foldl (fun ts t => delete t ts) tagSet (metricKeyTags rule) |}
      end
  end.

(** Modelled from the spec: [Rule.ToGraphiteName], which is missing.  The
    inverse operation matches the metric key against the key
    pattern ([CannotInterpolate] when it does not match), takes the unresolved
    tags from the tag set, and substitutes them in the pattern ([MissingTag]
    when one is absent). *)
Definition ToGraphiteName (rule : Rule) (m : TaggedMetric) : ConversionErrorCode + string :=
  match match_segments (Regex (raw rule)) (metricKeyPattern rule) (tm_MetricKey m) with
  | None => inl CannotInterpolate
  | Some extracted =>
      let tagSet : TagSet := list_to_map extracted ∪ tm_TagSet m in
      match interpolate (graphitePattern rule) tagSet with
      | None => inl MissingTag
      | Some name => inr name
      end
  end.

End Rules.

(** ** Vocabulary of the properties *)

(** A vector is monotonically nondecreasing: slots in order hold values in
    order, for binary64's [<=] (which no NaN satisfies). *)
Definition nondecreasing (l : list float) : Prop :=
  forall i j x y, (i < j)%nat -> l !! i = Some x -> l !! j = Some y -> (x <=? y)%float = true.

(** The running sum that [Cumulative] keeps: NaN inputs leave it as it is. *)
Definition cumulative_step (sum x : float) : float :=
  if negb (Float64.IsNaN x) then (sum + x)%float else sum.

Fixpoint running_sums (sum : float) (l : list float) : list float :=
  match l with
  | [] => []
  | x :: l => cumulative_step sum x :: running_sums (cumulative_step sum x) l
  end.

(** The list of the tests of package [transform] ([TestApplyTransform]). *)
Definition transform_test_list : Api.SeriesList :=
  {| Api.sl_Series :=
       [ {| Api.ts_Values := [0; 1; 2; 3; 4; 5]%float; Api.ts_TagSet := {[ "series" := "A" ]} |};
         {| Api.ts_Values := [2; 2; 1; 1; 3; 3]%float; Api.ts_TagSet := {[ "series" := "B" ]} |};
         {| Api.ts_Values := [0; 1; 2; 3; 2; 1]%float; Api.ts_TagSet := {[ "series" := "C" ]} |} ]%string;
     Api.sl_Timerange := {| Api.tr_start := 758400000; Api.tr_end := 758400000 + 30000 * 5;
                            Api.tr_resolution := 30000 |};
     Api.sl_Name := "test" |}.

(** The scale [ApplyTransform] hands to the transform: the resolution in
    seconds, [float64(list.Timerange.Resolution()) / 1000]. *)
Definition transform_scale (sl : Api.SeriesList) : float :=
  (Float64.of_Z (Api.Resolution (Api.sl_Timerange sl)) / 1000)%float.

(** The value [Derivative] writes to slot [i]. *)
Definition derivative_at (values : list float) (scale : float) (i : nat) : float :=
  if Nat.eqb i 0 then 0%float
  else ((values !!! i - values !!! (i - 1)%nat) / scale)%float.

(** The value [Rate] leaves in slot [i]. *)
Definition rate_at (values : list float) (scale : float) (i : nat) : float :=
  let d := derivative_at values scale i in
  if (d <? 0)%float then 0%float else d.

(** The result of [ApplyTransform] on the tests' list under [Derivative]. *)
Definition transform_test_derivative : Api.SeriesList :=
  {| Api.sl_Series :=
       [ {| Api.ts_Values := [0; 1 / 30; 1 / 30; 1 / 30; 1 / 30; 1 / 30]%float;
            Api.ts_TagSet := {[ "series" := "A" ]} |};
         {| Api.ts_Values := [0; 0; -1 / 30; 0; 2 / 30; 0]%float;
            Api.ts_TagSet := {[ "series" := "B" ]} |};
         {| Api.ts_Values := [0; 1 / 30; 1 / 30; 1 / 30; -1 / 30; -1 / 30]%float;
            Api.ts_TagSet := {[ "series" := "C" ]} |} ]%string;
     Api.sl_Timerange := Api.sl_Timerange transform_test_list;
     Api.sl_Name := "test" |}.


(** The entries a reducer keeps: those that are not NaN, in order. *)
Definition non_nan (array : list float) : list float :=
  filter (fun v => Float64.IsNaN v = false) array.

(** The binary64 sum of a list, accumulated from 0 and from the left. *)
Definition float_sum (l : list float) : float := foldl (fun sum v => (sum + v)%float) 0%float l.

(** The number a binary64 value stands for, when it is a whole number: the
    mantissa times two to the exponent.  NaN, the infinities and the values
    with a fractional part have none. *)
Definition exact_Z (x : float) : option Z :=
  match Prim2SF x with
  | S754_zero _ => Some 0
  | S754_finite s m e =>
      let sign := if s then -1 else 1 in
      if 0 <=? e then Some (sign * (Z.pos m * 2 ^ e))
      else if Z.pos m mod 2 ^ (- e) =? 0 then Some (sign * (Z.pos m / 2 ^ (- e)))
      else None
  | _ => None
  end.

(** The mathematical sum of whole numbers. *)
Definition sum_Z (zs : list Z) : Z := foldr Z.add 0 zs.

(** The projection of a tag set onto the tags [tags]: every tag of [tags],
    with the value a Go map read gives for it (the empty string when absent).
    It is the [newTags] of [addToGroup]. *)
Definition project (tags : list string) (ts : Api.TagSet) : Api.TagSet :=
  foldl (fun newTags t => <[t := Api.tag ts t]> newTags) Api.NewTagSet tags.

(** A series as [addToGroup] stores it: its values, and its tag set projected. *)
Definition retag (tags : list string) (series : Api.Timeseries) : Api.Timeseries :=
  {| Api.ts_Values := Api.ts_Values series;
     Api.ts_TagSet := project tags (Api.ts_TagSet series) |}.

(** The distinct elements of a list, in the order of their first occurrence. *)
Definition first_seen {A : Type} `{EqDecision A} (keys : list A) : list A :=
  foldl (fun acc k => if decide (k ∈ acc) then acc else acc ++ [k]) [] keys.

(** The group of the members that carry the tag set [k]. *)
Definition group_of (members : list Api.Timeseries) (k : Api.TagSet) : Aggregate.group :=
  {| Aggregate.g_List := filter (fun s => Api.ts_TagSet s = k) members;
     Aggregate.g_TagSet := k |}.

(** The list of [Test_groupBy]. *)
Definition groupBy_test_list : Api.SeriesList :=
  {| Api.sl_Series :=
       [ {| Api.ts_Values := [0; 0; 0]%float;
            Api.ts_TagSet := <["dc" := "A"]> (<["env" := "production"]> {[ "host" := "#1" ]}) |};
         {| Api.ts_Values := [1; 1; 1]%float;
            Api.ts_TagSet := <["dc" := "B"]> (<["env" := "staging"]> {[ "host" := "#1" ]}) |};
         {| Api.ts_Values := [2; 2; 2]%float;
            Api.ts_TagSet := <["dc" := "C"]> (<["env" := "staging"]> {[ "host" := "#1" ]}) |};
         {| Api.ts_Values := [3; 3; 3]%float;
            Api.ts_TagSet := <["dc" := "B"]> (<["env" := "production"]> {[ "host" := "#2" ]}) |};
         {| Api.ts_Values := [4; 4; 4]%float;
            Api.ts_TagSet := <["dc" := "C"]> (<["env" := "staging"]> {[ "host" := "#2" ]}) |} ]%string;
     Api.sl_Timerange := {| Api.tr_start := 0; Api.tr_end := 0; Api.tr_resolution := 0 |};
     Api.sl_Name := "" |}.

(** The members' values at slot [i], in the members' order: the [timeSlice]
    of [applyAggregation]. *)
Definition column (i : nat) (members : list Api.Timeseries) : list float :=
  (fun m => Api.ts_Values m !!! i) <$> members.

(** The number of slots [applyAggregation] gives its result: that of the
    group's first member. *)
Definition slot_count (g : Aggregate.group) : nat :=
  match Aggregate.g_List g with
  | [] => 0
  | first :: _ => length (Api.ts_Values first)
  end.

(** The series [applyAggregation] builds for a group. *)
Definition aggregated (aggregator : list float -> float) (g : Aggregate.group) : Api.Timeseries :=
  {| Api.ts_Values := (fun i => aggregator (column i (Aggregate.g_List g))) <$> seq 0 (slot_count g);
     Api.ts_TagSet := Aggregate.g_TagSet g |}.

(** The series that aggregation is to return for the tag set [k]: slot by
    slot, over [N] slots, the aggregator on the values of the series of the
    list whose tag set, projected onto [tags], is [k], in the order of the
    list; and [k] for its tag set. *)
Definition aggregate_for (aggregator : list float -> float) (tags : list string)
    (series : list Api.Timeseries) (N : nat) (k : Api.TagSet) : Api.Timeseries :=
  {| Api.ts_Values :=
       (fun i => aggregator
                   (column i (filter (fun s => project tags (Api.ts_TagSet s) = k) series)))
         <$> seq 0 N;
     Api.ts_TagSet := k |}.

(** The list of [Test_groupBy], summed by [dc]. *)
Definition groupBy_test_sums : Api.SeriesList :=
  {| Api.sl_Series :=
       [ {| Api.ts_Values := [0; 0; 0]%float; Api.ts_TagSet := {[ "dc" := "A" ]} |};
         {| Api.ts_Values := [4; 4; 4]%float; Api.ts_TagSet := {[ "dc" := "B" ]} |};
         {| Api.ts_Values := [6; 6; 6]%float; Api.ts_TagSet := {[ "dc" := "C" ]} |} ]%string;
     Api.sl_Timerange := Api.sl_Timerange groupBy_test_list;
     Api.sl_Name := Api.sl_Name groupBy_test_list |}.

(** The group of [Test_applyAggregation], as a list: four series with the
    same tags. *)
Definition aggregation_test_list : Api.SeriesList :=
  let tags : Api.TagSet := <["env" := "production"]> {[ "dc" := "A" ]} in
  {| Api.sl_Series :=
       [ {| Api.ts_Values := [0; 1; 2; 3]%float; Api.ts_TagSet := tags |};
         {| Api.ts_Values := [4; 0; 4; 4]%float; Api.ts_TagSet := tags |};
         {| Api.ts_Values := [-1; -1; 2; 2]%float; Api.ts_TagSet := tags |};
         {| Api.ts_Values := [0; 2; 0; 2]%float; Api.ts_TagSet := tags |} ]%string;
     Api.sl_Timerange := {| Api.tr_start := 42; Api.tr_end := 60; Api.tr_resolution := 6 |};
     Api.sl_Name := "Test.List" |}.

(** What aggregating it is to give, for the values [values]. *)
Definition aggregation_test_result (values : list float) : Api.SeriesList :=
  {| Api.sl_Series :=
       [ {| Api.ts_Values := values;
            Api.ts_TagSet := <["env" := "production"]> {[ "dc" := "A" ]} |} ]%string;
     Api.sl_Timerange := {| Api.tr_start := 42; Api.tr_end := 60; Api.tr_resolution := 6 |};
     Api.sl_Name := "Test.List" |}.

(** The slot [addMetricPoint] computes for a point, when the resolution is not
    zero: the quotient, truncated toward zero, of [timestamp - start] by the
    resolution. *)
Definition slot_of (timerange : Api.Timerange) (point : Blueflood.metricPoint) : Z :=
  Blueflood.wrap64
    (Blueflood.int64_sub (Blueflood.mp_Timestamp point) (Api.Start timerange)
       ÷ Api.Resolution timerange).

(** The bucket of slot [i]: the selected field of the points assigned to it,
    in the order of the response. *)
Definition bucket_of (timerange : Api.Timerange) (field : Blueflood.metricPoint -> float)
    (points : list Blueflood.metricPoint) (i : nat) : list float :=
  field <$> filter (fun p => slot_of timerange p = Z.of_nat i) points.

(** A timerange of two slots of 30 s, and a response with one point, 1 ms
    before the start of the timerange. *)
Definition early_timerange : Api.Timerange :=
  {| Api.tr_start := 30000; Api.tr_end := 60000; Api.tr_resolution := 30000 |}.

Definition early_point : Blueflood.metricPoint :=
  {| Blueflood.mp_Points := 1; Blueflood.mp_Timestamp := 29999;
     Blueflood.mp_Average := 5%float; Blueflood.mp_Max := 5%float;
     Blueflood.mp_Min := 5%float; Blueflood.mp_Variance := 0%float |}.

Definition early_response : Blueflood.queryResponse :=
  {| Blueflood.qr_Values := [early_point] |}.

(** The sampler of [samplerMap] for the mean. *)
Definition mean_sampler : Blueflood.sampler :=
  {| Blueflood.fieldName := "average";
     Blueflood.fieldSelector := Blueflood.mp_Average;
     Blueflood.bucketSampler := fun bucket =>
       let value := foldl (fun value v => (value + v)%float) 0%float bucket in
       (value / Float64.of_nat (length bucket))%float |}.

(** A context whose metric has one tag set and whose backend is down. *)
Definition backend_down_context : Query.EvaluationContext :=
  {| Query.ctx_GetAllTags := fun _ => Function.Ok [ ({[ "host" := "a" ]} : Api.TagSet) ]%string;
     Query.ctx_FetchMultipleSeries := fun _ => Function.Err "backend down"%string;
     Query.ctx_Predicate := None;
     Query.ctx_SampleMethod := Api.SampleMean;
     Query.ctx_Timerange := {| Api.tr_start := 0; Api.tr_end := 60000; Api.tr_resolution := 30000 |};
     Query.ctx_FetchLimit := 1000 |}.

(** The same metric behind a backend that answers one constant series per
    requested metric. *)
Definition backend_up_context : Query.EvaluationContext :=
  {| Query.ctx_GetAllTags := fun _ => Function.Ok [ ({[ "host" := "a" ]} : Api.TagSet) ]%string;
     Query.ctx_FetchMultipleSeries := fun request =>
       Function.Ok
         {| Api.sl_Series :=
              (fun m => {| Api.ts_Values := [1; 1; 1]%float; Api.ts_TagSet := Api.tm_TagSet m |})
                <$> Query.fmr_Metrics request;
            Api.sl_Timerange := Query.fmr_Timerange request;
            Api.sl_Name := "" |};
     Query.ctx_Predicate := None;
     Query.ctx_SampleMethod := Api.SampleMean;
     Query.ctx_Timerange := {| Api.tr_start := 0; Api.tr_end := 60000; Api.tr_resolution := 30000 |};
     Query.ctx_FetchLimit := 1000 |}.

Definition cpu_fetch : Query.metricFetchExpression :=
  {| Query.metricName := "cpu"; Query.predicate := None |}.

Definition fresh_world : Query.world := {| Query.w_admitted := 0; Query.w_fetches := [] |}.

(** Matching the metric key of [m] against the key pattern of the rule
    recovers values that the forward match captured from the name [input]. *)
Definition key_recovers (rule : Rules.Rule) (input : string) (m : Api.TaggedMetric) : Prop :=
  exists captures extracted,
    Rules.match_segments (Rules.Regex (Rules.raw rule)) (Rules.graphitePattern rule) input
      = Some captures /\
    Rules.match_segments (Rules.Regex (Rules.raw rule)) (Rules.metricKeyPattern rule)
      (Api.tm_MetricKey m) = Some extracted /\
    extracted ⊆ captures.

(** The rule of [TestMatchRule_FilterTag], and one whose metric key joins two
    tags with a character that their values may hold. *)
Definition filter_tag_raw : Rules.RawRule :=
  {| Rules.Pattern := "prefix.%foo%.%bar%";
     Rules.MetricKeyPattern := "test-metric.%bar%";
     Rules.Regex := ∅ |}.

Definition filter_tag_rule : Rules.Rule :=
  {| Rules.raw := filter_tag_raw;
     Rules.graphitePattern := [Rules.Lit "prefix."; Rules.Tag "foo"; Rules.Lit "."; Rules.Tag "bar"];
     Rules.metricKeyPattern := [Rules.Lit "test-metric."; Rules.Tag "bar"];
     Rules.graphitePatternTags := ["foo"; "bar"];
     Rules.metricKeyTags := ["bar"] |}%string.

Definition dashed_key_raw : Rules.RawRule :=
  {| Rules.Pattern := "%a%.%b%";
     Rules.MetricKeyPattern := "%a%-%b%";
     Rules.Regex := ∅ |}.

Definition dashed_key_rule : Rules.Rule :=
  {| Rules.raw := dashed_key_raw;
     Rules.graphitePattern := [Rules.Tag "a"; Rules.Lit "."; Rules.Tag "b"];
     Rules.metricKeyPattern := [Rules.Tag "a"; Rules.Lit "-"; Rules.Tag "b"];
     Rules.graphitePatternTags := ["a"; "b"];
     Rules.metricKeyTags := ["a"; "b"] |}%string.

(** * Part I, continued: more of the code *)

(** ** Package [transform]: the transforms that fill and map *)

Module TransformFill.
Import Api Function Transform.

(** [MapMaker(fun)]: the transform that applies [fun] to every value. *)
Definition MapMaker (fun_ : float -> float) : transform := fun values parameters scale =>
  Ok (for_range (length values) (fun i result => <[i := fun_ (values !!! i)]> result)
        (make_floats (length values))).

(** The error of a conversion to a scalar; the package that words it is
    missing. *)
Definition not_a_scalar : error := "cannot convert value to a scalar".

(** Modelled from the spec: [Value.ToScalar], which is missing:
    [to_scalar: scalar -> self; others error]. *)
Definition ToScalar (v : Value) : result float :=
  match v with
  | ScalarValue f => Ok f
  | _ => Err not_a_scalar
  end.

Definition Default_body (values : list float) (defaultValue : float) (i : nat)
    (result : list float) : list float :=
  if Float64.IsNaN (values !!! i) then <[i := defaultValue]> result
  else <[i := values !!! i]> result.

(** [Default] reads [parameters[0]] before anything else, a read that panics
    on an empty slice. *)
Definition Default (values : list float) (parameters : list Value) (scale : float)
    : Aggregate.outcome (result (list float)) :=
  match parameters !! 0%nat with
  | None => Aggregate.Panic Aggregate.index_out_of_range
  | Some parameter =>
      match ToScalar parameter with
      | Err e => Aggregate.Done (Err e)
      | Ok defaultValue =>
          Aggregate.Done
            (Ok (for_range (length values) (Default_body values defaultValue)
                   (make_floats (length values))))
      end
  end.

Definition NaNKeepLast_body (values : list float) (i : nat) (result : list float) : list float :=
  let result := <[i := values !!! i]> result in
  if Float64.IsNaN (result !!! i) && (0 <? i)%nat
  then <[i := result !!! (i - 1)%nat]> result
  else result.

Definition NaNKeepLast : transform := fun values parameters scale =>
  Ok (for_range (length values) (NaNKeepLast_body values) (make_floats (length values))).

End TransformFill.

(** ** Package [blueflood]: the choice of the rollup *)

Module BluefloodTtl.
Import Blueflood.

(** [type Resolution string], and the names of the backend's rollups. *)
Definition Resolution := string.

Definition ResolutionFull : Resolution := "FULL".
Definition Resolution5Min : Resolution := "MIN5".
Definition Resolution20Min : Resolution := "MIN20".
Definition Resolution60Min : Resolution := "MIN60".
Definition Resolution240Min : Resolution := "MIN240".
Definition Resolution1440Min : Resolution := "MIN1440".

(** [Config]; [Ttls] gives a time to live in days; [Timeout] is a duration
    in nanoseconds. *)
Record Config := {
  BaseUrl : string;
  TenantId : string;
  Ttls : gmap Resolution Z;
  Timeout : Z
}.

Definition int64_mul (x y : Z) : Z := wrap64 (x * y).

(** The message of the panic of [getTtlInMillis]. *)
Definition invalid_resolution (r : Resolution) : string :=
  String.append "invalid resolution `" (String.append r "`").

(** The days [getTtlInMillis] finds for a resolution: the configured ones, or
    the backend's defaults; [None] where the code panics. *)
Definition ttl_days (c : Config) (r : Resolution) : option Z :=
  match Ttls c !! r with
  | Some v => Some v
  | None =>
      if decide (r = ResolutionFull) then Some 7
      else if decide (r = Resolution5Min) then Some 30
      else if decide (r = Resolution20Min) then Some 60
      else if decide (r = Resolution60Min) then Some 90
      else if decide (r = Resolution240Min) then Some 180
      else if decide (r = Resolution1440Min) then Some 365
      else None
  end.

Definition getTtlInMillis (c : Config) (r : Resolution) : Aggregate.outcome Z :=
  match ttl_days c r with
  | None => Aggregate.Panic (invalid_resolution r)
  | Some ttl =>
      Aggregate.Done (int64_mul (int64_mul (int64_mul (int64_mul ttl 24) 60) 60) 1000)
  end.

(** One case of the switch of [bluefloodResolution]:
    [resolution < limit && now-timestamp < c.getTtlInMillis(r)], whose second
    operand is evaluated only when the first holds; [otherwise] is the rest of
    the switch. *)
Definition resolution_case (c : Config) (resolution age limit : Z) (r : Resolution)
    (otherwise : Aggregate.outcome string) : Aggregate.outcome string :=
  if resolution <? limit then
    match getTtlInMillis c r with
    | Aggregate.Panic msg => Aggregate.Panic msg
    | Aggregate.Done ttl => if age <? ttl then Aggregate.Done r else otherwise
    end
  else otherwise.

(** [bluefloodResolution]; [unix] is what [time.Now().UTC().Unix()] returns,
    the seconds since the epoch. *)
Definition bluefloodResolution (c : Config) (unix : Z) (resolution timestamp : Z)
    : Aggregate.outcome string :=
  let now := int64_mul unix 1000 in
  let age := int64_sub now timestamp in
  resolution_case c resolution age (5 * 60 * 1000) ResolutionFull
    (resolution_case c resolution age (20 * 60 * 1000) Resolution5Min
       (resolution_case c resolution age (60 * 60 * 1000) Resolution20Min
          (resolution_case c resolution age (240 * 60 * 1000) Resolution60Min
             (resolution_case c resolution age (1440 * 60 * 1000) Resolution240Min
                (Aggregate.Done Resolution1440Min))))).

End BluefloodTtl.

(** ** Package [blueflood], as it was before the rollup depended on the age of
    the data *)

Module BluefloodV1.
Import Api Blueflood.

Definition int64_add (x y : Z) : Z := wrap64 (x + y).

(** The index [addMetricPoint] computes:
    [(timestamp - Start + Resolution/2) / Resolution].  The division by the
    constant 2 cannot fail; the division by the resolution panics when the
    resolution is zero. *)
Definition addMetricPoint_index (point : metricPoint) (timerange : Timerange)
    : Aggregate.outcome Z :=
  let timestamp := mp_Timestamp point in
  int64_quo
    (int64_add (int64_sub timestamp (Start timerange)) (wrap64 (Resolution timerange ÷ 2)))
    (Resolution timerange).

Definition index_out_of_range_error : Function.error := "index out of range".

(** [addMetricPoint], which rounds to the nearest index; it returns an error
    for a point out of the range, and [None] stands for [nil].  The write to
    [buckets[index]] panics when the slice has no such bucket. *)
Definition addMetricPoint (point : metricPoint) (field : metricPoint -> float)
    (timerange : Timerange) (buckets : list (list float))
    : Aggregate.outcome (option Function.error * list (list float)) :=
  let value := field point in
  match addMetricPoint_index point timerange with
  | Aggregate.Panic msg => Aggregate.Panic msg
  | Aggregate.Done index =>
      if (index <? 0) || (Slots timerange <=? index)
      then Aggregate.Done (Some index_out_of_range_error, buckets)
      else
        match buckets !! Z.to_nat index with
        | None => Aggregate.Panic Aggregate.index_out_of_range
        | Some bucket =>
            Aggregate.Done (None, <[Z.to_nat index := bucket ++ [value]]> buckets)
        end
  end.

(** [bucketsFromMetricPoints]: [make] panics on a negative number of slots; the
    error of [addMetricPoint] is discarded, a panic is not. *)
Definition bucketsFromMetricPoints (metricPoints : list metricPoint)
    (resultField : metricPoint -> float) (timerange : Timerange)
    : Aggregate.outcome (list (list float)) :=
  if Slots timerange <? 0 then Aggregate.Panic makeslice_len_out_of_range
  else
    let n := Z.to_nat (Slots timerange) in
    let buckets := for_range n (fun i buckets => <[i := []]> buckets) (replicate n []) in
    foldl (fun st point =>
             match st with
             | Aggregate.Panic msg => Aggregate.Panic msg
             | Aggregate.Done buckets =>
                 match addMetricPoint point resultField timerange buckets with
                 | Aggregate.Panic msg => Aggregate.Panic msg
                 | Aggregate.Done (_, buckets) => Aggregate.Done buckets
                 end
             end)
          (Aggregate.Done buckets) metricPoints.

Definition bluefloodResolution (r : Z) : string :=
  if r <? 5 * 60 * 1000 then BluefloodTtl.ResolutionFull
  else if r <? 20 * 60 * 1000 then BluefloodTtl.Resolution5Min
  else if r <? 60 * 60 * 1000 then BluefloodTtl.Resolution20Min
  else if r <? 240 * 60 * 1000 then BluefloodTtl.Resolution60Min
  else if r <? 1440 * 60 * 1000 then BluefloodTtl.Resolution240Min
  else BluefloodTtl.Resolution1440Min.

End BluefloodV1.

(** ** Package [query]: the expressions and their evaluation in order *)

Module QueryExpressions.
Import Api Function Query.

(** [function.Expression], an interface with the one method
    [Evaluate(context)]: an expression is one of the five implementations of
    package [query]. *)
#[warnings="-register-all"] Inductive Expression :=
| durationExpression (duration : Z)
| scalarExpression (value : float)
| stringExpression (value : string)
| fetchExpression (expr : metricFetchExpression)
| functionExpression (functionName : string) (arguments : list Expression)
    (groupBy : list string).

(** A registered function, by its method
    [Evaluate(context, arguments, groupBy)]. *)
Record MetricFunction := {
  mf_Evaluate : EvaluationContext -> list Expression -> list string -> world
                -> result Value * world
}.

(** [context.Registry], by its method [GetFunction(name)]; [None] stands for
    [(_, false)]. *)
Definition Registry := string -> option MetricFunction.

(** The message of the [SyntaxError] of a call of an unknown function. *)
Definition no_such_function (functionName : string) : error :=
  String.append "no such function " functionName.

(** The five methods [Evaluate]. *)
Definition Evaluate (registry : Registry) (expr : Expression) (context : EvaluationContext)
    (w : world) : result Value * world :=
  match expr with
  | durationExpression duration => (Ok (DurationValue duration), w)
  | scalarExpression value => (Ok (ScalarValue value), w)
  | stringExpression value => (Ok (StringValue value), w)
  | fetchExpression expr => Query.Evaluate expr context w
  | functionExpression functionName arguments groupBy =>
      match registry functionName with
      | None => (Err (no_such_function functionName), w)
      | Some fun_ => mf_Evaluate fun_ context arguments groupBy w
      end
  end.

(** The loop of [evaluateExpressions], from slot [i]; [results] holds [None]
    where the slice holds the [nil] that [make] puts there. *)
Fixpoint evaluateExpressions_loop (registry : Registry) (context : EvaluationContext)
    (expressions : list Expression) (i : nat) (results : list (option Value)) (w : world)
    : result (list (option Value)) * world :=
  match expressions with
  | [] => (Ok results, w)
  | expr :: expressions =>
      match Evaluate registry expr context w with
      | (Err e, w) => (Err e, w)
      | (Ok result, w) =>
          evaluateExpressions_loop registry context expressions (S i)
            (<[i := Some result]> results) w
      end
  end.

Definition evaluateExpressions (registry : Registry) (context : EvaluationContext)
    (expressions : list Expression) (w : world) : result (list (option Value)) * world :=
  if Nat.eqb (length expressions) 0 then (Ok [], w)
  else evaluateExpressions_loop registry context expressions 0
         (replicate (length expressions) None) w.

End QueryExpressions.

(** ** Program [ruletester] *)

Module Ruletester.
Import Api Function.

(** Modelled from the spec: the declaration of [internal.RuleSet], which is
    missing.  A rule set stands as its two operations (§4.1): the forward
    operation, [None] for [(_, false)], and the inverse operation. *)
Record RuleSet := {
  rs_MatchRule : string -> option TaggedMetric;
  rs_ToGraphiteName : TaggedMetric -> result string
}.

(** [PerMetricStatistics]; a Go [int] has 64 bits on the platforms of the
    program. *)
Record PerMetricStatistics := {
  pm_matched : Z;
  reverseSuccess : Z;
  reverseError : Z;
  reverseIncorrect : Z
}.

Record Statistics := {
  perMetric : gmap MetricKey PerMetricStatistics;
  matched : Z;
  unmatched : Z
}.

(** What [run] does besides counting: the metrics it adds to the database and
    the strings it writes to the file of the unmatched names, in order. *)
Record effects := {
  added : list TaggedMetric;
  written : list string
}.

(** [x++] on an [int]. *)
Definition incr (x : Z) : Z := Blueflood.wrap64 (x + 1).

(** [stat.perMetric[key]]: Go's map read, the zero value for an absent key. *)
Definition perMetric_of (stat : Statistics) (key : MetricKey) : PerMetricStatistics :=
  default {| pm_matched := 0; reverseSuccess := 0; reverseError := 0; reverseIncorrect := 0 |}
          (perMetric stat !! key).

Definition newline : string := String (ascii_of_nat 10) EmptyString.

(** One turn of the loop of [run], on the line [input]; [insertToDatabase] is
    the flag of that name and [unmatched_file] tells whether the file
    [unmatched] is not nil. *)
Definition run_step (insertToDatabase : bool) (ruleset : RuleSet) (unmatched_file : bool)
    (st : Statistics * effects) (input : string) : Statistics * effects :=
  let '(stat, fx) := st in
  match rs_MatchRule ruleset input with
  | Some converted =>
      let stat := {| perMetric := perMetric stat; matched := incr (matched stat);
                     unmatched := unmatched stat |} in
      let pm := perMetric_of stat (tm_MetricKey converted) in
      let pm := {| pm_matched := incr (pm_matched pm); reverseSuccess := reverseSuccess pm;
                   reverseError := reverseError pm; reverseIncorrect := reverseIncorrect pm |} in
      let reversed := rs_ToGraphiteName ruleset converted in
      let fx := if insertToDatabase
                then {| added := added fx ++ [converted]; written := written fx |}
                else fx in
      let pm :=
        match reversed with
        | Err _ =>
            {| pm_matched := pm_matched pm; reverseSuccess := reverseSuccess pm;
               reverseError := incr (reverseError pm); reverseIncorrect := reverseIncorrect pm |}
        | Ok reversed =>
            if decide (reversed <> input)
            then {| pm_matched := pm_matched pm; reverseSuccess := reverseSuccess pm;
                    reverseError := reverseError pm;
                    reverseIncorrect := incr (reverseIncorrect pm) |}
            else {| pm_matched := pm_matched pm; reverseSuccess := incr (reverseSuccess pm);
                    reverseError := reverseError pm; reverseIncorrect := reverseIncorrect pm |}
        end in
      ({| perMetric := <[tm_MetricKey converted := pm]> (perMetric stat);
          matched := matched stat; unmatched := unmatched stat |}, fx)
  | None =>
      let stat := {| perMetric := perMetric stat; matched := matched stat;
                     unmatched := incr (unmatched stat) |} in
      let fx := if unmatched_file
                then {| added := added fx; written := written fx ++ [input; newline] |}
                else fx in
      (stat, fx)
  end.

(** [run], on the lines the scanner yields. *)
Definition run (insertToDatabase : bool) (ruleset : RuleSet) (lines : list string)
    (unmatched_file : bool) : Statistics * effects :=
  foldl (run_step insertToDatabase ruleset unmatched_file)
        ({| perMetric := ∅; matched := 0; unmatched := 0 |}, {| added := []; written := [] |})
        lines.

End Ruletester.

(** ** Package [inspect]: the profiler *)

Module Inspect.

(** A [Profile]; a [time.Time] stands as the instant it denotes. *)
Record Profile := {
  name : string;
  startTime : Z;
  finishTime : Z
}.

(** A [*Profiler]: [None] is the nil pointer, and a profiler is otherwise
    known by its slice [profiles].  Its clock [now] is read by the calls, which
    are given the reading; its mutex orders the calls, which are taken one at
    a time. *)
Definition Profiler := option (list Profile).

Definition New : Profiler := Some [].

(** The closure [Record] returns: the one that does nothing, or the one that
    holds the name and the start of a profile. *)
Inductive recording :=
| no_recording
| recording_of (name : string) (start : Z).

(** [p.Record(name)], when the clock shows [now]. *)
Definition Record (p : Profiler) (name : string) (now : Z) : recording :=
  match p with
  | None => no_recording
  | Some _ => recording_of name now
  end.

(** The call of the closure of [p.Record], when the clock shows [now]: the
    profiler afterwards. *)
Definition finish (r : recording) (now : Z) (p : Profiler) : Profiler :=
  match r, p with
  | recording_of name start, Some profiles =>
      Some (profiles ++ [ {| name := name; startTime := start; finishTime := now |} ])
  | _, _ => p
  end.

Definition All (p : Profiler) : list Profile :=
  match p with
  | None => []
  | Some profiles => profiles
  end.

(** [p.Flush()]: the profiles returned and the profiler afterwards. *)
Definition Flush (p : Profiler) : list Profile * Profiler :=
  match p with
  | None => ([], None)
  | Some profiles => (profiles, Some [])
  end.

End Inspect.

(** ** Vocabulary of the further properties *)

(** The value [NaNKeepLast] leaves in slot [i]: the value of the slot, or the
    value left in the slot before it when the slot holds NaN and is not the
    first. *)
Fixpoint kept_at (values : list float) (i : nat) : float :=
  match i with
  | O => values !!! 0%nat
  | S j => if Float64.IsNaN (values !!! i) then kept_at values j else values !!! i
  end.

(** The last value that is not NaN among the first [n] values, and NaN when
    there is none. *)
Definition last_seen (values : list float) (n : nat) : float :=
  default Float64.NaN (last (non_nan (take n values))).

(** A transform succeeds on a series, for the scale of the list. *)
Definition transforms (sl : Api.SeriesList) (t : Transform.transform)
    (parameters : list Function.Value) (series : Api.Timeseries) : Prop :=
  exists values, t (Api.ts_Values series) parameters (transform_scale sl) = Function.Ok values.

(** A series without its tags: what grouping by no tag stores. *)
Definition untagged (series : Api.Timeseries) : Api.Timeseries :=
  {| Api.ts_Values := Api.ts_Values series; Api.ts_TagSet := Api.NewTagSet |}.

(** Two groups of two series: in the first the second series is longer than
    the first, in the second it is shorter. *)
Definition long_tail_group : Aggregate.group :=
  {| Aggregate.g_List :=
       [ {| Api.ts_Values := [1; 2; 3]%float; Api.ts_TagSet := Api.NewTagSet |};
         {| Api.ts_Values := [4; 5; 6; 7]%float; Api.ts_TagSet := Api.NewTagSet |} ];
     Aggregate.g_TagSet := Api.NewTagSet |}.

Definition short_tail_group : Aggregate.group :=
  {| Aggregate.g_List :=
       [ {| Api.ts_Values := [1; 2; 3]%float; Api.ts_TagSet := Api.NewTagSet |};
         {| Api.ts_Values := [4]%float; Api.ts_TagSet := Api.NewTagSet |} ];
     Aggregate.g_TagSet := Api.NewTagSet |}.

(** The points of slot [i] of a timerange: those with a timestamp in
    [[start + i * resolution, start + (i + 1) * resolution)]. *)
Definition slot_points (timerange : Api.Timerange) (points : list Blueflood.metricPoint)
    (i : nat) : list Blueflood.metricPoint :=
  filter (fun p => Api.Start timerange + Z.of_nat i * Api.Resolution timerange
                     <= Blueflood.mp_Timestamp p
                     < Api.Start timerange + (Z.of_nat i + 1) * Api.Resolution timerange)
         points.

(** How coarse a rollup is: its place in the list of the rollups, the raw
    data first. *)
Definition coarseness (r : string) : nat :=
  if decide (r = BluefloodTtl.ResolutionFull) then 0
  else if decide (r = BluefloodTtl.Resolution5Min) then 1
  else if decide (r = BluefloodTtl.Resolution20Min) then 2
  else if decide (r = BluefloodTtl.Resolution60Min) then 3
  else if decide (r = BluefloodTtl.Resolution240Min) then 4
  else 5.

(** The period of a rollup in milliseconds, as its name gives it in minutes;
    the raw data has none. *)
Definition rollup_millis (r : string) : Z :=
  if decide (r = BluefloodTtl.Resolution5Min) then 5 * 60 * 1000
  else if decide (r = BluefloodTtl.Resolution20Min) then 20 * 60 * 1000
  else if decide (r = BluefloodTtl.Resolution60Min) then 60 * 60 * 1000
  else if decide (r = BluefloodTtl.Resolution240Min) then 240 * 60 * 1000
  else if decide (r = BluefloodTtl.Resolution1440Min) then 1440 * 60 * 1000
  else 0.

Definition rollups : list string :=
  [ BluefloodTtl.ResolutionFull; BluefloodTtl.Resolution5Min; BluefloodTtl.Resolution20Min;
    BluefloodTtl.Resolution60Min; BluefloodTtl.Resolution240Min; BluefloodTtl.Resolution1440Min ].

(** A timerange of three slots of 30 s and a response with a point in each of
    the first two slots and one after the end of the last. *)
Definition three_slots : Api.Timerange :=
  {| Api.tr_start := 0; Api.tr_end := 60000; Api.tr_resolution := 30000 |}.

Definition point_at (timestamp : Z) (v : float) : Blueflood.metricPoint :=
  {| Blueflood.mp_Points := 1; Blueflood.mp_Timestamp := timestamp;
     Blueflood.mp_Average := v; Blueflood.mp_Max := v;
     Blueflood.mp_Min := v; Blueflood.mp_Variance := 0%float |}.

Definition three_slots_response : Blueflood.queryResponse :=
  {| Blueflood.qr_Values := [point_at 29999 1; point_at 30000 2; point_at 90000 3]%float |}.

(** A configuration without overrides. *)
Definition default_config : BluefloodTtl.Config :=
  {| BluefloodTtl.BaseUrl := EmptyString; BluefloodTtl.TenantId := EmptyString;
     BluefloodTtl.Ttls := ∅; BluefloodTtl.Timeout := 0 |}.

#[global] Instance outcome_eq_dec {A : Type} `{EqDecision A} : EqDecision (Aggregate.outcome A) :=
  ltac:(solve_decision).

(** The bucket of slot [i] under the earlier rounding: the selected field of
    the points whose nearest slot is [i], in the order of the response. *)
Definition nearest_bucket_of (timerange : Api.Timerange) (field : Blueflood.metricPoint -> float)
    (points : list Blueflood.metricPoint) (i : nat) : list float :=
  field <$> filter (fun p => BluefloodV1.addMetricPoint_index p timerange
                             = Aggregate.Done (Z.of_nat i)) points.

(** The number of series the multi-fetches issued so far have asked for. *)
Definition requested (w : Query.world) : Z :=
  foldr (fun request n => Z.of_nat (length (Query.fmr_Metrics request)) + n) 0 (Query.w_fetches w).

(** An expression that calls no registered function. *)
Definition calls_no_function (expr : QueryExpressions.Expression) : Prop :=
  match expr with
  | QueryExpressions.functionExpression _ _ _ => False
  | _ => True
  end.

(** An evaluation in order: from the world [w], the expressions [exprs],
    each evaluated in the world the one before it has left, succeed with the
    values [values] and leave the world [w']. *)
Fixpoint evaluated_in_order (registry : QueryExpressions.Registry)
    (context : Query.EvaluationContext) (w : Query.world)
    (exprs : list QueryExpressions.Expression) (values : list Function.Value)
    (w' : Query.world) : Prop :=
  match exprs, values with
  | [], [] => w' = w
  | expr :: exprs, v :: values =>
      exists w1, QueryExpressions.Evaluate registry expr context w = (Function.Ok v, w1) /\
                 evaluated_in_order registry context w1 exprs values w'
  | _, _ => False
  end.

(** A registry without functions, and a context whose fetch limit is 1. *)
Definition empty_registry : QueryExpressions.Registry := fun _ => None.

Definition one_fetch_context : Query.EvaluationContext :=
  {| Query.ctx_GetAllTags := Query.ctx_GetAllTags backend_up_context;
     Query.ctx_FetchMultipleSeries := Query.ctx_FetchMultipleSeries backend_up_context;
     Query.ctx_Predicate := None;
     Query.ctx_SampleMethod := Api.SampleMean;
     Query.ctx_Timerange := Query.ctx_Timerange backend_up_context;
     Query.ctx_FetchLimit := 1 |}.

(** How the reverse conversion of a matched line ends. *)
Inductive reversal := Reversed | ReverseFailed | ReversedWrongly.

#[global] Instance reversal_eq_dec : EqDecision reversal := ltac:(solve_decision).

(** What a line counts for: nothing when no rule matches it, and otherwise
    the metric key it is converted to and the end of its reverse conversion. *)
Definition classify (ruleset : Ruletester.RuleSet) (input : string)
    : option (Api.MetricKey * reversal) :=
  match Ruletester.rs_MatchRule ruleset input with
  | None => None
  | Some converted =>
      Some (Api.tm_MetricKey converted,
            match Ruletester.rs_ToGraphiteName ruleset converted with
            | Function.Err _ => ReverseFailed
            | Function.Ok reversed => if decide (reversed = input) then Reversed else ReversedWrongly
            end)
  end.

(** The number of the lines that count for [c]. *)
Definition tally (ruleset : Ruletester.RuleSet) (lines : list string)
    (c : option (Api.MetricKey * reversal)) : Z :=
  Z.of_nat (length (filter (fun input => classify ruleset input = c) lines)).

(** The number of the lines that a rule matches. *)
Definition tally_matched (ruleset : Ruletester.RuleSet) (lines : list string) : Z :=
  Z.of_nat (length (filter (fun input => classify ruleset input <> None) lines)).

(** The rule set of one rule. *)
Definition one_rule (rule : Rules.Rule) : Ruletester.RuleSet :=
  {| Ruletester.rs_MatchRule := Rules.MatchRule rule;
     Ruletester.rs_ToGraphiteName := fun m =>
       match Rules.ToGraphiteName rule m with
       | inl Rules.MissingTag => Function.Err "missing tag"
       | inl Rules.CannotInterpolate => Function.Err "cannot interpolate"
       | inr name => Function.Ok name
       end |}.

Definition ruletester_lines : list string :=
  [ "prefix.a.b"; "other"; "prefix.c.b"; "prefix.a.d" ]%string.

(** A use of a profiler: a task that is recorded from [start] to [finish],
    or a flush. *)
Inductive profiler_call :=
| Task (name : string) (start finish : Z)
| Flushing.

(** The profiles the flushes of a sequence of calls return, in order, and the
    profiler after the calls. *)
Fixpoint profiler_calls (p : Inspect.Profiler) (calls : list profiler_call)
    : list (list Inspect.Profile) * Inspect.Profiler :=
  match calls with
  | [] => ([], p)
  | Task name start finish :: calls =>
      profiler_calls (Inspect.finish (Inspect.Record p name start) finish p) calls
  | Flushing :: calls =>
      let '(flushed, p) := Inspect.Flush p in
      let '(later, p) := profiler_calls p calls in
      (flushed :: later, p)
  end.

(** The profiles of the tasks of a sequence of calls, in order. *)
Fixpoint tasks_of (calls : list profiler_call) : list Inspect.Profile :=
  match calls with
  | [] => []
  | Task name start finish :: calls =>
      {| Inspect.name := name; Inspect.startTime := start; Inspect.finishTime := finish |}
        :: tasks_of calls
  | Flushing :: calls => tasks_of calls
  end.


(** * Part II: properties of the embedded code *)

(** ** Loops over slices *)

Section Loops.
Context {A : Type}.

Lemma for_range_S {S : Type} (n : nat) (body : nat -> S -> S) (st : S) :
  for_range (Datatypes.S n) body st = body n (for_range n body st).
Proof.
  unfold for_range. rewrite seq_S, foldl_app. reflexivity.
Qed.

(** A loop whose [i]-th turn only writes slot [i], with a value that depends
    on [i] alone, fills the first [n] slots and leaves the others. *)
Lemma for_range_pointwise (f : nat -> A) (body : nat -> list A -> list A) (n : nat) (r : list A) :
  (forall i r, (i < length r)%nat -> body i r = <[i := f i]> r) ->
  (n <= length r)%nat ->
  for_range n body r = (f <$> seq 0 n) ++ drop n r.
Proof.
  intros Hbody. induction n as [|n IH]; intros Hn.
  - unfold for_range. simpl. rewrite drop_0. reflexivity.
  - rewrite for_range_S, IH by lia.
    assert (Hlen : length ((f <$> seq 0 n) ++ drop n r) = length r).
    { rewrite length_app, length_fmap, length_seq, length_drop. lia. }
    rewrite Hbody by (rewrite Hlen; lia).
    rewrite seq_S, fmap_app. simpl.
    replace n with (length (f <$> seq 0 n) + 0)%nat at 1
      by (rewrite length_fmap, length_seq; lia).
    rewrite insert_app_r.
    destruct (drop n r) as [|x l] eqn:Hd.
    { apply (f_equal length) in Hd. rewrite length_drop in Hd. simpl in Hd. lia. }
    simpl. rewrite <- app_assoc. simpl. f_equal. f_equal.
    change (Datatypes.S n) with (1 + n)%nat. rewrite Nat.add_comm, <- drop_drop, Hd.
    reflexivity.
Qed.

Lemma for_range_pointwise_full (f : nat -> A) (body : nat -> list A -> list A) (r : list A) :
  (forall i r, (i < length r)%nat -> body i r = <[i := f i]> r) ->
  for_range (length r) body r = f <$> seq 0 (length r).
Proof.
  intros Hbody. rewrite (for_range_pointwise f) by (auto; lia).
  rewrite drop_all, app_nil_r. reflexivity.
Qed.

Lemma lookup_fmap_seq (f : nat -> A) (n i : nat) :
  (i < n)%nat -> (f <$> seq 0 n) !! i = Some (f i).
Proof.
  intros Hi. rewrite list_lookup_fmap, lookup_seq_lt by lia. reflexivity.
Qed.

End Loops.

(** ** Binary64 arithmetic

    The kernel's [float] operations are specified by [Prim2SF] and the
    operations of [SpecFloat]; the facts below are read off those
    specifications at [prec = 53], [emax = 1024]. *)

(** Case analysis on every comparison of exponents and mantissas in sight. *)
Ltac sf_compare_cases :=
  repeat match goal with
  | H : context [Pos.compare_cont Eq ?a ?b] |- _ =>
      change (Pos.compare_cont Eq a b) with (Pos.compare a b) in H
  | |- context [Pos.compare_cont Eq ?a ?b] =>
      change (Pos.compare_cont Eq a b) with (Pos.compare a b)
  | H : context [Z.compare ?a ?b] |- _ => destruct (Z.compare_spec a b); simpl in H
  | H : context [Pos.compare ?a ?b] |- _ => destruct (Pos.compare_spec a b); simpl in H
  | |- context [Z.compare ?a ?b] => destruct (Z.compare_spec a b); simpl
  | |- context [Pos.compare ?a ?b] => destruct (Pos.compare_spec a b); simpl
  end.

Section Binary64.

Lemma digits2_pos_bounds (m : positive) :
  2 ^ (Z.pos (digits2_pos m) - 1) <= Z.pos m < 2 ^ Z.pos (digits2_pos m).
Proof.
  induction m as [m IH|m IH|]; simpl digits2_pos.
  - rewrite Pos2Z.inj_succ, (Pos2Z.inj_xI m).
    replace (Z.succ (Z.pos (digits2_pos m)) - 1) with (Z.succ (Z.pos (digits2_pos m) - 1)) by lia.
    rewrite !Z.pow_succ_r by lia. lia.
  - rewrite Pos2Z.inj_succ, (Pos2Z.inj_xO m).
    replace (Z.succ (Z.pos (digits2_pos m)) - 1) with (Z.succ (Z.pos (digits2_pos m) - 1)) by lia.
    rewrite !Z.pow_succ_r by lia. lia.
  - simpl. lia.
Qed.

(** Powers of two order their exponents. *)
Lemma pow2_le_lt_exp (a b x : Z) : 0 <= b -> 2 ^ a <= x < 2 ^ b -> a < b.
Proof.
  intros Hb [Hlo Hhi]. destruct (Z.lt_ge_cases a b) as [|Hge]; [assumption|].
  assert (2 ^ b <= 2 ^ a) by (apply Z.pow_le_mono_r; lia). lia.
Qed.

Lemma shr_1_m (mrs : shr_record) :
  0 <= shr_m mrs -> shr_m (shr_1 mrs) = shr_m mrs / 2.
Proof.
  destruct mrs as [m r s]. simpl. intros Hm.
  destruct m as [|[p|p|]|p]; simpl; try lia.
  - reflexivity.
  - rewrite (Pos2Z.inj_xI p). apply Z.div_unique with 1; lia.
  - rewrite (Pos2Z.inj_xO p). apply Z.div_unique with 0; lia.
  - reflexivity.
Qed.

Lemma iter_pos_shr_1_m (p : positive) :
  forall mrs, 0 <= shr_m mrs -> shr_m (SpecFloat.iter_pos shr_1 p mrs) = shr_m mrs / 2 ^ Z.pos p.
Proof.
  assert (Hpow : forall q : positive, 0 < 2 ^ Z.pos q) by (intros; apply Z.pow_pos_nonneg; lia).
  assert (Hhalf : forall mrs, 0 <= shr_m mrs -> 0 <= shr_m (shr_1 mrs)).
  { intros mrs H. rewrite shr_1_m by assumption. apply Z.div_pos; lia. }
  induction p as [p IH|p IH|]; intros mrs Hm; simpl SpecFloat.iter_pos.
  - assert (H1 : 0 <= shr_m (SpecFloat.iter_pos shr_1 p (shr_1 mrs))).
    { rewrite IH by auto. apply Z.div_pos; auto. }
    rewrite IH, IH, shr_1_m by auto.
    rewrite !Z.div_div by (try apply Hpow; try specialize (Hpow p); lia).
    f_equal. replace (Z.pos p~1) with (1 + Z.pos p + Z.pos p) by lia.
    rewrite !Z.pow_add_r by lia. change (2 ^ 1) with 2. lia.
  - assert (H1 : 0 <= shr_m (SpecFloat.iter_pos shr_1 p mrs)).
    { rewrite IH by auto. apply Z.div_pos; auto. }
    rewrite IH, IH by auto.
    rewrite Z.div_div by (try apply Hpow; try specialize (Hpow p); lia).
    f_equal. replace (Z.pos p~0) with (Z.pos p + Z.pos p) by lia.
    rewrite Z.pow_add_r by lia. reflexivity.
  - rewrite shr_1_m by assumption. reflexivity.
Qed.

Lemma shr_record_of_loc_m (m : Z) (l : location) : shr_m (shr_record_of_loc m l) = m.
Proof. destruct l as [|[]]; reflexivity. Qed.

(** [shr] divides the mantissa by [2 ^ n] and adds [n] to the exponent. *)
Lemma shr_spec (mrs : shr_record) (e n : Z) :
  0 <= shr_m mrs ->
  shr_m (fst (shr mrs e n)) = shr_m mrs / 2 ^ Z.max 0 n /\
  snd (shr mrs e n) = e + Z.max 0 n.
Proof.
  intros Hm. destruct n as [|p|p]; simpl.
  - rewrite Z.div_1_r. lia.
  - rewrite iter_pos_shr_1_m by assumption. rewrite Z.max_r by lia. lia.
  - rewrite Z.div_1_r. lia.
Qed.

Lemma shr_fexp_spec (m e : Z) (l : location) :
  0 <= m ->
  let n := Z.max 0 (fexp prec emax (Zdigits2 m + e) - e) in
  shr_m (fst (shr_fexp prec emax m e l)) = m / 2 ^ n /\
  snd (shr_fexp prec emax m e l) = e + n.
Proof.
  intros Hm n. unfold shr_fexp.
  pose proof (shr_spec (shr_record_of_loc m l) e (fexp prec emax (Zdigits2 m + e) - e)) as H.
  rewrite shr_record_of_loc_m in H. apply H. assumption.
Qed.

Lemma round_nearest_even_ge (m : Z) (l : location) : m <= round_nearest_even m l.
Proof. destruct l as [|[]]; simpl; try lia. destruct (Z.even m); lia. Qed.

Lemma Zdigits2_bounds (m : Z) :
  0 < m -> 0 < Zdigits2 m /\ 2 ^ (Zdigits2 m - 1) <= m < 2 ^ Zdigits2 m.
Proof.
  destruct m as [|p|p]; try lia. intros _. simpl Zdigits2.
  split; [lia | apply digits2_pos_bounds].
Qed.

Lemma fexp_eq (e : Z) : fexp prec emax e = Z.max (e - 53) (-1074).
Proof. reflexivity. Qed.

(** The comparison of a positive finite value with one of larger or equal
    exponent and, at equal exponents, larger or equal mantissa. *)
Lemma SFleb_finite_pos (mx my : positive) (ex ey : Z) :
  ex < ey \/ (ex = ey /\ (mx <= my)%positive) ->
  SFleb (S754_finite false mx ex) (S754_finite false my ey) = true.
Proof.
  intros H. unfold SFleb, SFcompare.
  destruct (Z.compare_spec ex ey) as [Heq|Hlt|Hgt]; try reflexivity; try lia.
  fold (Pos.compare mx my). destruct (Pos.compare_spec mx my); try reflexivity. lia.
Qed.

(** Rounding a positive value that is at least the canonical positive
    [mx * 2 ^ ex] never yields less than it. *)
Lemma binary_round_aux_ge (mx : positive) (ex M e : Z) (l : location) :
  fexp prec emax (Z.pos (digits2_pos mx) + ex) = ex ->
  e <= ex ->
  Z.pos mx * 2 ^ (ex - e) <= M ->
  SFleb (S754_finite false mx ex) (binary_round_aux prec emax false M e l) = true.
Proof.
  intros Hcan Hle HM.
  assert (Hpow : forall k, 0 <= k -> 0 < 2 ^ k) by (intros; apply Z.pow_pos_nonneg; lia).
  assert (HMpos : 0 < M).
  { specialize (Hpow (ex - e)). nia. }
  destruct (Zdigits2_bounds M HMpos) as [HdM [HMlo HMhi]].
  pose proof (digits2_pos_bounds mx) as [Hmxlo Hmxhi].
  set (dmx := Z.pos (digits2_pos mx)) in *.
  set (dM := Zdigits2 M) in *.
  (* A: the sum has at least the magnitude of [x] *)
  assert (HA : dmx + ex <= dM + e).
  { assert (2 ^ (dmx - 1 + (ex - e)) <= M).
    { rewrite Z.pow_add_r by lia. specialize (Hpow (ex - e)). nia. }
    assert (dmx - 1 + (ex - e) < dM) by (apply (pow2_le_lt_exp _ _ M); lia). lia. }
  rewrite fexp_eq in Hcan.
  unfold binary_round_aux.
  pose proof (shr_fexp_spec M e l ltac:(lia)) as [Hm1 He1].
  destruct (shr_fexp prec emax M e l) as [mrs' e'] eqn:H1. simpl in Hm1, He1.
  fold dM in Hm1, He1. rewrite fexp_eq in Hm1, He1.
  set (t := Z.max (dM + e - 53) (-1074)) in *.
  assert (Ht : ex <= t) by lia.
  rewrite Z.max_r in Hm1, He1 by lia.
  (* C: the truncated mantissa *)
  assert (HC1 : 1 <= shr_m mrs').
  { rewrite Hm1. apply Z.div_le_lower_bound; [apply Hpow; lia|].
    destruct (Z.eq_dec t ex) as [->|Hne].
    - specialize (Hpow (ex - e)). nia.
    - assert (2 ^ (t - e) <= 2 ^ (dM - 1)) by (apply Z.pow_le_mono_r; lia). lia. }
  assert (HC2 : t = ex -> Z.pos mx <= shr_m mrs').
  { intros ->. rewrite Hm1. apply Z.div_le_lower_bound; [apply Hpow; lia|]. lia. }
  pose proof (round_nearest_even_ge (shr_m mrs') (loc_of_shr_record mrs')) as HD.
  set (m1 := round_nearest_even (shr_m mrs') (loc_of_shr_record mrs')) in *.
  pose proof (shr_fexp_spec m1 e' loc_Exact ltac:(lia)) as [Hm2 He2].
  destruct (shr_fexp prec emax m1 e' loc_Exact) as [mrs'' e''] eqn:H2. simpl in Hm2, He2.
  destruct (Zdigits2_bounds m1 ltac:(lia)) as [Hd1 [Hm1lo Hm1hi]].
  set (d1 := Zdigits2 m1) in *. rewrite fexp_eq in Hm2, He2.
  assert (HE : 1 <= shr_m mrs'' /\ ex <= e'' /\ (e'' = ex -> Z.pos mx <= shr_m mrs'')).
  { destruct (Z.max_spec 0 (Z.max (d1 + e' - 53) (-1074) - e')) as [[Hlt Hn]|[Hge Hn]];
      rewrite Hn in Hm2, He2.
    - assert (Hn2 : Z.max (d1 + e' - 53) (-1074) - e' = d1 - 53) by lia.
      rewrite Hn2 in Hm2, He2.
      split; [|lia].
      rewrite Hm2. apply Z.div_le_lower_bound; [apply Hpow; lia|].
      assert (2 ^ (d1 - 53) <= 2 ^ (d1 - 1)) by (apply Z.pow_le_mono_r; lia). lia.
    - rewrite Z.pow_0_r, Z.div_1_r in Hm2. rewrite Hm2. repeat split; try lia. }
  destruct HE as (HE1 & HE2 & HE3).
  destruct (shr_m mrs'') as [|m''|m'']; try lia.
  destruct (e'' <=? emax - prec); [|reflexivity].
  apply SFleb_finite_pos. destruct (Z.eq_dec e'' ex) as [->|]; [right|left; lia].
  split; [reflexivity|]. specialize (HE3 eq_refl). lia.
Qed.



Lemma shl_align_fst (mx : positive) (ex ez : Z) :
  ez <= ex -> Z.pos (fst (shl_align mx ex ez)) = Z.pos mx * 2 ^ (ex - ez).
Proof.
  intros Hle. unfold shl_align. destruct (ez - ex) as [|d|d] eqn:Hd; simpl fst.
  - replace (ex - ez) with 0 by lia. rewrite Z.pow_0_r. lia.
  - lia.
  - change (Pos.iter xO mx d) with (shift_pos d mx). rewrite shift_pos_correct.
    replace (ex - ez) with (Z.pos d) by lia. rewrite Z.mul_comm. reflexivity.
Qed.

Lemma SFleb_refl (x : spec_float) : x <> S754_nan -> SFleb x x = true.
Proof.
  unfold SFleb, SFcompare. destruct x as [[]|[]| |[] m e]; intros H; try reflexivity;
    try congruence; sf_compare_cases; try reflexivity; lia.
Qed.

Lemma SFleb_trans (x y z : spec_float) :
  SFleb x y = true -> SFleb y z = true -> SFleb x z = true.
Proof.
  unfold SFleb, SFcompare.
  destruct x as [[]|[]| |[] mx ex], y as [[]|[]| |[] my ey], z as [[]|[]| |[] mz ez];
    intros H1 H2; try reflexivity; try discriminate;
    sf_compare_cases; try reflexivity; try discriminate; lia.
Qed.

Lemma SFleb_zero_nonnan (x : spec_float) : SFleb (S754_zero false) x = true -> x <> S754_nan.
Proof. intros H ->. discriminate. Qed.

(** Adding a nonnegative value to a nonnegative binary64 value never yields
    less (rounding to nearest keeps the order, and the sum may be [+Inf]). *)
Lemma SFadd_nonneg_ge (x y : spec_float) :
  SpecFloat.valid_binary prec emax x = true ->
  SFleb (S754_zero false) x = true ->
  SFleb (S754_zero false) y = true ->
  SFleb x (SFadd prec emax x y) = true.
Proof.
  intros Hv Hx Hy.
  destruct x as [sx|[]| |[] mx ex]; try discriminate;
    destruct y as [sy|[]| |[] my ey]; try discriminate; try reflexivity.
  - destruct sx, sy; reflexivity.
  - simpl. apply SFleb_refl. discriminate.
  - unfold SFadd. simpl SpecFloat.valid_binary in Hv. unfold bounded, canonical_mantissa in Hv.
    apply andb_prop in Hv as [Hcan _]. apply Z.eqb_eq in Hcan.
    unfold cond_Zopp.
    rewrite !shl_align_fst by lia.
    set (ez := Z.min ex ey).
    assert (Hpow : forall k, 0 <= k -> 0 < 2 ^ k) by (intros; apply Z.pow_pos_nonneg; lia).
    pose proof (Hpow (ex - ez) ltac:(lia)). pose proof (Hpow (ey - ez) ltac:(lia)).
    destruct (Z.pos mx * 2 ^ (ex - ez) + Z.pos my * 2 ^ (ey - ez)) as [|M|M] eqn:HM; try nia.
    unfold binary_normalize, binary_round.
    destruct (Zdigits2_bounds (Z.pos M) ltac:(lia)) as [HdM [HMlo HMhi]].
    simpl Zdigits2 in *.
    assert (HA : Z.pos (digits2_pos mx) + ex <= Z.pos (digits2_pos M) + ez).
    { pose proof (digits2_pos_bounds mx) as [Hmxlo _].
      assert (2 ^ (Z.pos (digits2_pos mx) - 1 + (ex - ez)) <= Z.pos M).
      { rewrite Z.pow_add_r by lia. nia. }
      assert (Z.pos (digits2_pos mx) - 1 + (ex - ez) < Z.pos (digits2_pos M))
        by (apply (pow2_le_lt_exp _ _ (Z.pos M)); lia). lia. }
    rewrite fexp_eq in Hcan.
    unfold shl_align. rewrite fexp_eq.
    destruct (Z.max (Z.pos (digits2_pos M) + ez - 53) (-1074) - ez) as [|d|d] eqn:Hd; try lia.
    + apply binary_round_aux_ge; [rewrite fexp_eq; exact Hcan | lia | nia].
    + apply binary_round_aux_ge; [rewrite fexp_eq; exact Hcan | lia | nia].
Qed.

End Binary64.

(** *** The same facts on [float] *)

Section Float64Facts.
Import Float64.

Lemma Prim2SF_zero : Prim2SF 0%float = S754_zero false.
Proof. reflexivity. Qed.

Lemma SFcompare_refl (x : spec_float) : x <> S754_nan -> SFcompare x x = Some Eq.
Proof.
  unfold SFcompare. destruct x as [[]|[]| |[] m e]; intros H; try reflexivity; try congruence;
    rewrite Z.compare_refl; change (Pos.compare_cont Eq m m) with (Pos.compare m m);
    rewrite Pos.compare_refl; reflexivity.
Qed.

Lemma IsNaN_Prim2SF (x : float) : IsNaN x = true <-> Prim2SF x = S754_nan.
Proof.
  unfold IsNaN. rewrite FloatAxioms.eqb_spec. unfold SFeqb. split.
  - intros H. destruct (Prim2SF x) eqn:Hx; try reflexivity;
      rewrite SFcompare_refl in H by discriminate; discriminate.
  - intros ->. reflexivity.
Qed.

Lemma IsNaN_false_Prim2SF (x : float) : IsNaN x = false <-> Prim2SF x <> S754_nan.
Proof.
  rewrite <- IsNaN_Prim2SF. destruct (IsNaN x); split; congruence.
Qed.

Lemma float_leb_refl (x : float) : IsNaN x = false -> (x <=? x)%float = true.
Proof. intros H. rewrite FloatAxioms.leb_spec. apply SFleb_refl, IsNaN_false_Prim2SF, H. Qed.

Lemma float_leb_trans (x y z : float) :
  (x <=? y)%float = true -> (y <=? z)%float = true -> (x <=? z)%float = true.
Proof. rewrite !FloatAxioms.leb_spec. apply SFleb_trans. Qed.

Lemma float_leb_nonnan_l (x y : float) : (x <=? y)%float = true -> IsNaN x = false.
Proof.
  rewrite FloatAxioms.leb_spec. intros H. apply IsNaN_false_Prim2SF. intros Hx. rewrite Hx in H. discriminate.
Qed.

Lemma float_leb_nonnan_r (x y : float) : (x <=? y)%float = true -> IsNaN y = false.
Proof.
  rewrite FloatAxioms.leb_spec. intros H. apply IsNaN_false_Prim2SF. intros Hy. rewrite Hy in H.
  destruct (Prim2SF x); discriminate.
Qed.

Lemma float_add_nonneg_ge (s v : float) :
  (0 <=? s)%float = true -> (0 <=? v)%float = true -> (s <=? s + v)%float = true.
Proof.
  rewrite !FloatAxioms.leb_spec, FloatAxioms.add_spec, Prim2SF_zero. apply SFadd_nonneg_ge, Prim2SF_valid.
Qed.

(** NaN operands make the difference and the quotient NaN. *)
Lemma float_sub_nan (x y : float) :
  IsNaN x = true \/ IsNaN y = true -> IsNaN (x - y)%float = true.
Proof.
  rewrite !IsNaN_Prim2SF, FloatAxioms.sub_spec. unfold SF64sub.
  intros [->| ->]; [reflexivity|]. destruct (Prim2SF x); reflexivity.
Qed.

Lemma float_div_nan_l (x y : float) : IsNaN x = true -> IsNaN (x / y)%float = true.
Proof. rewrite !IsNaN_Prim2SF, FloatAxioms.div_spec. unfold SF64div. intros ->. reflexivity. Qed.

Lemma float_ltb_nan_l (x y : float) : IsNaN x = true -> (x <? y)%float = false.
Proof. rewrite IsNaN_Prim2SF, FloatAxioms.ltb_spec. intros ->. reflexivity. Qed.

End Float64Facts.

(** ** Package [transform] *)

Section TransformFacts.
Import Api Function Transform Float64.

Lemma length_make_floats (n : nat) : length (make_floats n) = n.
Proof. apply length_replicate. Qed.

Lemma Derivative_eq (values : list float) (parameters : list Value) (scale : float) :
  Derivative values parameters scale =
  Ok (derivative_at values scale <$> seq 0 (length values)).
Proof.
  unfold Derivative. f_equal.
  rewrite <- (length_make_floats (length values)) at 1.
  rewrite (for_range_pointwise_full (derivative_at values scale)).
  - rewrite length_make_floats. reflexivity.
  - intros i r _. unfold Derivative_body, derivative_at. destruct (Nat.eqb i 0); reflexivity.
Qed.

Lemma Rate_eq (values : list float) (parameters : list Value) (scale : float) :
  Rate values parameters scale = Ok (rate_at values scale <$> seq 0 (length values)).
Proof.
  unfold Rate. f_equal.
  rewrite <- (length_make_floats (length values)) at 1.
  rewrite (for_range_pointwise_full (rate_at values scale)).
  - rewrite length_make_floats. reflexivity.
  - intros i r Hi. unfold Rate_body, rate_at, derivative_at.
    destruct (Nat.eqb i 0) eqn:Hi0.
    + reflexivity.
    + cbv zeta. rewrite list_lookup_total_insert_eq by assumption.
      destruct (_ <? 0)%float; [|reflexivity].
      rewrite list_insert_insert_eq. reflexivity.
Qed.

Lemma derivative_at_S (values : list float) (scale : float) (i : nat) (x y : float) :
  values !! i = Some x -> values !! S i = Some y ->
  derivative_at values scale (S i) = ((y - x) / scale)%float.
Proof.
  intros Hx Hy. unfold derivative_at. simpl Nat.eqb. cbv iota.
  replace (S i - 1)%nat with i by lia.
  rewrite (list_lookup_total_correct _ _ _ Hx), (list_lookup_total_correct _ _ _ Hy).
  reflexivity.
Qed.

(** C7. [Derivative] returns 0 at index 0 and [(v[i] - v[i-1]) / scale] at
    every later index, which is NaN as soon as one of the two values is; and
    [Rate] holds the same values, except that a negative one is replaced by 0
    (a NaN is not negative, and stays). *)
Theorem Derivative_Rate_spec (values : list float) (parameters : list Value) (scale : float) :
  exists d r,
    Derivative values parameters scale = Ok d /\
    Rate values parameters scale = Ok r /\
    length d = length values /\ length r = length values /\
    (forall x, values !! 0%nat = Some x -> d !! 0%nat = Some 0%float) /\
    (forall i x y, values !! i = Some x -> values !! S i = Some y ->
       d !! S i = Some ((y - x) / scale)%float /\
       (IsNaN x = true \/ IsNaN y = true -> IsNaN ((y - x) / scale)%float = true)) /\
    (forall i v, d !! i = Some v ->
       r !! i = Some (if (v <? 0)%float then 0%float else v) /\
       (IsNaN v = true -> r !! i = Some v)).
Proof.
  exists (derivative_at values scale <$> seq 0 (length values)),
         (rate_at values scale <$> seq 0 (length values)).
  split; [apply Derivative_eq|]. split; [apply Rate_eq|].
  split; [rewrite length_fmap, length_seq; reflexivity|].
  split; [rewrite length_fmap, length_seq; reflexivity|].
  split; [|split].
  - intros x Hx. apply lookup_lt_Some in Hx. rewrite lookup_fmap_seq by assumption. reflexivity.
  - intros i x y Hx Hy. split.
    + pose proof (lookup_lt_Some _ _ _ Hy). rewrite lookup_fmap_seq by assumption.
      f_equal. apply derivative_at_S; assumption.
    + intros Hnan. apply float_div_nan_l, float_sub_nan. tauto.
  - intros i v Hv.
    assert (Hi : (i < length values)%nat).
    { apply lookup_lt_Some in Hv. rewrite length_fmap, length_seq in Hv. exact Hv. }
    rewrite lookup_fmap_seq in Hv by assumption. injection Hv as <-.
    rewrite lookup_fmap_seq by assumption. unfold rate_at. split; [reflexivity|].
    intros Hnan. rewrite float_ltb_nan_l by assumption. reflexivity.
Qed.

(** A vector with a NaN and a decrease, [[0,1,nan,3,2,5]], at a resolution of
    30 s. *)
Example Derivative_Rate_test :
  Derivative [0; 1; nan; 3; 2; 5]%float [] 30%float
    = Ok [0; 1 / 30; nan; nan; -1 / 30; 3 / 30]%float /\
  Rate [0; 1; nan; 3; 2; 5]%float [] 30%float
    = Ok [0; 1 / 30; nan; nan; 0; 3 / 30]%float.
Proof. split; vm_compute; reflexivity. Qed.

(** *** [Cumulative] *)

Lemma running_sums_snoc (l : list float) : forall (s x : float),
  running_sums s (l ++ [x]) = running_sums s l ++ [cumulative_step (foldl cumulative_step s l) x].
Proof.
  induction l as [|y l IH]; intros s x; simpl; [reflexivity|]. rewrite IH. reflexivity.
Qed.

Lemma length_running_sums (l : list float) : forall s, length (running_sums s l) = length l.
Proof. induction l as [|y l IH]; intros s; simpl; [reflexivity|]. rewrite IH. reflexivity. Qed.

(** The state of [Cumulative]'s loop after [k] turns. *)
Lemma Cumulative_loop (values : list float) (k : nat) :
  (k <= length values)%nat ->
  for_range k (Cumulative_body values) (0%float, make_floats (length values)) =
  (foldl cumulative_step 0%float (take k values),
   running_sums 0%float (take k values) ++ replicate (length values - k) 0%float).
Proof.
  induction k as [|k IH]; intros Hk.
  - unfold for_range. simpl. rewrite Nat.sub_0_r. reflexivity.
  - rewrite for_range_S, IH by lia. unfold Cumulative_body at 1.
    destruct (lookup_lt_is_Some_2 values k ltac:(lia)) as [x Hx].
    rewrite (take_S_r _ _ _ Hx), foldl_app, running_sums_snoc. simpl foldl.
    rewrite (list_lookup_total_correct _ _ _ Hx).
    fold (cumulative_step (foldl cumulative_step 0%float (take k values)) x).
    f_equal.
    replace (length values - k)%nat with (S (length values - S k)) by lia.
    simpl replicate.
    replace k with (length (running_sums 0%float (take k values)) + 0)%nat at 1
      by (rewrite length_running_sums, length_take; lia).
    rewrite insert_app_r. simpl. rewrite <- app_assoc. reflexivity.
Qed.

Lemma Cumulative_eq (values : list float) (parameters : list Value) (scale : float) :
  Cumulative values parameters scale = Ok (running_sums 0%float values).
Proof.
  unfold Cumulative. rewrite Cumulative_loop by lia. simpl snd.
  rewrite firstn_all, Nat.sub_diag. simpl. rewrite app_nil_r. reflexivity.
Qed.

Lemma nondecreasing_nil : nondecreasing [].
Proof. intros i j x y _ Hx. rewrite lookup_nil in Hx. discriminate. Qed.

Lemma nondecreasing_cons (x : float) (l : list float) :
  (forall y, y ∈ l -> (x <=? y)%float = true) -> nondecreasing l -> nondecreasing (x :: l).
Proof.
  intros Hx Hl i j a b Hij Ha Hb. destruct j as [|j]; [lia|]. simpl in Hb.
  destruct i as [|i]; simpl in Ha.
  - injection Ha as <-. apply Hx. apply list_elem_of_lookup. eauto.
  - apply (Hl i j); [lia|assumption..].
Qed.

(** From a nonnegative running sum, nonnegative or NaN inputs only produce
    running sums that are at least as large, in order. *)
Lemma running_sums_nondecreasing (l : list float) : forall s,
  (0 <=? s)%float = true ->
  Forall (fun x => IsNaN x = true \/ (0 <=? x)%float = true) l ->
  (forall y, y ∈ running_sums s l -> (s <=? y)%float = true) /\
  nondecreasing (running_sums s l).
Proof.
  induction l as [|x l IH]; intros s Hs Hl; simpl.
  - split; [|apply nondecreasing_nil]. intros y Hy. apply elem_of_nil in Hy. destruct Hy.
  - apply Forall_cons in Hl as [Hx Hl].
    assert (Hstep : (s <=? cumulative_step s x)%float = true).
    { unfold cumulative_step. destruct (IsNaN x) eqn:Hnan; simpl.
      - apply float_leb_refl. apply (float_leb_nonnan_r _ _ Hs).
      - destruct Hx as [Hx|Hx]; [congruence|]. apply float_add_nonneg_ge; assumption. }
    destruct (IH (cumulative_step s x)) as [IH1 IH2];
      [apply (float_leb_trans _ _ _ Hs Hstep) | assumption |].
    split.
    + intros y Hy. apply elem_of_cons in Hy as [->|Hy]; [assumption|].
      apply (float_leb_trans _ _ _ Hstep). apply IH1, Hy.
    + apply nondecreasing_cons; assumption.
Qed.

(** C3, as amended.  If every input value is at least 0, or NaN, the output
    of [Cumulative] is monotonically nondecreasing. *)
Theorem Cumulative_nondecreasing (values : list float) (parameters : list Value) (scale : float) :
  Forall (fun x => IsNaN x = true \/ (0 <=? x)%float = true) values ->
  exists out, Cumulative values parameters scale = Ok out /\
              length out = length values /\ nondecreasing out.
Proof.
  intros Hv. exists (running_sums 0%float values).
  split; [apply Cumulative_eq|]. split; [apply length_running_sums|].
  apply running_sums_nondecreasing; [reflexivity|assumption].
Qed.

(** The vector [[0,1,nan,3,4,5]] of the tests has no negative value. *)
Lemma Cumulative_nondecreasing_witness :
  Forall (fun x => IsNaN x = true \/ (0 <=? x)%float = true) [0; 1; nan; 3; 4; 5]%float /\
  exists out, Cumulative [0; 1; nan; 3; 4; 5]%float [] 30%float = Ok out /\
              length out = 6%nat /\ nondecreasing out.
Proof.
  assert (H : Forall (fun x => IsNaN x = true \/ (0 <=? x)%float = true) [0; 1; nan; 3; 4; 5]%float).
  { repeat (apply Forall_cons; split; [vm_compute; auto|]). apply Forall_nil. exact I. }
  split; [exact H|]. exact (Cumulative_nondecreasing _ [] 30%float H).
Defined.

(** C3, as stated, fails: the one-slot vector [[-1]] is turned into [[-1]],
    which is nondecreasing, although its value is negative. *)
Lemma Cumulative_iff_nonneg_fails :
  ~ (forall values out, Cumulative values [] 30%float = Ok out ->
       (nondecreasing out <-> Forall (fun x => (0 <=? x)%float = true) values)).
Proof.
  intros H. specialize (H [(-1)%float] [(-1)%float] eq_refl) as [H _].
  assert (Hnd : nondecreasing [(-1)%float]).
  { intros i j x y Hij Hx Hy. destruct j as [|j]; [lia|]. simpl in Hy.
    rewrite lookup_nil in Hy. discriminate. }
  apply H in Hnd. apply Forall_cons in Hnd as [Hneg _]. vm_compute in Hneg. discriminate.
Qed.

(** The scenario of the specification for [Integral]: [[0,1,2,3,4,5]] at a
    resolution of 30 s. *)
Example Integral_test :
  Integral [0; 1; 2; 3; 4; 5]%float [] 30%float = Ok [0; 30; 90; 180; 300; 450]%float /\
  Integral [0; 1; nan; 3; 4; 5]%float [] 30%float = Ok [0; 30; 30; 120; 240; 390]%float.
Proof. split; vm_compute; reflexivity. Qed.

(** The tests' vectors for [Cumulative]. *)
Example Cumulative_test :
  Cumulative [0; 1; nan; 3; 4; 5]%float [] 30%float = Ok [0; 1; 1; 4; 8; 13]%float /\
  Cumulative [-1]%float [] 30%float = Ok [-1]%float /\
  Cumulative [1e20; -1]%float [] 30%float = Ok [1e20; 1e20]%float.
Proof. repeat split; vm_compute; reflexivity. Qed.

(** *** [transformTimeseries] and [ApplyTransform] *)

Lemma ApplyTransform_step_Err (sl : SeriesList) (t : transform) (parameters : list Value)
    (l : list Timeseries) : forall i e,
  for_each_from i l (ApplyTransform_step sl t parameters) (Err e) = Err e.
Proof. induction l as [|s l IH]; intros i e; simpl; [reflexivity|apply IH]. Qed.

(** The loop of [ApplyTransform], started at slot [i] on the series [l]: when
    it ends without an error, it has written the transformed series to the
    slots [i, i + len(l)) and no other. *)
Lemma ApplyTransform_loop (sl : SeriesList) (t : transform) (parameters : list Value)
    (l : list Timeseries) : forall i r out,
  for_each_from i l (ApplyTransform_step sl t parameters) (Ok r) = Ok out ->
  (i + length l <= length r)%nat ->
  length out = length r /\
  (forall j, (j < i)%nat -> out !! j = r !! j) /\
  (forall j s, l !! j = Some s ->
     exists s', transformTimeseries s t parameters (transform_scale sl) = Ok s' /\
                out !! (i + j)%nat = Some s').
Proof.
  induction l as [|s l IH]; intros i r out Hrun Hlen; cbn [for_each_from] in Hrun.
  - injection Hrun as <-. split; [reflexivity|]. split; [reflexivity|].
    intros j s' Hj. rewrite lookup_nil in Hj. discriminate.
  - simpl in Hlen.
    set (st := ApplyTransform_step sl t parameters i s (Ok r)) in Hrun.
    assert (Hst : st = match transformTimeseries s t parameters (transform_scale sl) with
                       | Err e => Err e
                       | Ok s1 => Ok (<[i := s1]> r)
                       end) by reflexivity.
    rewrite Hst in Hrun. clear st Hst.
    destruct (transformTimeseries s t parameters (transform_scale sl)) as [s1|e] eqn:Hs.
    2:{ rewrite ApplyTransform_step_Err in Hrun. discriminate. }
    apply IH in Hrun as (Hl & Hbefore & Hat); [|rewrite length_insert; lia].
    rewrite length_insert in Hl. split; [exact Hl|]. split.
    + intros j Hj. rewrite Hbefore by lia. apply list_lookup_insert_ne. lia.
    + intros [|j] s' Hj; simpl in Hj.
      * injection Hj as <-. exists s1. split; [exact Hs|].
        rewrite Nat.add_0_r, Hbefore by lia. apply list_lookup_insert_eq. lia.
      * destruct (Hat j s' Hj) as (s2 & Hs2 & Hout). exists s2. split; [exact Hs2|].
        rewrite <- Hout. f_equal. lia.
Qed.

(** C9. A successful transform leaves all but the values as they were:
    [transformTimeseries] returns the transformed values under the input
    series' tag set, and [ApplyTransform] returns the input list's timerange
    and name and, slot by slot and in order, what [transformTimeseries] returns
    for the input series. *)
Theorem transform_frame :
  (forall (series : Timeseries) (t : transform) (parameters : list Value) (scale : float)
          (out : Timeseries),
     transformTimeseries series t parameters scale = Ok out ->
     ts_TagSet out = ts_TagSet series /\
     t (ts_Values series) parameters scale = Ok (ts_Values out)) /\
  (forall (sl : SeriesList) (t : transform) (parameters : list Value) (out : SeriesList),
     ApplyTransform sl t parameters = Ok out ->
     sl_Timerange out = sl_Timerange sl /\
     sl_Name out = sl_Name sl /\
     length (sl_Series out) = length (sl_Series sl) /\
     (forall i s, sl_Series sl !! i = Some s ->
        exists s',
          sl_Series out !! i = Some s' /\
          transformTimeseries s t parameters (transform_scale sl) = Ok s' /\
          ts_TagSet s' = ts_TagSet s)).
Proof.
  assert (Hone : forall series t parameters scale out,
            transformTimeseries series t parameters scale = Ok out ->
            ts_TagSet out = ts_TagSet series /\
            t (ts_Values series) parameters scale = Ok (ts_Values out)).
  { intros series t parameters scale out. unfold transformTimeseries.
    destruct (t _ _ _) as [values|e]; [|discriminate].
    intros H. injection H as <-. split; reflexivity. }
  split; [exact Hone|].
  intros sl t parameters out. unfold ApplyTransform, for_each. intros H.
  destruct (for_each_from 0 _ _ _) as [series|e] eqn:Hrun; [|discriminate].
  injection H as <-. simpl.
  apply ApplyTransform_loop in Hrun as (Hlen & _ & Hat); [|rewrite length_replicate; lia].
  rewrite length_replicate in Hlen. repeat split; [exact Hlen|].
  intros i s Hs. destruct (Hat i s Hs) as (s' & Hs' & Hout). simpl in Hout.
  exists s'. split; [exact Hout|]. split; [exact Hs'|]. apply (Hone _ _ _ _ _ Hs').
Qed.

(** The tests' list under [Derivative]. *)
Lemma transform_frame_witness :
  ApplyTransform transform_test_list Derivative [] = Ok transform_test_derivative /\
  sl_Name transform_test_derivative = "test"%string /\
  length (sl_Series transform_test_derivative) = 3%nat.
Proof.
  assert (H : ApplyTransform transform_test_list Derivative [] = Ok transform_test_derivative)
    by (vm_compute; reflexivity).
  split; [exact H|].
  destruct (proj2 transform_frame _ _ _ _ H) as (_ & Hname & Hlen & _).
  split; [exact Hname | exact Hlen].
Defined.

End TransformFacts.

(** ** Package [aggregate]: the reducers *)

Section MinMaxFacts.
Import Float64.

Lemma SFltb_leb (x y : spec_float) : SFltb x y = true -> SFleb x y = true.
Proof. unfold SFltb, SFleb. destruct (SFcompare x y) as [[]|]; congruence. Qed.

Lemma SFeqb_leb (x y : spec_float) :
  SFeqb x y = true -> SFleb x y = true /\ SFleb y x = true.
Proof.
  unfold SFeqb, SFleb, SFcompare.
  destruct x as [[]|[]| |[] mx ex], y as [[]|[]| |[] my ey]; intros H;
    try discriminate; try (split; reflexivity);
    sf_compare_cases; try discriminate; try (split; reflexivity); try lia.
Qed.

(** The order is total on values that are not NaN. *)
Lemma SFltb_false_leb (x y : spec_float) :
  x <> S754_nan -> y <> S754_nan -> SFltb x y = false -> SFleb y x = true.
Proof.
  unfold SFltb, SFleb, SFcompare.
  destruct x as [[]|[]| |[] mx ex], y as [[]|[]| |[] my ey]; intros Hx Hy H;
    try discriminate; try reflexivity; try congruence;
    sf_compare_cases; try discriminate; try reflexivity; try lia.
Qed.

Lemma SFleb_neg_infinity (x : spec_float) :
  x <> S754_nan -> SFleb (S754_infinity true) x = true.
Proof. destruct x as [[]|[]| |[] m e]; intros H; try reflexivity; congruence. Qed.

Lemma SFleb_infinity (x : spec_float) :
  x <> S754_nan -> SFleb x (S754_infinity false) = true.
Proof. destruct x as [[]|[]| |[] m e]; intros H; try reflexivity; congruence. Qed.

Lemma float_eqb_neg_infinity (x : float) : (x =? neg_infinity)%float = true -> x = neg_infinity.
Proof.
  rewrite FloatAxioms.eqb_spec. intros H.
  assert (Hx : Prim2SF x = S754_infinity true).
  { change (Prim2SF neg_infinity) with (S754_infinity true) in H.
    destruct (Prim2SF x) as [[]|[]| |[] m e]; try discriminate. reflexivity. }
  rewrite <- (SF2Prim_Prim2SF x), Hx. reflexivity.
Qed.

Lemma float_eqb_infinity (x : float) : (x =? infinity)%float = true -> x = infinity.
Proof.
  rewrite FloatAxioms.eqb_spec. intros H.
  assert (Hx : Prim2SF x = S754_infinity false).
  { change (Prim2SF infinity) with (S754_infinity false) in H.
    destruct (Prim2SF x) as [[]|[]| |[] m e]; try discriminate. reflexivity. }
  rewrite <- (SF2Prim_Prim2SF x), Hx. reflexivity.
Qed.

Lemma IsInf_neg (x : float) : IsInf x (-1) = (x =? neg_infinity)%float.
Proof. unfold IsInf. simpl. reflexivity. Qed.

Lemma IsInf_pos (x : float) : IsInf x 1 = (x =? infinity)%float.
Proof. unfold IsInf. simpl. rewrite orb_false_r. reflexivity. Qed.

(** [math.Min] of two values that are not NaN is one of them, and at most
    each of them. *)
Lemma Min_spec (x y : float) :
  IsNaN x = false -> IsNaN y = false ->
  (Min x y = x \/ Min x y = y) /\
  (Min x y <=? x)%float = true /\ (Min x y <=? y)%float = true.
Proof.
  intros Hx Hy. unfold Min. rewrite !IsInf_neg, Hx, Hy. simpl orb at 2.
  pose proof (proj1 (IsNaN_false_Prim2SF x) Hx) as Hx'.
  pose proof (proj1 (IsNaN_false_Prim2SF y) Hy) as Hy'.
  destruct (x =? neg_infinity)%float eqn:Hxi.
  { apply float_eqb_neg_infinity in Hxi. subst x. simpl. split; [auto|].
    rewrite ?FloatAxioms.leb_spec.
    split; first [reflexivity | apply SFleb_neg_infinity; assumption]. }
  destruct (y =? neg_infinity)%float eqn:Hyi.
  { apply float_eqb_neg_infinity in Hyi. subst y. simpl. split; [auto|].
    rewrite ?FloatAxioms.leb_spec.
    split; first [reflexivity | apply SFleb_neg_infinity; assumption]. }
  simpl. cbv iota.
  destruct ((x =? 0)%float && (x =? y)%float) eqn:Hz.
  { apply andb_prop in Hz as [_ Hxy]. rewrite FloatAxioms.eqb_spec in Hxy.
    apply SFeqb_leb in Hxy as [Hxy Hyx].
    destruct (Signbit x); (split; [auto|]); rewrite !FloatAxioms.leb_spec;
      split; try assumption; apply SFleb_refl; assumption. }
  destruct (x <? y)%float eqn:Hlt; (split; [auto|]); rewrite !FloatAxioms.leb_spec;
    rewrite FloatAxioms.ltb_spec in Hlt.
  - split; [apply SFleb_refl; assumption | apply SFltb_leb; assumption].
  - split; [apply SFltb_false_leb; assumption | apply SFleb_refl; assumption].
Qed.

Lemma Max_spec (x y : float) :
  IsNaN x = false -> IsNaN y = false ->
  (Max x y = x \/ Max x y = y) /\
  (x <=? Max x y)%float = true /\ (y <=? Max x y)%float = true.
Proof.
  intros Hx Hy. unfold Max. rewrite !IsInf_pos, Hx, Hy. simpl orb at 2.
  pose proof (proj1 (IsNaN_false_Prim2SF x) Hx) as Hx'.
  pose proof (proj1 (IsNaN_false_Prim2SF y) Hy) as Hy'.
  destruct (x =? infinity)%float eqn:Hxi.
  { apply float_eqb_infinity in Hxi. subst x. simpl. split; [auto|].
    rewrite ?FloatAxioms.leb_spec.
    split; first [reflexivity | apply SFleb_infinity; assumption]. }
  destruct (y =? infinity)%float eqn:Hyi.
  { apply float_eqb_infinity in Hyi. subst y. simpl. split; [auto|].
    rewrite ?FloatAxioms.leb_spec.
    split; first [reflexivity | apply SFleb_infinity; assumption]. }
  simpl. cbv iota.
  destruct ((x =? 0)%float && (x =? y)%float) eqn:Hz.
  { apply andb_prop in Hz as [_ Hxy]. rewrite FloatAxioms.eqb_spec in Hxy.
    apply SFeqb_leb in Hxy as [Hxy Hyx].
    destruct (Signbit x); (split; [auto|]); rewrite !FloatAxioms.leb_spec;
      split; try assumption; apply SFleb_refl; assumption. }
  destruct (y <? x)%float eqn:Hlt; (split; [auto|]); rewrite !FloatAxioms.leb_spec;
    rewrite FloatAxioms.ltb_spec in Hlt.
  - split; [apply SFleb_refl; assumption | apply SFltb_leb; assumption].
  - split; [apply SFltb_false_leb; assumption | apply SFleb_refl; assumption].
Qed.

End MinMaxFacts.

Section ReducerFacts.
Import Float64 Aggregate.

Lemma filterNaN_loop (l : list float) : forall acc,
  foldl (fun result v => if negb (IsNaN v) then result ++ [v] else result) acc l
  = acc ++ non_nan l.
Proof.
  unfold non_nan. induction l as [|x l IH]; intros acc; simpl.
  - rewrite app_nil_r. reflexivity.
  - rewrite IH, filter_cons. case_decide as Hd; rewrite ?Hd; simpl.
    + rewrite <- app_assoc. reflexivity.
    + destruct (IsNaN x); [reflexivity|congruence].
Qed.

Lemma filterNaN_eq (array : list float) : filterNaN array = non_nan array.
Proof. unfold filterNaN. rewrite filterNaN_loop. reflexivity. Qed.

Lemma non_nan_Forall (array : list float) : Forall (fun v => IsNaN v = false) (non_nan array).
Proof. unfold non_nan. apply Forall_forall. intros v Hv. apply list_elem_of_filter in Hv. tauto. Qed.

Lemma non_nan_all_nan (array : list float) :
  Forall (fun v => IsNaN v = true) array -> non_nan array = [].
Proof.
  unfold non_nan. induction 1 as [|x l Hx Hl IH]; [reflexivity|].
  rewrite filter_cons, decide_False by congruence. exact IH.
Qed.

Lemma foldl_Min_spec (l : list float) : forall acc,
  IsNaN acc = false -> Forall (fun v => IsNaN v = false) l ->
  (foldl Float64.Min acc l = acc \/ foldl Float64.Min acc l ∈ l) /\
  (foldl Float64.Min acc l <=? acc)%float = true /\
  (forall y, y ∈ l -> (foldl Float64.Min acc l <=? y)%float = true).
Proof.
  induction l as [|x l IH]; intros acc Hacc Hl; simpl.
  - split; [auto|]. split; [apply float_leb_refl, Hacc|]. intros y Hy. apply elem_of_nil in Hy. tauto.
  - apply Forall_cons in Hl as [Hx Hl].
    destruct (Min_spec acc x Hacc Hx) as (Hmem & Hle1 & Hle2).
    destruct (IH (Float64.Min acc x) (float_leb_nonnan_l _ _ Hle1) Hl) as (IHmem & IHle & IHall).
    split; [|split].
    + destruct IHmem as [->|Hin]; [|right; apply elem_of_cons; auto].
      destruct Hmem as [->| ->]; [auto|right; apply elem_of_cons; auto].
    + apply (float_leb_trans _ _ _ IHle Hle1).
    + intros y Hy. apply elem_of_cons in Hy as [->|Hy]; [|auto].
      apply (float_leb_trans _ _ _ IHle Hle2).
Qed.

Lemma foldl_Max_spec (l : list float) : forall acc,
  IsNaN acc = false -> Forall (fun v => IsNaN v = false) l ->
  (foldl Float64.Max acc l = acc \/ foldl Float64.Max acc l ∈ l) /\
  (acc <=? foldl Float64.Max acc l)%float = true /\
  (forall y, y ∈ l -> (y <=? foldl Float64.Max acc l)%float = true).
Proof.
  induction l as [|x l IH]; intros acc Hacc Hl; simpl.
  - split; [auto|]. split; [apply float_leb_refl, Hacc|]. intros y Hy. apply elem_of_nil in Hy. tauto.
  - apply Forall_cons in Hl as [Hx Hl].
    destruct (Max_spec acc x Hacc Hx) as (Hmem & Hle1 & Hle2).
    destruct (IH (Float64.Max acc x) (float_leb_nonnan_r _ _ Hle1) Hl) as (IHmem & IHle & IHall).
    split; [|split].
    + destruct IHmem as [->|Hin]; [|right; apply elem_of_cons; auto].
      destruct Hmem as [->| ->]; [auto|right; apply elem_of_cons; auto].
    + apply (float_leb_trans _ _ _ Hle1 IHle).
    + intros y Hy. apply elem_of_cons in Hy as [->|Hy]; [|auto].
      apply (float_leb_trans _ _ _ Hle2 IHle).
Qed.

(** C4, as amended.  Each reducer works on the entries that are not NaN.
    With none left, [Sum] is 0 (so an input of NaNs only sums to 0) and [Mean],
    [Min] and [Max] are NaN; otherwise [Sum] is the binary64 sum of the entries,
    accumulated from 0 and from the left with a rounding at every addition, and
    [Mean] is that sum divided in binary64 by the number of the entries; [Min]
    is an entry that is at most every entry and [Max] one that is at least
    every entry. *)
Theorem reducers_spec (xs : list float) :
  filterNaN xs = non_nan xs /\
  Sum xs = float_sum (non_nan xs) /\
  (Forall (fun v => IsNaN v = true) xs -> Sum xs = 0%float) /\
  (non_nan xs = [] ->
     Sum xs = 0%float /\ Mean xs = NaN /\ Min xs = NaN /\ Max xs = NaN) /\
  (non_nan xs <> [] ->
     Mean xs = (float_sum (non_nan xs) / of_nat (length (non_nan xs)))%float /\
     Min xs ∈ non_nan xs /\ (forall y, y ∈ non_nan xs -> (Min xs <=? y)%float = true) /\
     Max xs ∈ non_nan xs /\ (forall y, y ∈ non_nan xs -> (y <=? Max xs)%float = true)).
Proof.
  split; [apply filterNaN_eq|].
  unfold Sum, Mean, Min, Max. rewrite !filterNaN_eq. cbv zeta.
  split; [reflexivity|]. split; [|split].
  - intros Hnan. rewrite non_nan_all_nan by assumption. reflexivity.
  - intros ->. repeat split; reflexivity.
  - intros Hne. pose proof (non_nan_Forall xs) as Hall.
    destruct (non_nan xs) as [|a rest] eqn:Hrest; [congruence|].
    simpl length. simpl Nat.eqb. cbv iota.
    change ((a :: rest) !!! 0%nat) with a.
    change (foldl (fun min v => Float64.Min min v)) with (foldl Float64.Min).
    change (foldl (fun max v => Float64.Max max v)) with (foldl Float64.Max).
    apply Forall_cons in Hall as [Ha Hall'].
    pose proof (foldl_Min_spec (a :: rest) a Ha (Forall_cons_2 _ _ _ Ha Hall')) as (Hm1 & _ & Hm3).
    pose proof (foldl_Max_spec (a :: rest) a Ha (Forall_cons_2 _ _ _ Ha Hall')) as (HM1 & _ & HM3).
    split; [reflexivity|].
    split; [destruct Hm1 as [->|]; [apply elem_of_cons; auto|assumption]|].
    split; [exact Hm3|].
    split; [destruct HM1 as [->|]; [apply elem_of_cons; auto|assumption]|].
    exact HM3.
Qed.

(** C4, as stated, fails for [Sum] and [Mean]: they are not the mathematical
    sum and mean of the entries, even when these are whole numbers and the sum
    or the mean is a binary64 value.  [Sum] of [1e20, 1, -1e20] is 0 and not 1
    (the 1 is absorbed by the rounding of [1e20 + 1]), while the same entries in
    the order [1e20, -1e20, 1] sum to 1; and [Mean] of [2^1023, 2^1023] is
    [+Inf] and not [2^1023], because the sum overflows. *)
Lemma reducers_not_mathematical :
  ~ (forall xs zs, Forall2 (fun x z => exact_Z x = Some z) xs zs ->
       exact_Z (Sum xs) = Some (sum_Z zs)) /\
  ~ (forall xs zs, Forall2 (fun x z => exact_Z x = Some z) xs zs ->
       zs <> [] -> sum_Z zs mod Z.of_nat (length zs) = 0 ->
       exact_Z (Mean xs) = Some (sum_Z zs / Z.of_nat (length zs))) /\
  Sum [1e20; 1; -1e20]%float = 0%float /\
  Sum [1e20; -1e20; 1]%float = 1%float /\
  Mean [0x1p1023; 0x1p1023]%float = infinity.
Proof.
  split; [|split; [|repeat split; vm_compute; reflexivity]].
  - intros H.
    specialize (H [1e20; 1; -1e20]%float [10 ^ 20; 1; - 10 ^ 20]).
    assert (Hsum : exact_Z (Sum [1e20; 1; -1e20]%float) = Some 0) by (vm_compute; reflexivity).
    rewrite Hsum in H.
    assert (Hneq : Some 0 = Some (sum_Z [10 ^ 20; 1; - 10 ^ 20]) -> False)
      by (vm_compute; discriminate).
    apply Hneq, H. repeat constructor; vm_compute; reflexivity.
  - intros H.
    destruct (exact_Z 0x1p1023%float) as [z|] eqn:Hz; [|vm_compute in Hz; discriminate].
    specialize (H [0x1p1023; 0x1p1023]%float [z; z]).
    assert (Hmean : exact_Z (Mean [0x1p1023; 0x1p1023]%float) = None) by (vm_compute; reflexivity).
    rewrite Hmean in H. discriminate H.
    + repeat constructor; exact Hz.
    + discriminate.
    + unfold sum_Z. simpl foldr. change (Z.of_nat (length [z; z])) with 2.
      replace (z + (z + 0)) with (z * 2) by lia. apply Z.mod_mul. lia.
Qed.

(** The reducers on a column of the tests, and on NaNs only. *)
Example reducers_test :
  Sum [0; 4; -1; 0]%float = 3%float /\ Mean [0; 4; -1; 0]%float = 0.75%float /\
  Min [0; 4; -1; 0]%float = (-1)%float /\ Max [0; 4; -1; 0]%float = 4%float /\
  Sum [nan; nan]%float = 0%float /\ Mean [nan; 10; nan]%float = 10%float /\
  Min [nan; nan]%float = nan.
Proof. repeat split; vm_compute; reflexivity. Qed.

End ReducerFacts.

(** ** Package [aggregate]: grouping *)

Section FirstSeen.
Context {A : Type} `{EqDecision A}.

Lemma filter_none (P : A -> Prop) `{forall x, Decision (P x)} (l : list A) :
  Forall (fun x => ~ P x) l -> filter P l = [].
Proof.
  induction 1 as [|x l Hx Hl IH]; [reflexivity|].
  rewrite filter_cons, decide_False by assumption. exact IH.
Qed.

Lemma first_seen_snoc (keys : list A) (k : A) :
  first_seen (keys ++ [k]) =
  if decide (k ∈ first_seen keys) then first_seen keys else first_seen keys ++ [k].
Proof. unfold first_seen. rewrite foldl_app. reflexivity. Qed.

Lemma first_seen_elem_of (keys : list A) (k : A) : k ∈ first_seen keys <-> k ∈ keys.
Proof.
  induction keys as [|x keys IH] using rev_ind.
  - reflexivity.
  - rewrite first_seen_snoc. case_decide as Hx.
    + rewrite elem_of_app, list_elem_of_singleton, <- IH. split; [auto|].
      intros [?| ->]; assumption.
    + rewrite !elem_of_app, IH. reflexivity.
Qed.

Lemma first_seen_NoDup (keys : list A) : NoDup (first_seen keys).
Proof.
  induction keys as [|x keys IH] using rev_ind.
  - constructor.
  - rewrite first_seen_snoc. case_decide as Hx; [assumption|].
    apply NoDup_app. split; [assumption|]. split; [|apply NoDup_singleton].
    intros y Hy Hy'. apply list_elem_of_singleton in Hy'. subst y. contradiction.
Qed.




End FirstSeen.

Section GroupByFacts.
Import Api Aggregate.

Lemma project_loop_lookup (tags : list string) (ts : TagSet) : forall (m : TagSet) (t : string),
  foldl (fun newTags t => <[t := tag ts t]> newTags) m tags !! t =
  if decide (t ∈ tags) then Some (tag ts t) else m !! t.
Proof.
  induction tags as [|a tags IH]; intros m t; cbn [foldl].
  - rewrite decide_False by apply not_elem_of_nil. reflexivity.
  - rewrite IH. destruct (decide (t ∈ tags)) as [Hin|Hnin].
    + rewrite decide_True by (apply elem_of_cons; auto). reflexivity.
    + destruct (decide (a = t)) as [->|Hne].
      * rewrite lookup_insert_eq, decide_True by (apply elem_of_cons; auto). reflexivity.
      * rewrite lookup_insert_ne by assumption.
        rewrite decide_False; [reflexivity|]. rewrite elem_of_cons. intros [?|?]; congruence.
Qed.

Lemma project_lookup (tags : list string) (ts : TagSet) (t : string) :
  project tags ts !! t = if decide (t ∈ tags) then Some (tag ts t) else None.
Proof. unfold project. rewrite project_loop_lookup. reflexivity. Qed.

(** A Go read of the projection: the member's value on the tags projected
    on, the empty string elsewhere. *)
Lemma tag_project (tags : list string) (ts : TagSet) (t : string) :
  tag (project tags ts) t = if decide (t ∈ tags) then tag ts t else EmptyString.
Proof. unfold tag at 1. rewrite project_lookup. case_decide; reflexivity. Qed.

Lemma groupAccepts_true (l r : TagSet) (tags : list string) :
  groupAccepts l r tags = true <-> forall t, t ∈ tags -> tag l t = tag r t.
Proof.
  induction tags as [|a tags IH]; simpl.
  - split; [|reflexivity]. intros _ t Ht. apply elem_of_nil in Ht. tauto.
  - case_decide as Ha.
    + split; [discriminate|]. intros H. exfalso. apply Ha, H, elem_of_cons. auto.
    + rewrite IH. split.
      * intros H t Ht. apply elem_of_cons in Ht as [->|Ht]; auto.
      * intros H t Ht. apply H, elem_of_cons. auto.
Qed.

Lemma project_eq_iff (tags : list string) (a b : TagSet) :
  project tags a = project tags b <-> forall t, t ∈ tags -> tag a t = tag b t.
Proof.
  split.
  - intros H t Ht. pose proof (tag_project tags a t) as Ha. pose proof (tag_project tags b t) as Hb.
    rewrite decide_True in Ha, Hb by assumption. rewrite <- Ha, <- Hb, H. reflexivity.
  - intros H. apply map_eq. intros t. rewrite !project_lookup.
    case_decide as Ht; [|reflexivity]. rewrite (H t Ht). reflexivity.
Qed.

Lemma groupAccepts_project (tags : list string) (a b : TagSet) :
  groupAccepts (project tags a) (project tags b) tags = true <->
  project tags a = project tags b.
Proof.
  rewrite groupAccepts_true, project_eq_iff. split; intros H t Ht.
  - specialize (H t Ht). rewrite !tag_project, !decide_True in H by assumption. exact H.
  - rewrite !tag_project, !decide_True by assumption. auto.
Qed.

Lemma group_of_snoc_ne (members : list Timeseries) (s : Timeseries) (k : TagSet) :
  ts_TagSet s <> k -> group_of (members ++ [s]) k = group_of members k.
Proof.
  intros Hne. unfold group_of. f_equal.
  rewrite filter_app, filter_cons, decide_False by assumption. apply app_nil_r.
Qed.

Lemma group_of_snoc_eq (members : list Timeseries) (s : Timeseries) :
  group_of (members ++ [s]) (ts_TagSet s) =
  {| g_List := g_List (group_of members (ts_TagSet s)) ++ [s]; g_TagSet := ts_TagSet s |}.
Proof.
  unfold group_of. simpl. f_equal.
  rewrite filter_app, filter_cons, decide_True by reflexivity. reflexivity.
Qed.

Lemma group_of_fmap_snoc_ne (members : list Timeseries) (s : Timeseries) (ks : list TagSet) :
  ts_TagSet s ∉ ks -> group_of (members ++ [s]) <$> ks = group_of members <$> ks.
Proof.
  intros Hnin. apply list_fmap_ext. intros i k Hk. apply group_of_snoc_ne.
  intros <-. apply Hnin. apply list_elem_of_lookup. eauto.
Qed.

(** The loop of [addToGroup] on rows keyed by distinct projections: the
    series joins the row that carries its tag set, if there is one. *)
Lemma addToGroup_rows_spec (tags : list string) (members : list Timeseries)
    (s : Timeseries) (ks : list TagSet) :
  NoDup ks ->
  Forall (fun k => exists ts, k = project tags ts) ks ->
  (exists ts, ts_TagSet s = project tags ts) ->
  addToGroup_rows (group_of members <$> ks) s tags =
  if decide (ts_TagSet s ∈ ks) then Some (group_of (members ++ [s]) <$> ks) else None.
Proof.
  intros Hnd Hks [ts1 Hs]. induction ks as [|k0 ks IH]; cbn [fmap list_fmap addToGroup_rows].
  - rewrite decide_False by apply not_elem_of_nil. reflexivity.
  - apply NoDup_cons in Hnd as [Hk0 Hnd]. apply Forall_cons in Hks as [[ts0 Hts0] Hks].
    change (g_TagSet (group_of members k0)) with k0.
    destruct (decide (k0 = ts_TagSet s)) as [Heq|Hne].
    + assert (Hacc : groupAccepts k0 (ts_TagSet s) tags = true).
      { rewrite Hts0, Hs. apply groupAccepts_project. congruence. }
      rewrite Hacc, decide_True by (apply elem_of_cons; auto).
      clear Hts0 Hacc. subst k0. f_equal. rewrite group_of_snoc_eq. f_equal.
      symmetry. apply group_of_fmap_snoc_ne. assumption.
    + assert (Hacc : groupAccepts k0 (ts_TagSet s) tags = false).
      { apply not_true_is_false. rewrite Hts0, Hs, groupAccepts_project. congruence. }
      rewrite Hacc, IH by assumption.
      destruct (decide (ts_TagSet s ∈ ks)) as [Hin|Hnin].
      * rewrite decide_True by (apply elem_of_cons; auto). simpl. f_equal. f_equal.
        symmetry. apply group_of_snoc_ne. congruence.
      * rewrite decide_False; [reflexivity|]. rewrite elem_of_cons. intros [?|?]; congruence.
Qed.

(** [groupBy], in closed form: one group per distinct projected tag set, in
    first-encounter order, holding in order the series that project to it. *)
Lemma groupBy_loop (tags : list string) (series : list Timeseries) :
  foldl (fun result s => addToGroup result s tags) [] series =
  group_of (retag tags <$> series) <$> first_seen (ts_TagSet <$> (retag tags <$> series)).
Proof.
  induction series as [|s series IH] using rev_ind; [reflexivity|].
  rewrite foldl_snoc, IH, !fmap_app. simpl fmap. rewrite first_seen_snoc.
  set (members := retag tags <$> series).
  set (ks := first_seen (ts_TagSet <$> members)).
  unfold addToGroup. fold (project tags (ts_TagSet s)). fold (retag tags s).
  rewrite (addToGroup_rows_spec tags members (retag tags s) ks).
  - simpl ts_TagSet. destruct (decide (project tags (ts_TagSet s) ∈ ks)) as [Hin|Hnin].
    + reflexivity.
    + rewrite fmap_app. simpl fmap. f_equal.
      * symmetry. apply group_of_fmap_snoc_ne. exact Hnin.
      * f_equal. change (project tags (ts_TagSet s)) with (ts_TagSet (retag tags s)).
        rewrite group_of_snoc_eq. simpl. unfold group_of. f_equal.
        replace (filter _ members) with (@nil Timeseries); [reflexivity|].
        symmetry. apply filter_none, Forall_forall. intros m Hm Hkey. apply Hnin.
        apply first_seen_elem_of, list_elem_of_fmap. exists m. auto.
  - apply first_seen_NoDup.
  - apply Forall_forall. intros k Hk. unfold ks, members in Hk.
    apply (proj1 (first_seen_elem_of _ _)) in Hk.
    apply list_elem_of_fmap in Hk as (m & -> & Hm).
    apply list_elem_of_fmap in Hm as (s0 & -> & _). exists (ts_TagSet s0). reflexivity.
  - exists (ts_TagSet s). reflexivity.
Qed.

Lemma groupBy_eq (sl : SeriesList) (tags : list string) :
  groupBy sl tags =
  group_of (retag tags <$> sl_Series sl)
    <$> first_seen (ts_TagSet <$> (retag tags <$> sl_Series sl)).
Proof. apply groupBy_loop. Qed.




(** The tests' list ([Test_groupBy]): five series, grouped by [dc]. *)
Example groupBy_test :
  g_TagSet <$> groupBy groupBy_test_list ["dc"]%string
    = [ {[ "dc" := "A" ]}; {[ "dc" := "B" ]}; {[ "dc" := "C" ]} ]%string /\
  (fun g => ts_Values <$> g_List g) <$> groupBy groupBy_test_list ["dc"]%string
    = [ [[0; 0; 0]]; [[1; 1; 1]; [3; 3; 3]]; [[2; 2; 2]; [4; 4; 4]] ]%float /\
  length (groupBy groupBy_test_list ["dc"; "host"]%string) = 5%nat /\
  length (groupBy groupBy_test_list []) = 1%nat.
Proof. repeat split; vm_compute; reflexivity. Qed.

End GroupByFacts.

(** ** Package [aggregate]: [applyAggregation] and [AggregateBy] *)

Section AggregateFacts.
Import Api Aggregate.

(** *** No group is empty *)

Lemma addToGroup_rows_nonempty (tags : list string) (s : Timeseries) (rows : list group) :
  forall rows', Forall (fun g => g_List g <> []) rows ->
  addToGroup_rows rows s tags = Some rows' ->
  Forall (fun g => g_List g <> []) rows'.
Proof.
  induction rows as [|row rows IH]; intros rows' Hne Hrun; simpl in Hrun; [discriminate|].
  apply Forall_cons in Hne as [Hrow Hrows].
  destruct (groupAccepts _ _ _).
  - injection Hrun as <-. apply Forall_cons. split; [|assumption].
    simpl. intros H. apply app_eq_nil in H as [_ H]. discriminate.
  - destruct (addToGroup_rows rows s tags) as [rows1|] eqn:H1; [|discriminate].
    injection Hrun as <-. apply Forall_cons. split; [assumption|]. apply IH; auto.
Qed.

(** [addToGroup] only lengthens a group, or adds one that holds the series. *)
Lemma addToGroup_nonempty (tags : list string) (s : Timeseries) (rows : list group) :
  Forall (fun g => g_List g <> []) rows ->
  Forall (fun g => g_List g <> []) (addToGroup rows s tags).
Proof.
  intros Hne. unfold addToGroup.
  destruct (addToGroup_rows rows _ tags) as [rows'|] eqn:Hrun.
  - apply (addToGroup_rows_nonempty _ _ _ _ Hne Hrun).
  - apply Forall_app. split; [assumption|]. apply Forall_singleton. discriminate.
Qed.

Lemma groupBy_nonempty (sl : SeriesList) (tags : list string) :
  Forall (fun g => g_List g <> []) (groupBy sl tags).
Proof.
  unfold groupBy. generalize (sl_Series sl). intros series.
  induction series as [|s series IH] using rev_ind; [constructor|].
  rewrite foldl_snoc. apply addToGroup_nonempty, IH.
Qed.

Lemma timeSlice_loop_panic (lst : list Timeseries) (i : nat) : forall j timeSlice msg,
  timeSlice_loop lst i j timeSlice = Panic msg -> msg = index_out_of_range.
Proof.
  induction lst as [|m lst IH]; intros j timeSlice msg H; simpl in H; [discriminate|].
  destruct (ts_Values m !! i); [eauto|]. injection H as <-. reflexivity.
Qed.

Lemma applyAggregation_loop_panic (lst : list Timeseries) (aggregator : list float -> float)
    (n : nat) : forall i values msg,
  applyAggregation_loop lst aggregator n i values = Panic msg -> msg = index_out_of_range.
Proof.
  induction n as [|n IH]; intros i values msg H; simpl in H; [discriminate|].
  destruct (timeSlice_loop lst i 0 _) as [timeSlice|msg'] eqn:Hts.
  - eauto.
  - injection H as <-. apply (timeSlice_loop_panic _ _ _ _ _ Hts).
Qed.

Lemma applyAggregation_panic (g : group) (aggregator : list float -> float) (msg : string) :
  g_List g <> [] -> applyAggregation g aggregator = Panic msg -> msg = index_out_of_range.
Proof.
  unfold applyAggregation. destruct (g_List g) as [|first rest]; [congruence|]. intros _ H.
  destruct (applyAggregation_loop _ _ _ _ _) as [values|msg'] eqn:Hloop; [discriminate|].
  injection H as <-. apply (applyAggregation_loop_panic _ _ _ _ _ _ Hloop).
Qed.

Lemma AggregateBy_loop_panic (groups : list group) (aggregator : list float -> float) :
  forall i series msg,
  Forall (fun g => g_List g <> []) groups ->
  AggregateBy_loop groups aggregator i series = Panic msg -> msg = index_out_of_range.
Proof.
  induction groups as [|g groups IH]; intros i series msg Hne H; simpl in H; [discriminate|].
  apply Forall_cons in Hne as [Hg Hne].
  destruct (applyAggregation g aggregator) as [s|msg'] eqn:Hg'.
  - eauto.
  - injection H as <-. apply (applyAggregation_panic _ _ _ Hg Hg').
Qed.

(** C10. Every group made by [groupBy] holds at least one series, so that
    [applyAggregation] never meets its empty-group panic on a group of
    [groupBy], and no call of [AggregateBy] ends in it. *)
Theorem AggregateBy_no_empty_group (sl : SeriesList) (aggregator : list float -> float)
    (tags : list string) :
  Forall (fun g => g_List g <> []) (groupBy sl tags) /\
  (forall g, g ∈ groupBy sl tags -> applyAggregation g aggregator <> Panic empty_group_panic) /\
  AggregateBy sl aggregator tags <> Panic empty_group_panic.
Proof.
  pose proof (groupBy_nonempty sl tags) as Hne.
  split; [exact Hne|]. split.
  - intros g Hg H. rewrite Forall_forall in Hne.
    apply applyAggregation_panic in H; [discriminate|auto].
  - unfold AggregateBy. intros H.
    destruct (AggregateBy_loop _ _ _ _) as [series|msg] eqn:Hloop; [discriminate|].
    injection H as ->. apply AggregateBy_loop_panic in Hloop; [discriminate|exact Hne].
Qed.

(** *** The aggregated series *)

(** The inner loop fills the slots after [pre] with the members' values at
    slot [i], when every member has such a slot. *)
Lemma timeSlice_loop_spec (i : nat) (lst : list Timeseries) : forall pre suffix,
  Forall (fun m => (i < length (ts_Values m))%nat) lst ->
  (length lst <= length suffix)%nat ->
  timeSlice_loop lst i (length pre) (pre ++ suffix) =
  Done (pre ++ column i lst ++ drop (length lst) suffix).
Proof.
  induction lst as [|m lst IH]; intros pre suffix Hall Hlen; simpl.
  - rewrite drop_0. reflexivity.
  - apply Forall_cons in Hall as [Hm Hall].
    destruct (lookup_lt_is_Some_2 _ _ Hm) as [v Hv]. rewrite Hv.
    destruct suffix as [|x suffix]; simpl in Hlen; [lia|].
    replace (length pre) with (length pre + 0)%nat at 2 by lia.
    rewrite insert_app_r. simpl.
    replace (pre ++ v :: suffix) with ((pre ++ [v]) ++ suffix) by (rewrite <- app_assoc; reflexivity).
    replace (S (length pre)) with (length (pre ++ [v])) by (rewrite length_app; simpl; lia).
    rewrite IH by (auto; lia). rewrite <- app_assoc. simpl.
    rewrite (list_lookup_total_correct _ _ _ Hv). reflexivity.
Qed.

Lemma timeSlice_loop_column (i : nat) (lst : list Timeseries) :
  Forall (fun m => (i < length (ts_Values m))%nat) lst ->
  timeSlice_loop lst i 0 (make_floats (length lst)) = Done (column i lst).
Proof.
  intros Hall.
  pose proof (timeSlice_loop_spec i lst [] (make_floats (length lst)) Hall) as H.
  simpl in H. rewrite H by (rewrite length_make_floats; lia).
  rewrite drop_ge by (rewrite length_make_floats; lia). rewrite app_nil_r. reflexivity.
Qed.

Lemma applyAggregation_loop_spec (lst : list Timeseries) (aggregator : list float -> float)
    (N n : nat) : forall pre suffix,
  Forall (fun m => length (ts_Values m) = N) lst ->
  (length pre + n <= N)%nat -> (n <= length suffix)%nat ->
  applyAggregation_loop lst aggregator n (length pre) (pre ++ suffix) =
  Done (pre ++ ((fun i => aggregator (column i lst)) <$> seq (length pre) n) ++ drop n suffix).
Proof.
  induction n as [|n IH]; intros pre suffix Hall HN Hlen; simpl.
  - rewrite drop_0. reflexivity.
  - rewrite timeSlice_loop_column
      by (eapply Forall_impl; [exact Hall|]; simpl; intros m Hm; lia).
    destruct suffix as [|x suffix]; simpl in Hlen; [lia|].
    replace (length pre) with (length pre + 0)%nat at 2 by lia.
    rewrite insert_app_r. simpl.
    replace (pre ++ aggregator (column (length pre) lst) :: suffix)
      with ((pre ++ [aggregator (column (length pre) lst)]) ++ suffix)
      by (rewrite <- app_assoc; reflexivity).
    replace (S (length pre)) with (length (pre ++ [aggregator (column (length pre) lst)]))
      by (rewrite length_app; simpl; lia).
    rewrite IH by (auto; rewrite ?length_app; simpl; lia).
    rewrite <- app_assoc. simpl. reflexivity.
Qed.

(** On a group whose members have as many values each, [applyAggregation]
    returns [aggregated]. *)
Lemma applyAggregation_spec (g : group) (aggregator : list float -> float) (N : nat) :
  g_List g <> [] ->
  Forall (fun m => length (ts_Values m) = N) (g_List g) ->
  applyAggregation g aggregator = Done (aggregated aggregator g) /\ slot_count g = N.
Proof.
  intros Hne Hall. unfold applyAggregation, aggregated, slot_count.
  destruct (g_List g) as [|first rest] eqn:Hg; [congruence|].
  assert (HN : length (ts_Values first) = N) by (apply Forall_cons in Hall; tauto).
  rewrite HN.
  pose proof (applyAggregation_loop_spec (first :: rest) aggregator N N [] (make_floats N) Hall) as H.
  simpl length in H. simpl app in H. rewrite H by (rewrite ?length_make_floats; lia).
  rewrite drop_ge by (rewrite length_make_floats; lia). rewrite app_nil_r. auto.
Qed.

Lemma AggregateBy_loop_spec (aggregator : list float -> float) (N : nat) (groups : list group) :
  forall pre suffix,
  Forall (fun g => g_List g <> [] /\ Forall (fun m => length (ts_Values m) = N) (g_List g)) groups ->
  (length groups <= length suffix)%nat ->
  AggregateBy_loop groups aggregator (length pre) (pre ++ suffix) =
  Done (pre ++ (aggregated aggregator <$> groups) ++ drop (length groups) suffix).
Proof.
  induction groups as [|g groups IH]; intros pre suffix Hall Hlen; simpl.
  - rewrite drop_0. reflexivity.
  - apply Forall_cons in Hall as [[Hne Hg] Hall].
    destruct (applyAggregation_spec g aggregator N Hne Hg) as [-> _].
    destruct suffix as [|x suffix]; simpl in Hlen; [lia|].
    replace (length pre) with (length pre + 0)%nat at 2 by lia.
    rewrite insert_app_r. simpl.
    replace (pre ++ aggregated aggregator g :: suffix)
      with ((pre ++ [aggregated aggregator g]) ++ suffix) by (rewrite <- app_assoc; reflexivity).
    replace (S (length pre)) with (length (pre ++ [aggregated aggregator g]))
      by (rewrite length_app; simpl; lia).
    rewrite IH by (auto; lia). rewrite <- app_assoc. reflexivity.
Qed.

(** The members of the groups are the input's series, retagged. *)
Lemma groupBy_members (sl : SeriesList) (tags : list string) (g : group) (m : Timeseries) :
  g ∈ groupBy sl tags -> m ∈ g_List g ->
  exists s, s ∈ sl_Series sl /\ m = retag tags s.
Proof.
  rewrite groupBy_eq. intros Hg Hm. apply list_elem_of_fmap in Hg as (k & -> & _).
  unfold group_of in Hm. simpl in Hm. apply list_elem_of_filter in Hm as [_ Hm].
  apply list_elem_of_fmap in Hm as (s & -> & Hs). eauto.
Qed.

Lemma filter_retag (tags : list string) (k : TagSet) (series : list Timeseries) :
  filter (fun m => ts_TagSet m = k) (retag tags <$> series)
  = retag tags <$> filter (fun s => project tags (ts_TagSet s) = k) series.
Proof.
  induction series as [|s series IH]; [reflexivity|].
  rewrite fmap_cons, !filter_cons, IH. simpl.
  destruct (decide (project tags (ts_TagSet s) = k)); reflexivity.
Qed.

Lemma column_retag (tags : list string) (i : nat) (series : list Timeseries) :
  column i (retag tags <$> series) = column i series.
Proof. unfold column. rewrite <- list_fmap_compose. reflexivity. Qed.

(** C6. When the series of the list have the same number of slots,
    [AggregateBy] returns, under the input's timerange and name, one series per
    group, in order.  The groups are those of [groupBy]: the series' tag set is
    the group's, and its value at slot [i] is the aggregator applied to the
    members' values at slot [i].  Spelled out on the input: there is one series
    per distinct projection of the input's tag sets onto the tags, in the order
    in which the projections first occur, with the projection for its tag set,
    and its value at slot [i] is the aggregator applied to the values at slot
    [i] of the input series that have this projection, in the order of the
    input.  On the four equally tagged series of the tests, that is [3,2,8,11]
    for [Sum], [0.75,0.5,2,2.75] for [Mean], [-1,-1,0,2] for [Min] and
    [4,2,4,4] for [Max]; and the five series of the grouping tests, summed by
    [dc], give three series. *)
Theorem AggregateBy_spec :
  (forall (sl : SeriesList) (aggregator : list float -> float) (tags : list string) (N : nat),
     Forall (fun s => length (ts_Values s) = N) (sl_Series sl) ->
     exists out,
       AggregateBy sl aggregator tags = Done out /\
       sl_Timerange out = sl_Timerange sl /\
       sl_Name out = sl_Name sl /\
       length (sl_Series out) = length (groupBy sl tags) /\
       (forall k g, groupBy sl tags !! k = Some g ->
          exists s, sl_Series out !! k = Some s /\
            ts_TagSet s = g_TagSet g /\
            length (ts_Values s) = N /\
            forall i, (i < N)%nat ->
              Forall2 (fun m v => ts_Values m !! i = Some v) (g_List g) (column i (g_List g)) /\
              ts_Values s !! i = Some (aggregator (column i (g_List g)))) /\
       sl_Series out =
         aggregate_for aggregator tags (sl_Series sl) N
           <$> first_seen ((fun s => project tags (ts_TagSet s)) <$> sl_Series sl)) /\
  AggregateBy aggregation_test_list Sum ["env"; "dc"]%string
    = Done (aggregation_test_result [3; 2; 8; 11]%float) /\
  AggregateBy aggregation_test_list Mean ["env"; "dc"]%string
    = Done (aggregation_test_result [0.75; 0.5; 2; 2.75]%float) /\
  AggregateBy aggregation_test_list Min ["env"; "dc"]%string
    = Done (aggregation_test_result [-1; -1; 0; 2]%float) /\
  AggregateBy aggregation_test_list Max ["env"; "dc"]%string
    = Done (aggregation_test_result [4; 2; 4; 4]%float) /\
  AggregateBy groupBy_test_list Sum ["dc"]%string = Done groupBy_test_sums.
Proof.
  split; [|repeat split; vm_compute; reflexivity].
  intros sl aggregator tags N Huniform.
  assert (Hgroups : Forall (fun g => g_List g <> [] /\
                      Forall (fun m => length (ts_Values m) = N) (g_List g)) (groupBy sl tags)).
  { pose proof (groupBy_nonempty sl tags) as Hne. rewrite Forall_forall in Hne.
    apply Forall_forall. intros g Hg. split; [auto|].
    apply Forall_forall. intros m Hm.
    destruct (groupBy_members sl tags g m Hg Hm) as (s & Hs & ->). simpl.
    rewrite Forall_forall in Huniform. auto. }
  unfold AggregateBy.
  pose proof (AggregateBy_loop_spec aggregator N (groupBy sl tags) []
                (replicate (length (groupBy sl tags)) {| ts_Values := []; ts_TagSet := NewTagSet |})
                Hgroups) as Hloop.
  simpl length in Hloop. simpl app in Hloop.
  rewrite Hloop by (rewrite length_replicate; lia).
  rewrite drop_ge by (rewrite length_replicate; lia). rewrite app_nil_r.
  eexists. split; [reflexivity|]. simpl.
  split; [reflexivity|]. split; [reflexivity|]. split; [apply length_fmap|].
  rewrite Forall_forall in Hgroups. split.
  - intros k g Hk. exists (aggregated aggregator g).
    split; [rewrite list_lookup_fmap, Hk; reflexivity|].
    destruct (Hgroups g) as [Hne Hall]; [apply list_elem_of_lookup; eauto|].
    destruct (applyAggregation_spec g aggregator N Hne Hall) as [_ HN].
    unfold aggregated. simpl. rewrite HN.
    split; [reflexivity|]. split; [rewrite length_fmap, length_seq; reflexivity|].
    intros i Hi.
    split; [|apply (lookup_fmap_seq (fun i => aggregator (column i (g_List g)))); assumption].
    unfold column. apply Forall2_fmap_r, Forall_Forall2_diag.
    eapply Forall_impl; [exact Hall|]. simpl. intros m Hm.
    apply list_lookup_lookup_total_lt. lia.
  - assert (Hkeys : ts_TagSet <$> (retag tags <$> sl_Series sl)
                    = (fun s => project tags (ts_TagSet s)) <$> sl_Series sl).
    { rewrite <- list_fmap_compose. reflexivity. }
    pose proof (groupBy_eq sl tags) as Heq. rewrite Hkeys in Heq.
    rewrite Heq at 1. rewrite <- list_fmap_compose.
    apply list_fmap_ext. intros j k Hk. simpl.
    assert (Hg : group_of (retag tags <$> sl_Series sl) k ∈ groupBy sl tags).
    { rewrite Heq. apply list_elem_of_fmap. exists k. split; [reflexivity|].
      apply list_elem_of_lookup. eauto. }
    destruct (Hgroups _ Hg) as [Hne Hall].
    destruct (applyAggregation_spec _ aggregator N Hne Hall) as [_ HN].
    unfold aggregated, aggregate_for. rewrite HN. simpl. f_equal.
    apply list_fmap_ext. intros i' i _. rewrite filter_retag, column_retag. reflexivity.
Qed.

(** The four series of the tests have four slots each. *)
Lemma AggregateBy_spec_witness :
  Forall (fun s => length (ts_Values s) = 4%nat) (sl_Series aggregation_test_list) /\
  exists out, AggregateBy aggregation_test_list Sum ["env"; "dc"]%string = Done out /\
              sl_Name out = "Test.List"%string /\
              length (sl_Series out) = length (groupBy aggregation_test_list ["env"; "dc"]%string).
Proof.
  assert (H : Forall (fun s => length (ts_Values s) = 4%nat) (sl_Series aggregation_test_list)).
  { repeat (apply Forall_cons; split; [reflexivity|]). apply Forall_nil. exact I. }
  split; [exact H|].
  destruct (proj1 AggregateBy_spec aggregation_test_list Sum ["env"; "dc"]%string 4%nat H)
    as (out & Hout & _ & Hname & Hlen & _).
  exists out. split; [exact Hout|]. split; [exact Hname | exact Hlen].
Defined.

End AggregateFacts.

(** ** Package [blueflood]: bucketing the backend's points *)

Section BluefloodFacts.
Import Api Blueflood.

Lemma for_range_clear_buckets (n : nat) :
  for_range n (fun i (buckets : list (list float)) => <[i := []]> buckets) (replicate n [])
  = replicate n [].
Proof.
  rewrite <- (length_replicate n (@nil float)) at 1.
  rewrite (for_range_pointwise_full (fun _ => @nil float)) by reflexivity.
  rewrite length_replicate. apply list_eq. intros i.
  destruct (decide (i < n)%nat) as [Hlt|Hge].
  - rewrite lookup_fmap_seq, lookup_replicate_2 by assumption. reflexivity.
  - rewrite !lookup_ge_None_2; [reflexivity| |]; rewrite ?length_replicate, ?length_fmap, ?length_seq; lia.
Qed.

Lemma int64_quo_Done (x y : Z) :
  y <> 0 -> int64_quo x y = Aggregate.Done (wrap64 (x ÷ y)).
Proof.
  intros Hy. unfold int64_quo. destruct (y =? 0) eqn:H0; [|reflexivity].
  apply Z.eqb_eq in H0. contradiction.
Qed.

(** A call of [addMetricPoint] on a resolution that is not zero, with one
    bucket per slot: the point is dropped when its slot is outside the
    timerange, and appended to the bucket of its slot otherwise. *)
Lemma addMetricPoint_Done (point : metricPoint) (field : metricPoint -> float)
    (timerange : Timerange) (buckets : list (list float)) :
  Resolution timerange <> 0 ->
  length buckets = Z.to_nat (Slots timerange) ->
  addMetricPoint point field timerange buckets =
  Aggregate.Done
    (if (slot_of timerange point <? 0) || (Slots timerange <=? slot_of timerange point)
     then (false, buckets)
     else (true, <[Z.to_nat (slot_of timerange point) :=
                     (buckets !!! Z.to_nat (slot_of timerange point)) ++ [field point]]> buckets)).
Proof.
  intros Hres Hlen. unfold addMetricPoint. rewrite int64_quo_Done by assumption.
  fold (slot_of timerange point). cbv zeta.
  destruct ((slot_of timerange point <? 0) || (Slots timerange <=? slot_of timerange point))
    eqn:Hrange; [reflexivity|].
  apply orb_false_elim in Hrange as [H1 H2]. apply Z.ltb_ge in H1. apply Z.leb_gt in H2.
  destruct (lookup_lt_is_Some_2 buckets (Z.to_nat (slot_of timerange point)) ltac:(lia))
    as [bucket Hb].
  rewrite Hb, (list_lookup_total_correct _ _ _ Hb). reflexivity.
Qed.

(** The loop over the points, from one bucket per slot: bucket [i] holds the
    selected field of the points whose quotient, truncated toward zero, is
    [i]. *)
Lemma addMetricPoints_spec (points : list metricPoint) (field : metricPoint -> float)
    (timerange : Timerange) :
  Resolution timerange <> 0 ->
  addMetricPoints points field timerange (replicate (Z.to_nat (Slots timerange)) []) =
  Aggregate.Done (bucket_of timerange field points <$> seq 0 (Z.to_nat (Slots timerange))).
Proof.
  intros Hres. unfold addMetricPoints.
  set (n := Z.to_nat (Slots timerange)).
  induction points as [|p points IH] using rev_ind.
  - simpl. f_equal. apply list_eq. intros i. destruct (decide (i < n)%nat) as [Hlt|Hge].
    + rewrite lookup_fmap_seq, lookup_replicate_2 by assumption. reflexivity.
    + rewrite !lookup_ge_None_2; [reflexivity| |]; rewrite ?length_replicate, ?length_fmap, ?length_seq; lia.
  - rewrite foldl_snoc, IH.
    rewrite addMetricPoint_Done by (try assumption; rewrite length_fmap, length_seq; reflexivity).
    assert (Hother : forall i, slot_of timerange p <> Z.of_nat i ->
               bucket_of timerange field (points ++ [p]) i = bucket_of timerange field points i).
    { intros i Hi. unfold bucket_of. rewrite filter_app, filter_cons, decide_False by assumption.
      rewrite filter_nil, app_nil_r. reflexivity. }
    destruct ((slot_of timerange p <? 0) || (Slots timerange <=? slot_of timerange p)) eqn:Hrange.
    + f_equal. apply list_fmap_ext. intros i j Hj. symmetry. apply Hother.
      apply lookup_seq in Hj as [-> Hj]. simpl.
      apply orb_prop in Hrange as [H|H]; [apply Z.ltb_lt in H|apply Z.leb_le in H]; lia.
    + apply orb_false_elim in Hrange as [H1 H2].
      apply Z.ltb_ge in H1. apply Z.leb_gt in H2. f_equal.
      set (k := Z.to_nat (slot_of timerange p)).
      assert (Hk : (k < n)%nat) by lia.
      assert (Hkz : slot_of timerange p = Z.of_nat k) by lia.
      apply list_eq. intros i. destruct (decide (i = k)) as [->|Hne].
      * rewrite list_lookup_insert_eq by (rewrite length_fmap, length_seq; exact Hk).
        rewrite lookup_fmap_seq by exact Hk. f_equal.
        rewrite (list_lookup_total_correct _ _ (bucket_of timerange field points k))
          by (apply lookup_fmap_seq; exact Hk).
        unfold bucket_of. rewrite filter_app, filter_cons, decide_True by exact Hkz.
        rewrite filter_nil, fmap_app. reflexivity.
      * rewrite list_lookup_insert_ne by congruence.
        destruct (decide (i < n)%nat) as [Hlt|Hge].
        -- rewrite !lookup_fmap_seq by assumption. f_equal. symmetry. apply Hother. lia.
        -- rewrite !lookup_ge_None_2; [reflexivity| |]; rewrite ?length_fmap, ?length_seq; lia.
Qed.

(** The buckets after the points [points], on a resolution that is not zero
    and a number of slots that is not negative. *)
Lemma bucketsFromMetricPoints_spec (points : list metricPoint) (field : metricPoint -> float)
    (timerange : Timerange) :
  Resolution timerange <> 0 ->
  0 <= Slots timerange ->
  bucketsFromMetricPoints points field timerange =
  Aggregate.Done (bucket_of timerange field points <$> seq 0 (Z.to_nat (Slots timerange))).
Proof.
  intros Hres Hslots. unfold bucketsFromMetricPoints.
  destruct (Slots timerange <? 0) eqn:Hneg; [apply Z.ltb_lt in Hneg; lia|].
  cbv zeta. rewrite for_range_clear_buckets. apply addMetricPoints_spec. exact Hres.
Qed.

(** A negative number of slots: [make] panics. *)
Lemma bucketsFromMetricPoints_negative (points : list metricPoint)
    (field : metricPoint -> float) (timerange : Timerange) :
  Slots timerange < 0 ->
  bucketsFromMetricPoints points field timerange = Aggregate.Panic makeslice_len_out_of_range.
Proof.
  intros Hneg. unfold bucketsFromMetricPoints.
  destruct (Slots timerange <? 0) eqn:H; [reflexivity|]. apply Z.ltb_ge in H. lia.
Qed.

Lemma processResult_loop (s : sampler) (buckets : list (list float)) : forall pre suffix,
  (length buckets <= length suffix)%nat ->
  for_each_from (length pre) buckets
    (fun i bucket (values : list float) =>
       if Nat.eqb (length bucket) 0 then <[i := Float64.NaN]> values
       else <[i := bucketSampler s bucket]> values)
    (pre ++ suffix) =
  pre ++ ((fun bucket => if Nat.eqb (length bucket) 0 then Float64.NaN else bucketSampler s bucket)
            <$> buckets) ++ drop (length buckets) suffix.
Proof.
  induction buckets as [|b buckets IH]; intros pre suffix Hlen; simpl.
  - rewrite drop_0. reflexivity.
  - destruct suffix as [|x suffix]; simpl in Hlen; [lia|].
    set (v := if Nat.eqb (length b) 0 then Float64.NaN else bucketSampler s b).
    replace (if Nat.eqb (length b) 0 then <[length pre := Float64.NaN]> (pre ++ x :: suffix)
             else <[length pre := bucketSampler s b]> (pre ++ x :: suffix))
      with (<[length pre := v]> (pre ++ x :: suffix)) by (unfold v; destruct (Nat.eqb _ _); reflexivity).
    replace (length pre) with (length pre + 0)%nat at 2 by lia.
    rewrite insert_app_r. simpl.
    replace (pre ++ v :: suffix) with ((pre ++ [v]) ++ suffix) by (rewrite <- app_assoc; reflexivity).
    replace (S (length pre)) with (length (pre ++ [v])) by (rewrite length_app; simpl; lia).
    rewrite IH by lia. rewrite <- app_assoc. reflexivity.
Qed.

(** What [processResult] computes on a resolution that is not zero and a
    number of slots that is not negative: as many values as the timerange has
    slots; slot [i] is NaN when no point is assigned to it, and the sampler's
    reducer on the selected field of the points assigned to it otherwise.  A
    point is assigned to the quotient of [timestamp - start] by the resolution,
    truncated toward zero, and dropped when that is outside [0, slots). *)
Lemma processResult_spec (parsedResult : queryResponse) (timerange : Timerange) (s : sampler) :
  Resolution timerange <> 0 ->
  0 <= Slots timerange ->
  exists values,
    processResult parsedResult timerange s = Aggregate.Done values /\
    length values = Z.to_nat (Slots timerange) /\
    forall i, (i < Z.to_nat (Slots timerange))%nat ->
      values !! i =
      Some (let bucket := bucket_of timerange (fieldSelector s) (qr_Values parsedResult) i in
            if decide (bucket = []) then Float64.NaN else bucketSampler s bucket).
Proof.
  intros Hres Hslots. unfold processResult, for_each.
  rewrite bucketsFromMetricPoints_spec by assumption.
  destruct (Slots timerange <? 0) eqn:Hneg; [apply Z.ltb_lt in Hneg; lia|].
  set (n := Z.to_nat (Slots timerange)). cbv zeta.
  eexists. split; [reflexivity|].
  pose proof (processResult_loop s (bucket_of timerange (fieldSelector s) (qr_Values parsedResult)
                                      <$> seq 0 n) [] (make_floats n)) as H.
  simpl length in H. simpl app in H. rewrite H by (rewrite length_fmap, length_seq, length_make_floats; lia).
  rewrite drop_ge by (rewrite length_fmap, length_seq, length_make_floats; lia).
  rewrite app_nil_r, <- list_fmap_compose. split; [rewrite length_fmap, length_seq; reflexivity|].
  intros i Hi. rewrite lookup_fmap_seq by assumption. f_equal. simpl.
  destruct (bucket_of _ _ _ i) as [|x b]; reflexivity.
Qed.

(** On a negative number of slots [processResult] panics. *)
Lemma processResult_negative (parsedResult : queryResponse) (timerange : Timerange) (s : sampler) :
  Slots timerange < 0 ->
  processResult parsedResult timerange s = Aggregate.Panic makeslice_len_out_of_range.
Proof.
  intros Hneg. unfold processResult. rewrite bucketsFromMetricPoints_negative by assumption.
  reflexivity.
Qed.

Lemma wrap64_id (z : Z) : - 2 ^ 63 <= z < 2 ^ 63 -> wrap64 z = z.
Proof.
  intros Hz. unfold wrap64. rewrite Z.mod_small by lia. lia.
Qed.

(** From the start of the timerange on, the slot is the floor of the claim:
    truncation and floor differ on negative quotients only. *)
Lemma slot_of_floor (timerange : Timerange) (point : metricPoint) :
  0 < Resolution timerange ->
  0 <= mp_Timestamp point - Start timerange < 2 ^ 63 ->
  slot_of timerange point = (mp_Timestamp point - Start timerange) / Resolution timerange.
Proof.
  intros Hres Hts. unfold slot_of, int64_sub.
  rewrite (wrap64_id (mp_Timestamp point - Start timerange)) by lia.
  rewrite Z.quot_div_nonneg by lia.
  apply wrap64_id. split.
  - pose proof (Z.div_pos (mp_Timestamp point - Start timerange) (Resolution timerange)). lia.
  - apply Z.le_lt_trans with (mp_Timestamp point - Start timerange); [|lia].
    apply Z.div_le_upper_bound; [lia|]. nia.
Qed.

(** C2, the failing input.  A point 1 ms before the start of the timerange
    has the floor slot -1, outside [0, 2); [addMetricPoint] keeps it and
    [processResult] assigns it to slot 0, because the quotient of -1 by 30000
    is truncated to 0. *)
Theorem processResult_before_start :
  (mp_Timestamp early_point - Start early_timerange) / Resolution early_timerange = -1 /\
  Slots early_timerange = 2 /\
  slot_of early_timerange early_point = 0 /\
  samplerMap SampleMean = Some mean_sampler /\
  addMetricPoint early_point mp_Average early_timerange [[]; []]
    = Aggregate.Done (true, [[5%float]; []]) /\
  processResult early_response early_timerange mean_sampler
    = Aggregate.Done [5%float; Float64.NaN].
Proof. repeat split; vm_compute; reflexivity. Qed.

End BluefloodFacts.

(** ** Package [query]: [metricFetchExpression.Evaluate] *)

Section QueryFacts.
Import Api Function Query.

Lemma applyPredicates_loop (p : Predicate) (tagSets : list TagSet) : forall output,
  foldl (fun output ts => if Apply p ts then output ++ [ts] else output) output tagSets
  = output ++ filter (fun ts => Apply p ts = true) tagSets.
Proof.
  induction tagSets as [|ts tagSets IH]; intros output; cbn [foldl].
  - rewrite filter_nil, app_nil_r. reflexivity.
  - rewrite IH, filter_cons. destruct (Apply p ts) eqn:Hp.
    + rewrite decide_True by reflexivity. rewrite <- app_assoc. reflexivity.
    + rewrite decide_False by discriminate. reflexivity.
Qed.

Lemma applyPredicates_eq (tagSets : list TagSet) (p : Predicate) :
  applyPredicates tagSets p = filter (fun ts => Apply p ts = true) tagSets.
Proof. unfold applyPredicates. rewrite applyPredicates_loop. reflexivity. Qed.

(** The merged predicate holds when the context's and the expression's do,
    an absent one holding always. *)
Lemma mergePredicates_Apply (c e : option Predicate) (ts : TagSet) :
  Apply (mergePredicates c e) ts =
  from_option (fun p => Apply p ts) true c && from_option (fun p => Apply p ts) true e.
Proof.
  destruct c as [c|], e as [e|]; simpl; rewrite ?andb_true_r; try reflexivity.
  apply andb_comm.
Qed.

(** C8, as amended.  [Evaluate] filters the metric's tag sets by the merged
    predicate and asks the counter for one unit per survivor.  When that would
    exceed the limit, it returns the fetch-limit error, and neither admits nor
    fetches anything; otherwise it issues one multi-fetch, for the survivors in
    order, and returns its error or, when it succeeds, its series list under
    the name of the metric.  An error of the tag lookup is returned as it is. *)
Theorem Evaluate_spec (expr : metricFetchExpression) (context : EvaluationContext) (w : world) :
  let p := mergePredicates (ctx_Predicate context) (predicate expr) in
  (forall ts, Apply p ts =
     from_option (fun c => Apply c ts) true (ctx_Predicate context) &&
     from_option (fun e => Apply e ts) true (predicate expr)) /\
  (forall e, ctx_GetAllTags context (metricName expr) = Err e ->
     Evaluate expr context w = (Err e, w)) /\
  (forall metricTagSets, ctx_GetAllTags context (metricName expr) = Ok metricTagSets ->
     let filtered := filter (fun ts => Apply p ts = true) metricTagSets in
     let k := Z.of_nat (length filtered) in
     let request :=
       {| fmr_Metrics :=
            (fun ts => {| tm_MetricKey := metricName expr; tm_TagSet := ts |}) <$> filtered;
          fmr_SampleMethod := ctx_SampleMethod context;
          fmr_Timerange := ctx_Timerange context |} in
     (ctx_FetchLimit context < w_admitted w + k ->
        fst (Evaluate expr context w) = Err fetch_limit_exceeded /\
        w_admitted (snd (Evaluate expr context w)) = w_admitted w /\
        w_fetches (snd (Evaluate expr context w)) = w_fetches w) /\
     (w_admitted w + k <= ctx_FetchLimit context ->
        w_admitted (snd (Evaluate expr context w)) = w_admitted w + k /\
        w_fetches (snd (Evaluate expr context w)) = w_fetches w ++ [request] /\
        (forall e, ctx_FetchMultipleSeries context request = Err e ->
           fst (Evaluate expr context w) = Err e) /\
        (forall serieslist, ctx_FetchMultipleSeries context request = Ok serieslist ->
           exists l, fst (Evaluate expr context w) = Ok (SeriesListValue l) /\
                     sl_Name l = metricName expr /\
                     sl_Series l = sl_Series serieslist /\
                     sl_Timerange l = sl_Timerange serieslist))).
Proof.
  intros p. split; [intros ts; apply mergePredicates_Apply|]. split.
  - intros e He. unfold Evaluate. rewrite He. reflexivity.
  - intros metricTagSets Htags filtered k request.
    unfold Evaluate. rewrite Htags. fold p. rewrite applyPredicates_eq. fold filtered. fold k.
    unfold Consume. split.
    + intros Hover. apply Z.leb_gt in Hover. rewrite Hover. simpl. destruct w; auto.
    + intros Hfit. apply Z.leb_le in Hfit. rewrite Hfit. simpl. fold request.
      destruct (ctx_FetchMultipleSeries context request) as [serieslist|e] eqn:Hfetch; simpl.
      * repeat split; try discriminate.
        intros sl' Hsl. injection Hsl as <-. eexists. split; [reflexivity|]. auto.
      * repeat split; [congruence|discriminate].
Qed.

(** C8, as stated, fails: with the backend down, the counter does not
    overflow (one fetch for a limit of 1000), and [Evaluate] returns the
    backend's error, not a series list. *)
Lemma Evaluate_backend_error :
  ~ (forall expr context w metricTagSets,
       ctx_GetAllTags context (metricName expr) = Ok metricTagSets ->
       w_admitted w + Z.of_nat (length (applyPredicates metricTagSets
           (mergePredicates (ctx_Predicate context) (predicate expr))))
         <= ctx_FetchLimit context ->
       exists l, fst (Evaluate expr context w) = Ok (SeriesListValue l) /\
                 sl_Name l = metricName expr).
Proof.
  intros H.
  destruct (H cpu_fetch backend_down_context fresh_world _ eq_refl) as (l & Hl & _).
  - vm_compute. discriminate.
  - vm_compute in Hl. discriminate.
Qed.

(** One tag set behind a backend that answers: within a limit of 1000 the
    fetch is admitted and named; with a limit of 0 it is refused. *)
Lemma Evaluate_spec_witness :
  fst (Evaluate cpu_fetch backend_up_context fresh_world)
    = Ok (SeriesListValue
            {| sl_Series := [ {| ts_Values := [1; 1; 1]%float; ts_TagSet := {[ "host" := "a" ]} |} ]%string;
               sl_Timerange := ctx_Timerange backend_up_context;
               sl_Name := "cpu" |}) /\
  w_admitted (snd (Evaluate cpu_fetch backend_up_context fresh_world)) = 1 /\
  fst (Evaluate cpu_fetch
         {| ctx_GetAllTags := ctx_GetAllTags backend_up_context;
            ctx_FetchMultipleSeries := ctx_FetchMultipleSeries backend_up_context;
            ctx_Predicate := None; ctx_SampleMethod := SampleMean;
            ctx_Timerange := ctx_Timerange backend_up_context;
            ctx_FetchLimit := 0 |} fresh_world) = Err fetch_limit_exceeded.
Proof.
  destruct (Evaluate_spec cpu_fetch backend_up_context fresh_world) as (_ & _ & H).
  destruct (H _ eq_refl) as [_ Hfit].
  destruct Hfit as (Hadm & _ & _ & Hok); [vm_compute; discriminate|].
  split; [|split].
  - vm_compute. reflexivity.
  - exact Hadm.
  - vm_compute. reflexivity.
Defined.

End QueryFacts.

(** ** Package [internal]: the naming rules *)

Section RuleFacts.
Import Api Rules.

Lemma strip_prefix_sound (l : string) : forall s rest,
  strip_prefix l s = Some rest -> s = String.append l rest.
Proof.
  induction l as [|c l IH]; intros s rest H; simpl in H.
  - injection H as <-. reflexivity.
  - destruct s as [|d s]; [discriminate|].
    destruct (Ascii.eqb c d) eqn:Hc; [|discriminate].
    apply Ascii.eqb_eq in Hc. subst d.
    change (String.append (String c l) rest) with (String c (String.append l rest)).
    f_equal. apply IH, H.
Qed.

Lemma strip_prefix_append (l rest : string) : strip_prefix l (String.append l rest) = Some rest.
Proof.
  induction l as [|c l IH]; [reflexivity|].
  change (String.append (String c l) rest) with (String c (String.append l rest)).
  simpl. rewrite Ascii.eqb_refl. exact IH.
Qed.

Lemma splits_sound (s : string) : forall v r, (v, r) ∈ splits s -> s = String.append v r.
Proof.
  induction s as [|c s IH]; intros v r H; simpl in H.
  - apply list_elem_of_singleton in H. injection H as -> ->. reflexivity.
  - apply elem_of_app in H as [H|H].
    + apply list_elem_of_fmap in H as ([v' r'] & Heq & H). simpl in Heq.
      injection Heq as -> ->.
      change (String.append (String c v') r') with (String c (String.append v' r')).
      f_equal. apply IH, H.
    + apply list_elem_of_singleton in H. injection H as -> ->. reflexivity.
Qed.

Lemma first_success_Some {A B : Type} (f : A -> option B) (l : list A) (y : B) :
  first_success f l = Some y -> exists x, x ∈ l /\ f x = Some y.
Proof.
  induction l as [|x l IH]; simpl; [discriminate|].
  destruct (f x) as [y'|] eqn:Hx.
  - intros H. injection H as <-. exists x. split; [apply elem_of_cons; auto|exact Hx].
  - intros H. destruct (IH H) as (x' & Hin & Hx'). exists x'. split; [apply elem_of_cons; auto|exact Hx'].
Qed.

(** A successful match captures one value per placeholder, in order, and the
    pattern with these values in place of the placeholders is the name. *)
Lemma match_segments_sound (regex : gmap string (string -> bool)) (segs : list segment) :
  forall s captures,
  match_segments regex segs s = Some captures ->
  captures.*1 = tags_of segs /\
  forall tags : TagSet,
    (forall t v, (t, v) ∈ captures -> tags !! t = Some v) ->
    interpolate segs tags = Some s.
Proof.
  induction segs as [|[l|t] segs IH]; intros s captures H; simpl in H.
  - case_decide as Hs; [|discriminate]. injection H as <-. subst s. split; reflexivity.
  - destruct (strip_prefix l s) as [rest|] eqn:Hl; [|discriminate].
    apply strip_prefix_sound in Hl. destruct (IH _ _ H) as [Htags Hint].
    split; [exact Htags|]. intros tags Hcaps. simpl. rewrite (Hint tags Hcaps). simpl.
    rewrite Hl. reflexivity.
  - apply first_success_Some in H as ([v r] & Hin & H). simpl in H.
    destruct (tag_regex regex t v); [|discriminate].
    destruct (match_segments regex segs r) as [captures'|] eqn:Hrest; [|discriminate].
    simpl in H. injection H as <-. apply splits_sound in Hin.
    destruct (IH _ _ Hrest) as [Htags Hint].
    split; [cbn [fmap list_fmap fst tags_of]; f_equal; exact Htags|].
    intros tags Hcaps. simpl. rewrite (Hcaps t v) by (apply elem_of_cons; auto).
    rewrite (Hint tags) by (intros t' v' H'; apply Hcaps, elem_of_cons; auto). simpl.
    rewrite Hin. reflexivity.
Qed.

(** A pattern without placeholders matches what it interpolates to. *)
Lemma match_segments_literal (regex : gmap string (string -> bool)) (segs : list segment)
    (tags : TagSet) : forall key,
  tags_of segs = [] -> interpolate segs tags = Some key ->
  match_segments regex segs key = Some [].
Proof.
  induction segs as [|[l|t] segs IH]; intros key Htags H; simpl in *.
  - injection H as <-. reflexivity.
  - destruct (interpolate segs tags) as [rest|] eqn:Hrest; [|discriminate].
    simpl in H. injection H as <-. rewrite strip_prefix_append. apply IH; auto.
  - discriminate.
Qed.

Lemma foldl_delete_lookup (tags : list string) : forall (ts : TagSet) (t : string),
  foldl (fun ts t => delete t ts) ts tags !! t = if decide (t ∈ tags) then None else ts !! t.
Proof.
  induction tags as [|a tags IH]; intros ts t; cbn [foldl].
  - rewrite decide_False by apply not_elem_of_nil. reflexivity.
  - rewrite IH. destruct (decide (t ∈ tags)) as [Hin|Hnin].
    + rewrite decide_True by (apply elem_of_cons; auto). reflexivity.
    + destruct (decide (a = t)) as [->|Hne].
      * rewrite lookup_delete_eq, decide_True by (apply elem_of_cons; auto). reflexivity.
      * rewrite lookup_delete_ne by assumption.
        rewrite decide_False; [reflexivity|]. rewrite elem_of_cons. intros [?|?]; congruence.
Qed.

Lemma Compile_inr (rule : RawRule) (R : Rule) :
  Compile rule = inr R ->
  raw R = rule /\
  NoDup (tags_of (graphitePattern R)) /\ NoDup (tags_of (metricKeyPattern R)) /\
  graphitePatternTags R = tags_of (graphitePattern R) /\
  metricKeyTags R = tags_of (metricKeyPattern R).
Proof.
  unfold Compile. repeat case_decide; try discriminate.
  destruct (parse_pattern (Pattern rule)) as [pattern|]; [|discriminate].
  destruct (parse_pattern (MetricKeyPattern rule)) as [key|]; [|discriminate].
  destruct (negb (bool_decide (NoDup (tags_of pattern))) || adjacent_tags pattern) eqn:H1;
    [discriminate|].
  destruct (negb (bool_decide (NoDup (tags_of key))) || adjacent_tags key) eqn:H2;
    [discriminate|].
  intros Heq. injection Heq as <-. simpl.
  apply orb_false_elim in H1 as [H1 _]. apply orb_false_elim in H2 as [H2 _].
  apply negb_false_iff, bool_decide_eq_true in H1, H2. auto.
Qed.

(** The inverse operation undoes the forward one as soon as the metric key
    gives back the values that went into it. *)
Lemma ToGraphiteName_MatchRule (rule : RawRule) (R : Rule) (input : string) (m : TaggedMetric) :
  Compile rule = inr R ->
  MatchRule R input = Some m ->
  key_recovers R input m ->
  ToGraphiteName R m = inr input.
Proof.
  intros HR Hm (captures & extracted & Hcap & Hext & Hsub).
  apply Compile_inr in HR as (_ & Hnd & Hndk & _ & Hkt).
  unfold MatchRule in Hm. rewrite Hcap in Hm.
  destruct (interpolate (metricKeyPattern R) (list_to_map captures)) as [key|] eqn:Hkey;
    [|discriminate].
  injection Hm as <-. simpl in Hext. unfold ToGraphiteName. simpl. rewrite Hext.
  destruct (match_segments_sound _ _ _ _ Hcap) as [Htags Hint].
  destruct (match_segments_sound _ _ _ _ Hext) as [Hktags _].
  rewrite Hint; [reflexivity|].
  intros t v Htv.
  assert (Hfwd : (list_to_map captures : TagSet) !! t = Some v).
  { apply elem_of_list_to_map_1; [rewrite Htags; exact Hnd|exact Htv]. }
  rewrite lookup_union. destruct (decide (t ∈ extracted.*1)) as [Hin|Hnin].
  - apply list_elem_of_fmap in Hin as ([t' v'] & Heq & Hin). simpl in Heq. subst t'.
    assert (Hv' : (list_to_map captures : TagSet) !! t = Some v').
    { apply elem_of_list_to_map_1; [rewrite Htags; exact Hnd|apply Hsub, Hin]. }
    assert (v' = v) by congruence. subst v'.
    rewrite (elem_of_list_to_map_1 extracted t v) by (rewrite ?Hktags; assumption).
    destruct (foldl _ _ _ !! t); reflexivity.
  - rewrite (not_elem_of_list_to_map_1 extracted t Hnin).
    rewrite foldl_delete_lookup, decide_False by (rewrite Hkt, <- Hktags; exact Hnin).
    rewrite Hfwd. reflexivity.
Qed.

(** *** The inverse operation after a forward match *)

Lemma append_String (c : ascii) (l rest : string) :
  String.append (String c l) rest = String c (String.append l rest).
Proof. reflexivity. Qed.

Lemma append_inj_l (pre a b : string) :
  String.append pre a = String.append pre b -> a = b.
Proof.
  induction pre as [|c pre IH]; [intros H; exact H|].
  rewrite !append_String. intros H. injection H as H. apply IH, H.
Qed.

Lemma length_append (a b : string) :
  String.length (String.append a b) = (String.length a + String.length b)%nat.
Proof.
  induction a as [|c a IH]; [reflexivity|]. rewrite append_String. simpl. rewrite IH. reflexivity.
Qed.

Lemma append_inj_r (a : string) : forall b post,
  String.append a post = String.append b post -> a = b.
Proof.
  induction a as [|c a IH]; intros b post H.
  - destruct b as [|d b]; [reflexivity|].
    apply (f_equal String.length) in H. rewrite !length_append in H. simpl in H. lia.
  - destruct b as [|d b].
    + apply (f_equal String.length) in H. rewrite !length_append in H. simpl in H. lia.
    + rewrite !append_String in H. injection H as -> H. f_equal. apply (IH _ _ H).
Qed.

Lemma splits_complete (v r : string) : (v, r) ∈ splits (String.append v r).
Proof.
  induction v as [|c v IH].
  - simpl. destruct r as [|d r].
    + apply list_elem_of_singleton. reflexivity.
    + simpl. apply elem_of_app. right. apply list_elem_of_singleton. reflexivity.
  - rewrite append_String. simpl. apply elem_of_app. left.
    apply list_elem_of_fmap. exists (v, r). split; [reflexivity|exact IH].
Qed.

Lemma first_success_is_Some {A B : Type} (f : A -> option B) (l : list A) (x : A) :
  x ∈ l -> is_Some (f x) -> is_Some (first_success f l).
Proof.
  induction l as [|y l IH]; intros Hin Hx; [apply elem_of_nil in Hin; destruct Hin|].
  simpl. destruct (f y) as [z|] eqn:Hy; [eexists; reflexivity|].
  apply elem_of_cons in Hin as [->|Hin]; [rewrite Hy in Hx; destruct Hx; discriminate|].
  apply IH; assumption.
Qed.

(** The values of a tag set that go into a pattern can be read back from what
    they interpolate to, as long as each is a value its placeholder may
    capture: the match succeeds (with these values or with others). *)
Lemma match_segments_complete (regex : gmap string (string -> bool)) (segs : list segment)
    (tags : TagSet) : forall s,
  interpolate segs tags = Some s ->
  (forall t v, t ∈ tags_of segs -> tags !! t = Some v -> tag_regex regex t v = true) ->
  is_Some (match_segments regex segs s).
Proof.
  induction segs as [|[l|t] segs IH]; intros s Hs Hre; simpl in Hs.
  - injection Hs as <-. simpl. eexists. reflexivity.
  - destruct (interpolate segs tags) as [rest|] eqn:Hrest; [|discriminate].
    simpl in Hs. injection Hs as <-. simpl. rewrite strip_prefix_append.
    apply IH; [reflexivity|]. intros t v Ht. apply Hre. exact Ht.
  - destruct (tags !! t) as [v|] eqn:Hv; [|discriminate].
    destruct (interpolate segs tags) as [rest|] eqn:Hrest; [|discriminate].
    simpl in Hs. injection Hs as <-. simpl.
    apply (first_success_is_Some _ _ (v, rest)); [apply splits_complete|]. simpl.
    rewrite (Hre t v) by (try apply elem_of_cons; auto).
    destruct (IH rest eq_refl) as [caps Hcaps].
    { intros t' v' Ht'. apply Hre. simpl. apply elem_of_cons. auto. }
    rewrite Hcaps. eexists. reflexivity.
Qed.

(** Every captured value is one its placeholder may capture. *)
Lemma match_segments_regex (regex : gmap string (string -> bool)) (segs : list segment) :
  forall s captures,
  match_segments regex segs s = Some captures ->
  forall t v, (t, v) ∈ captures -> tag_regex regex t v = true.
Proof.
  induction segs as [|[l|t] segs IH]; intros s captures H t' v' Hin; simpl in H.
  - case_decide; [|discriminate]. injection H as <-. apply elem_of_nil in Hin. destruct Hin.
  - destruct (strip_prefix l s) as [rest|]; [|discriminate]. apply (IH _ _ H _ _ Hin).
  - apply first_success_Some in H as ([v r] & _ & H). simpl in H.
    destruct (tag_regex regex t v) eqn:Hre; [|discriminate].
    destruct (match_segments regex segs r) as [captures'|] eqn:Hrest; [|discriminate].
    simpl in H. injection H as <-.
    apply elem_of_cons in Hin as [Heq|Hin]; [injection Heq as -> ->; exact Hre|].
    apply (IH _ _ Hrest _ _ Hin).
Qed.

Lemma interpolate_lookup (segs : list segment) (tags : TagSet) : forall s,
  interpolate segs tags = Some s -> forall t, t ∈ tags_of segs -> is_Some (tags !! t).
Proof.
  induction segs as [|[l|t] segs IH]; intros s Hs t' Ht'; simpl in Hs, Ht'.
  - apply elem_of_nil in Ht'. destruct Ht'.
  - destruct (interpolate segs tags) as [rest|] eqn:Hrest; [|discriminate].
    apply (IH rest eq_refl _ Ht').
  - destruct (tags !! t) as [v|] eqn:Hv; [|discriminate].
    destruct (interpolate segs tags) as [rest|] eqn:Hrest; [|discriminate].
    apply elem_of_cons in Ht' as [->|Ht']; [rewrite Hv; eexists; reflexivity|].
    apply (IH rest eq_refl _ Ht').
Qed.

Lemma interpolate_is_Some (segs : list segment) (tags : TagSet) :
  (forall t, t ∈ tags_of segs -> is_Some (tags !! t)) -> is_Some (interpolate segs tags).
Proof.
  induction segs as [|[l|t] segs IH]; intros Hall; simpl.
  - eexists. reflexivity.
  - destruct IH as [rest Hrest]; [exact Hall|]. rewrite Hrest. eexists. reflexivity.
  - destruct (Hall t) as [v Hv]; [simpl; apply elem_of_cons; auto|]. rewrite Hv.
    destruct IH as [rest Hrest].
    { intros t' Ht'. apply Hall. simpl. apply elem_of_cons. auto. }
    rewrite Hrest. eexists. reflexivity.
Qed.

(** A pattern with one placeholder interpolates to the value of the
    placeholder between two fixed strings. *)
Lemma interpolate_one_tag (segs : list segment) : forall t,
  tags_of segs = [t] ->
  exists pre post, forall (tags : TagSet) v,
    tags !! t = Some v ->
    interpolate segs tags = Some (String.append pre (String.append v post)).
Proof.
  induction segs as [|[l|t'] segs IH]; intros t Htags; simpl in Htags.
  - discriminate.
  - destruct (IH t Htags) as (pre & post & H). exists (String.append l pre), post.
    intros tags v Hv. simpl. rewrite (H tags v Hv). simpl.
    f_equal. clear. induction l as [|c l IHl]; [reflexivity|].
    rewrite !append_String. f_equal. exact IHl.
  - injection Htags as -> Hrest. exists EmptyString.
    assert (Hlit : forall tags : TagSet, exists post, interpolate segs tags = Some post /\
                     forall tags' : TagSet, interpolate segs tags' = Some post).
    { clear -Hrest. induction segs as [|[l|t'] segs IH]; intros tags; simpl in *.
      - exists EmptyString. split; reflexivity.
      - destruct (IH Hrest tags) as (post & H1 & H2). exists (String.append l post).
        split; [rewrite H1; reflexivity|]. intros tags'. rewrite H2. reflexivity.
      - discriminate. }
    destruct (Hlit ∅) as (post & _ & Hpost). exists post. intros tags v Hv. simpl.
    rewrite Hv, Hpost. reflexivity.
Qed.

(** After a forward match, the metric key can be matched against the key
    pattern and the pattern can be filled in: the inverse operation has what
    it needs. *)
Lemma ToGraphiteName_succeeds (rule : RawRule) (R : Rule) (input : string) (m : TaggedMetric) :
  Compile rule = inr R ->
  MatchRule R input = Some m ->
  exists name, ToGraphiteName R m = inr name.
Proof.
  intros HR Hm.
  apply Compile_inr in HR as (_ & Hnd & Hndk & _ & Hkt).
  unfold MatchRule in Hm.
  destruct (match_segments _ (graphitePattern R) input) as [captures|] eqn:Hcap; [|discriminate].
  destruct (interpolate (metricKeyPattern R) (list_to_map captures)) as [key|] eqn:Hkey;
    [|discriminate].
  injection Hm as <-. unfold ToGraphiteName. simpl.
  destruct (match_segments_sound _ _ _ _ Hcap) as [Htags _].
  destruct (match_segments_complete (Regex (raw R)) _ _ _ Hkey) as [extracted Hext].
  { intros t v _ Hv. apply elem_of_list_to_map_2 in Hv.
    apply (match_segments_regex _ _ _ _ Hcap _ _ Hv). }
  rewrite Hext.
  destruct (match_segments_sound _ _ _ _ Hext) as [Hktags _].
  destruct (interpolate_is_Some (graphitePattern R)
              (list_to_map extracted ∪ foldl (fun ts t => delete t ts) (list_to_map captures)
                 (metricKeyTags R))) as [name Hname].
  { intros t Ht. apply lookup_union_is_Some.
    destruct (decide (t ∈ extracted.*1)) as [Hin|Hnin].
    - left. destruct ((list_to_map extracted : TagSet) !! t) as [v|] eqn:Hv; [eexists; reflexivity|].
      apply not_elem_of_list_to_map_2 in Hv. contradiction.
    - right. rewrite foldl_delete_lookup, decide_False by (rewrite Hkt, <- Hktags; exact Hnin).
      destruct ((list_to_map captures : TagSet) !! t) as [v|] eqn:Hv; [eexists; reflexivity|].
      apply not_elem_of_list_to_map_2 in Hv. rewrite Htags in Hv. contradiction. }
  rewrite Hname. eexists. reflexivity.
Qed.

(** With at most one placeholder in the metric key pattern, the metric key
    gives back the value that went into it. *)
Lemma key_recovers_one_tag (rule : RawRule) (R : Rule) (input : string) (m : TaggedMetric) :
  Compile rule = inr R ->
  MatchRule R input = Some m ->
  (length (metricKeyTags R) <= 1)%nat ->
  key_recovers R input m.
Proof.
  intros HR Hm Hone.
  destruct (ToGraphiteName_succeeds rule R input m HR Hm) as [name Hname].
  apply Compile_inr in HR as (_ & Hnd & Hndk & _ & Hkt).
  unfold MatchRule in Hm.
  destruct (match_segments _ (graphitePattern R) input) as [captures|] eqn:Hcap; [|discriminate].
  destruct (interpolate (metricKeyPattern R) (list_to_map captures)) as [key|] eqn:Hkey;
    [|discriminate].
  injection Hm as <-. unfold ToGraphiteName in Hname. simpl in Hname.
  destruct (match_segments _ (metricKeyPattern R) key) as [extracted|] eqn:Hext; [|discriminate].
  exists captures, extracted. split; [exact Hcap|]. split; [exact Hext|].
  destruct (match_segments_sound _ _ _ _ Hcap) as [Htags _].
  destruct (match_segments_sound _ _ _ _ Hext) as [Hktags Hkint].
  rewrite Hkt in Hone.
  destruct (tags_of (metricKeyPattern R)) as [|t [|t' rest]] eqn:Hkeytags; simpl in Hone; [| |lia].
  - destruct extracted; [|discriminate]. intros p Hp. apply elem_of_nil in Hp. destruct Hp.
  - destruct extracted as [|[t0 v'] [|? ?]]; try discriminate.
    simpl in Hktags. injection Hktags as ->.
    destruct (interpolate_lookup _ _ _ Hkey t) as [v Hv]; [rewrite Hkeytags; apply elem_of_cons; auto|].
    destruct (interpolate_one_tag _ t Hkeytags) as (pre & post & Hone_tag).
    pose proof (Hone_tag (list_to_map captures) v Hv) as H1. rewrite Hkey in H1.
    pose proof (Hkint {[ t := v' ]}) as H2.
    rewrite (Hone_tag {[ t := v' ]} v') in H2 by apply lookup_singleton_eq.
    specialize (H2 ltac:(intros t1 v1 Hin; apply list_elem_of_singleton in Hin;
                         injection Hin as -> ->; apply lookup_singleton_eq)).
    injection H1 as H1. injection H2 as H2. rewrite H1 in H2.
    apply append_inj_l, append_inj_r in H2. subst v'.
    intros p Hp. apply list_elem_of_singleton in Hp. subst p.
    apply elem_of_list_to_map_2 in Hv. exact Hv.
Qed.

(** C1, as amended.  For a compiled rule and a name that it matches, the
    inverse operation always succeeds.  It returns the name when the metric key
    pattern has at most one placeholder, and more generally when matching the
    metric key against the key pattern recovers the values captured from the
    name. *)
Theorem rule_round_trip (rule : RawRule) (R : Rule) (input : string) (m : TaggedMetric) :
  Compile rule = inr R ->
  MatchRule R input = Some m ->
  (exists name, ToGraphiteName R m = inr name) /\
  ((length (metricKeyTags R) <= 1)%nat -> ToGraphiteName R m = inr input) /\
  (key_recovers R input m -> ToGraphiteName R m = inr input).
Proof.
  intros HR Hm. split; [apply (ToGraphiteName_succeeds rule R input); assumption|]. split.
  - intros Hone. apply (ToGraphiteName_MatchRule rule); [assumption..|].
    apply (key_recovers_one_tag rule); assumption.
  - intros Hrec. apply (ToGraphiteName_MatchRule rule); assumption.
Qed.

(** The rule and the name of [TestMatchRule_FilterTag]: the metric key
    [test-metric.barValue] gives back [bar = barValue]. *)
Lemma rule_round_trip_witness :
  Compile filter_tag_raw = inr filter_tag_rule /\
  MatchRule filter_tag_rule "prefix.fooValue.barValue"
    = Some {| tm_MetricKey := "test-metric.barValue"; tm_TagSet := {[ "foo" := "fooValue" ]} |} /\
  ToGraphiteName filter_tag_rule
    {| tm_MetricKey := "test-metric.barValue"; tm_TagSet := {[ "foo" := "fooValue" ]} |}
    = inr "prefix.fooValue.barValue"%string.
Proof.
  assert (HR : Compile filter_tag_raw = inr filter_tag_rule) by (vm_compute; reflexivity).
  assert (Hm : MatchRule filter_tag_rule "prefix.fooValue.barValue"
    = Some {| tm_MetricKey := "test-metric.barValue"; tm_TagSet := {[ "foo" := "fooValue" ]} |})
    by (vm_compute; reflexivity).
  split; [exact HR|]. split; [exact Hm|].
  apply (proj1 (proj2 (rule_round_trip filter_tag_raw filter_tag_rule _ _ HR Hm))).
  vm_compute. lia.
Defined.

(** C1, as stated, fails: the rule with pattern [%a%.%b%] and metric key
    [%a%-%b%] matches the name [x.y-z] with [a = x] and [b = y-z], the metric
    key is [x-y-z], and the inverse operation reads it as [a = x-y] and
    [b = z]: it returns [x-y.z]. *)
Lemma rule_round_trip_fails :
  ~ (forall rule R input m,
       Compile rule = inr R -> MatchRule R input = Some m -> ToGraphiteName R m = inr input).
Proof.
  intros H.
  specialize (H dashed_key_raw dashed_key_rule "x.y-z"%string
                {| tm_MetricKey := "x-y-z"; tm_TagSet := ∅ |}).
  assert (Hback : ToGraphiteName dashed_key_rule {| tm_MetricKey := "x-y-z"; tm_TagSet := ∅ |}
                  = inr "x-y.z"%string) by (vm_compute; reflexivity).
  rewrite Hback in H. discriminate H; vm_compute; reflexivity.
Qed.

(** The tests of the rule engine ([TestCompile_Error], [TestMatchRule_Simple],
    [TestToGraphiteName_Error]) on the model. *)
Example rule_tests :
  Compile {| Pattern := "prefix.%foo%"; MetricKeyPattern := ""; Regex := ∅ |} = inl InvalidMetricKey /\
  Compile {| Pattern := "prefix.%foo%abc%"; MetricKeyPattern := "test-metric"; Regex := ∅ |}
    = inl InvalidPattern /\
  Compile {| Pattern := ""; MetricKeyPattern := "test-metric"; Regex := ∅ |} = inl InvalidPattern /\
  Compile {| Pattern := "prefix.%foo%.%foo%"; MetricKeyPattern := "test-metric"; Regex := ∅ |}
    = inl InvalidPattern /\
  Compile {| Pattern := "prefix.%foo%.abc.%%"; MetricKeyPattern := "test-metric"; Regex := ∅ |}
    = inl InvalidPattern /\
  MatchRule filter_tag_rule "prefix.abc" = None /\
  ToGraphiteName filter_tag_rule {| tm_MetricKey := "test-metric.b"; tm_TagSet := ∅ |}
    = inl MissingTag /\
  ToGraphiteName filter_tag_rule {| tm_MetricKey := "other"; tm_TagSet := {[ "foo" := "f" ]} |}
    = inl CannotInterpolate.
Proof. repeat split; vm_compute; reflexivity. Qed.

End RuleFacts.
(** ** Package [transform]: the other transforms, and failures *)

Section TransformFillFacts.
Import Api Function Transform TransformFill Float64.

Lemma fmap_seq_lookup_total {A B : Type} `{Inhabited A} (f : A -> B) (l : list A) :
  (fun i => f (l !!! i)) <$> seq 0 (length l) = f <$> l.
Proof.
  apply list_eq. intros i. destruct (l !! i) as [x|] eqn:Hx.
  - pose proof (lookup_lt_Some _ _ _ Hx) as Hi.
    rewrite (lookup_fmap_seq (fun i => f (l !!! i))) by assumption.
    rewrite (list_lookup_fmap f l), Hx, (list_lookup_total_correct _ _ _ Hx). reflexivity.
  - pose proof (lookup_ge_None_1 _ _ Hx) as Hi.
    rewrite (list_lookup_fmap f l), Hx. simpl.
    apply lookup_ge_None_2. rewrite length_fmap, length_seq. exact Hi.
Qed.

Lemma IsNaN_eq_nan (x : float) : IsNaN x = true -> x = nan.
Proof.
  intros H. apply IsNaN_Prim2SF in H. rewrite <- (SF2Prim_Prim2SF x), H. reflexivity.
Qed.

Lemma MapMaker_eq (f : float -> float) (values : list float) (parameters : list Value)
    (scale : float) :
  MapMaker f values parameters scale = Ok (f <$> values).
Proof.
  unfold MapMaker. f_equal.
  rewrite <- (length_make_floats (length values)) at 1.
  rewrite (for_range_pointwise_full (fun i => f (values !!! i))) by reflexivity.
  rewrite length_make_floats. apply fmap_seq_lookup_total.
Qed.

(** X1. [MapMaker(f)] is a transform that never fails and ignores its
    parameters and the scale: it returns as many values as it is given, slot
    [i] holding [f(values[i])]; and mapping [g] over the result of mapping [f]
    is mapping their composition. *)
Theorem MapMaker_compose (f g : float -> float) (values : list float)
    (parameters parameters' : list Value) (scale scale' : float) :
  exists mid,
    MapMaker f values parameters scale = Ok mid /\
    length mid = length values /\
    (forall i x, values !! i = Some x -> mid !! i = Some (f x)) /\
    MapMaker g mid parameters' scale' = MapMaker (fun x => g (f x)) values parameters scale.
Proof.
  exists (f <$> values). split; [apply MapMaker_eq|].
  split; [apply length_fmap|]. split.
  - intros i x Hx. rewrite list_lookup_fmap, Hx. reflexivity.
  - rewrite !MapMaker_eq, <- list_fmap_compose. reflexivity.
Qed.

Lemma Default_loop (values : list float) (d : float) :
  for_range (length values) (Default_body values d) (make_floats (length values))
  = (fun x => if IsNaN x then d else x) <$> values.
Proof.
  rewrite <- (length_make_floats (length values)) at 1.
  rewrite (for_range_pointwise_full (fun i => if IsNaN (values !!! i) then d else values !!! i)).
  - rewrite length_make_floats. apply (fmap_seq_lookup_total (fun x => if IsNaN x then d else x)).
  - intros i r _. unfold Default_body. destruct (IsNaN (values !!! i)); reflexivity.
Qed.

(** X2. [Default] has three outcomes.  Without a parameter it panics, on the
    read of [parameters[0]].  With a first parameter that is not a scalar it
    returns the error of the conversion.  With the scalar [d] it returns as
    many values as it is given, every NaN replaced by [d] and every other value
    kept; so the result holds no NaN when [d] is not NaN.  Later parameters
    and the scale are ignored. *)
Theorem Default_spec (values : list float) (parameters : list Value) (scale : float) :
  (parameters = [] ->
     Default values parameters scale = Aggregate.Panic Aggregate.index_out_of_range) /\
  (forall p rest, parameters = p :: rest -> (forall d, p <> ScalarValue d) ->
     Default values parameters scale = Aggregate.Done (Err not_a_scalar)) /\
  (forall d rest, parameters = ScalarValue d :: rest ->
     exists out,
       Default values parameters scale = Aggregate.Done (Ok out) /\
       length out = length values /\
       (forall i x, values !! i = Some x -> out !! i = Some (if IsNaN x then d else x)) /\
       (IsNaN d = false -> Forall (fun v => IsNaN v = false) out)).
Proof.
  split; [|split].
  - intros ->. reflexivity.
  - intros p rest -> Hp. unfold Default. simpl.
    destruct p as [d| | |]; [destruct (Hp d eq_refl)|reflexivity..].
  - intros d rest ->. exists ((fun x => if IsNaN x then d else x) <$> values).
    unfold Default. simpl. rewrite Default_loop.
    split; [reflexivity|]. split; [apply length_fmap|]. split.
    + intros i x Hx. rewrite list_lookup_fmap, Hx. reflexivity.
    + intros Hd. apply Forall_fmap, Forall_forall. intros x _. simpl.
      destruct (IsNaN x) eqn:Hx; assumption.
Qed.

(** *** [NaNKeepLast] *)

Lemma NaNKeepLast_loop (values : list float) (k : nat) :
  (k <= length values)%nat ->
  for_range k (NaNKeepLast_body values) (make_floats (length values)) =
  (kept_at values <$> seq 0 k) ++ replicate (length values - k) 0%float.
Proof.
  induction k as [|k IH]; intros Hk.
  - unfold for_range. simpl. rewrite Nat.sub_0_r. reflexivity.
  - rewrite for_range_S, IH by lia. unfold NaNKeepLast_body. cbv zeta.
    set (pre := kept_at values <$> seq 0 k).
    assert (Hpre : length pre = k) by (unfold pre; rewrite length_fmap, length_seq; reflexivity).
    replace (length values - k)%nat with (S (length values - S k)) by lia.
    simpl replicate.
    assert (Hins : forall v x rest, <[k := v]> (pre ++ x :: rest) = pre ++ v :: rest).
    { intros v x rest. replace k with (length pre + 0)%nat at 1 by lia.
      rewrite insert_app_r. reflexivity. }
    assert (Hget : forall v rest, (pre ++ v :: rest) !!! k = v).
    { intros v rest. apply list_lookup_total_correct.
      rewrite lookup_app_r by lia. rewrite Hpre, Nat.sub_diag. reflexivity. }
    rewrite Hins, Hget.
    assert (Hlast : (if IsNaN (values !!! k) && (0 <? k)%nat
                     then <[k := (pre ++ values !!! k :: replicate (length values - S k) 0%float)
                                   !!! (k - 1)%nat]>
                            (pre ++ values !!! k :: replicate (length values - S k) 0%float)
                     else pre ++ values !!! k :: replicate (length values - S k) 0%float)
                    = pre ++ kept_at values k :: replicate (length values - S k) 0%float).
    { destruct k as [|j].
      - rewrite andb_false_r. reflexivity.
      - simpl kept_at. destruct (IsNaN (values !!! S j)); simpl andb; cbv iota; [|reflexivity].
        rewrite Hins. do 2 f_equal.
        replace (S j - 1)%nat with j by lia.
        apply list_lookup_total_correct. rewrite lookup_app_l by lia.
        unfold pre. apply lookup_fmap_seq. lia. }
    rewrite Hlast. rewrite seq_S, fmap_app. simpl. rewrite <- app_assoc. reflexivity.
Qed.

Lemma NaNKeepLast_eq (values : list float) (parameters : list Value) (scale : float) :
  NaNKeepLast values parameters scale = Ok (kept_at values <$> seq 0 (length values)).
Proof.
  unfold NaNKeepLast. rewrite NaNKeepLast_loop by lia.
  rewrite Nat.sub_diag. simpl. rewrite app_nil_r. reflexivity.
Qed.

Lemma non_nan_app (l1 l2 : list float) : non_nan (l1 ++ l2) = non_nan l1 ++ non_nan l2.
Proof. unfold non_nan. apply filter_app. Qed.

Lemma kept_at_last_seen (values : list float) (i : nat) :
  (i < length values)%nat -> kept_at values i = last_seen values (S i).
Proof.
  unfold last_seen. induction i as [|i IH]; intros Hi.
  - destruct values as [|x values]; [simpl in Hi; lia|]. simpl kept_at.
    change ((x :: values) !!! 0%nat) with x. simpl take. rewrite take_0.
    unfold non_nan. rewrite filter_cons, filter_nil.
    case_decide as Hx; simpl; [reflexivity|].
    apply IsNaN_eq_nan. destruct (IsNaN x); congruence.
  - destruct (lookup_lt_is_Some_2 values (S i) Hi) as [x Hx].
    rewrite (take_S_r _ _ _ Hx), non_nan_app.
    simpl kept_at. rewrite (list_lookup_total_correct _ _ _ Hx).
    unfold non_nan at 2. rewrite filter_cons, filter_nil.
    destruct (IsNaN x) eqn:Hnan.
    + rewrite decide_False by congruence. rewrite app_nil_r. apply IH. lia.
    + rewrite decide_True by reflexivity. rewrite last_snoc. reflexivity.
Qed.

Lemma last_non_nan (l : list float) (x : float) :
  last (non_nan l) = Some x -> IsNaN x = false.
Proof.
  intros Hl. apply last_Some_elem_of in Hl.
  unfold non_nan in Hl. apply list_elem_of_filter in Hl. tauto.
Qed.

(** X3. [NaNKeepLast] never fails and returns as many values as it is given;
    slot [i] holds the last value at or before [i] that is not NaN, and NaN
    when there is none.  So a value that is not NaN is kept, the NaNs before
    the first such value stay, and from that value on the result holds no NaN. *)
Theorem NaNKeepLast_spec (values : list float) (parameters : list Value) (scale : float) :
  exists out,
    NaNKeepLast values parameters scale = Ok out /\
    length out = length values /\
    (forall i, (i < length values)%nat -> out !! i = Some (last_seen values (S i))) /\
    (forall i x, values !! i = Some x -> IsNaN x = false -> out !! i = Some x) /\
    (forall i, (i < length values)%nat ->
       Forall (fun x => IsNaN x = true) (take (S i) values) -> out !! i = Some NaN) /\
    (forall i j x y, (i <= j)%nat -> values !! i = Some x -> IsNaN x = false ->
       out !! j = Some y -> IsNaN y = false).
Proof.
  exists (kept_at values <$> seq 0 (length values)).
  split; [apply NaNKeepLast_eq|].
  split; [rewrite length_fmap, length_seq; reflexivity|].
  assert (Hout : forall i, (i < length values)%nat ->
            (kept_at values <$> seq 0 (length values)) !! i = Some (last_seen values (S i))).
  { intros i Hi. rewrite lookup_fmap_seq by assumption. f_equal.
    apply kept_at_last_seen. assumption. }
  split; [exact Hout|]. split; [|split].
  - intros i x Hx Hnan. rewrite Hout by (apply lookup_lt_Some in Hx; exact Hx).
    unfold last_seen. rewrite (take_S_r _ _ _ Hx), non_nan_app.
    unfold non_nan at 2. rewrite filter_cons, filter_nil, decide_True by assumption.
    rewrite last_snoc. reflexivity.
  - intros i Hi Hall. rewrite Hout by assumption. unfold last_seen.
    rewrite non_nan_all_nan by assumption. reflexivity.
  - intros i j x y Hij Hx Hnan Hy.
    assert (Hj : (j < length values)%nat).
    { apply lookup_lt_Some in Hy. rewrite length_fmap, length_seq in Hy. exact Hy. }
    rewrite Hout in Hy by assumption. injection Hy as <-. unfold last_seen.
    destruct (last (non_nan (take (S j) values))) as [z|] eqn:Hlast.
    + simpl. apply (last_non_nan _ _ Hlast).
    + exfalso. apply last_None in Hlast.
      assert (Hin : x ∈ non_nan (take (S j) values)).
      { unfold non_nan. apply list_elem_of_filter. split; [assumption|].
        apply list_elem_of_lookup. exists i. rewrite lookup_take_lt by lia. exact Hx. }
      rewrite Hlast in Hin. apply elem_of_nil in Hin. exact Hin.
Qed.

Lemma kept_at_idempotent (values : list float) (i : nat) :
  (i < length values)%nat ->
  kept_at (kept_at values <$> seq 0 (length values)) i = kept_at values i.
Proof.
  set (out := kept_at values <$> seq 0 (length values)).
  assert (Hout : forall j, (j < length values)%nat -> out !!! j = kept_at values j).
  { intros j Hj. apply list_lookup_total_correct. unfold out. apply lookup_fmap_seq. exact Hj. }
  induction i as [|i IH]; intros Hi; simpl kept_at.
  - rewrite Hout by assumption. reflexivity.
  - rewrite !Hout by assumption. simpl kept_at.
    destruct (IsNaN (values !!! S i)) eqn:Hv.
    + destruct (IsNaN (kept_at values i)); [apply IH; lia|reflexivity].
    + rewrite Hv. reflexivity.
Qed.

(** X4. [NaNKeepLast] is idempotent: applied to its own result, it returns
    that result. *)
Theorem NaNKeepLast_idempotent (values : list float) (parameters parameters' : list Value)
    (scale scale' : float) :
  exists out,
    NaNKeepLast values parameters scale = Ok out /\
    NaNKeepLast out parameters' scale' = Ok out.
Proof.
  exists (kept_at values <$> seq 0 (length values)).
  split; [apply NaNKeepLast_eq|].
  rewrite NaNKeepLast_eq. f_equal. rewrite length_fmap, length_seq.
  apply list_eq. intros i. destruct (decide (i < length values)%nat) as [Hi|Hi].
  - rewrite !lookup_fmap_seq by assumption. f_equal. apply kept_at_idempotent. exact Hi.
  - rewrite !lookup_ge_None_2; [reflexivity| |]; rewrite length_fmap, length_seq; lia.
Qed.

(** *** [Integral] and [Rate] *)

(** The state of [Integral]'s loop after [k] turns. *)
Lemma Integral_loop (values : list float) (scale : float) (k : nat) :
  (k <= length values)%nat ->
  for_range k (Integral_body values scale) (0%float, make_floats (length values)) =
  (foldl cumulative_step 0%float (take k values),
   ((fun c => (c * scale)%float) <$> running_sums 0%float (take k values))
     ++ replicate (length values - k) 0%float).
Proof.
  induction k as [|k IH]; intros Hk.
  - unfold for_range. simpl. rewrite Nat.sub_0_r. reflexivity.
  - rewrite for_range_S, IH by lia. unfold Integral_body at 1.
    destruct (lookup_lt_is_Some_2 values k ltac:(lia)) as [x Hx].
    rewrite (take_S_r _ _ _ Hx), foldl_app, running_sums_snoc. simpl foldl.
    rewrite (list_lookup_total_correct _ _ _ Hx).
    fold (cumulative_step (foldl cumulative_step 0%float (take k values)) x).
    f_equal.
    replace (length values - k)%nat with (S (length values - S k)) by lia.
    simpl replicate.
    replace k with (length ((fun c => (c * scale)%float) <$> running_sums 0%float (take k values)) + 0)%nat at 1
      by (rewrite length_fmap, length_running_sums, length_take; lia).
    rewrite insert_app_r. simpl. rewrite fmap_app, <- app_assoc. reflexivity.
Qed.

(** X5. [Integral] is [Cumulative] scaled: both never fail and return as many
    values as they are given, and slot [i] of [Integral] is slot [i] of
    [Cumulative], the running sum of the values that are not NaN, multiplied
    by the scale.  The result may hold NaN although the running sum skips the
    NaN values: the sum of [+Inf] and [-Inf] is NaN. *)
Theorem Integral_Cumulative (values : list float) (parameters parameters' : list Value)
    (scale scale' : float) :
  (exists sums out,
     Cumulative values parameters' scale' = Ok sums /\
     Integral values parameters scale = Ok out /\
     length out = length values /\
     out = (fun c => (c * scale)%float) <$> sums /\
     (forall i c, sums !! i = Some c -> out !! i = Some (c * scale)%float)) /\
  Integral [infinity; neg_infinity] parameters 1%float = Ok [infinity; NaN].
Proof.
  split; [|vm_compute; reflexivity].
  exists (running_sums 0%float values), ((fun c => (c * scale)%float) <$> running_sums 0%float values).
  split; [apply Cumulative_eq|]. split.
  - unfold Integral. rewrite Integral_loop by lia. simpl snd.
    rewrite firstn_all, Nat.sub_diag. simpl. rewrite app_nil_r. reflexivity.
  - split; [rewrite length_fmap; apply length_running_sums|]. split; [reflexivity|].
    intros i c Hc. rewrite list_lookup_fmap, Hc. reflexivity.
Qed.

(** X6. [Rate] never returns a negative value: no slot of its result is
    less than 0 (a slot may hold NaN, which is not less than 0). *)
Theorem Rate_never_negative (values : list float) (parameters : list Value) (scale : float) :
  exists r,
    Rate values parameters scale = Ok r /\
    forall i x, r !! i = Some x -> (x <? 0)%float = false.
Proof.
  exists (rate_at values scale <$> seq 0 (length values)).
  split; [apply Rate_eq|]. intros i x Hx.
  apply list_lookup_fmap_Some in Hx as (j & -> & _). unfold rate_at.
  destruct (derivative_at values scale j <? 0)%float eqn:Hd; [reflexivity|exact Hd].
Qed.

(** The vectors of [TestApplyTransformNaN] under [Default] and [NaNKeepLast],
    a vector that starts with NaN, and a map. *)
Example TransformFill_tests :
  Default [0; 1; nan; 3; 4; 5]%float [ScalarValue 17] 30%float
    = Aggregate.Done (Ok [0; 1; 17; 3; 4; 5]%float) /\
  Default [2; nan; nan; nan; 3; 3]%float [ScalarValue 17] 30%float
    = Aggregate.Done (Ok [2; 17; 17; 17; 3; 3]%float) /\
  Default [0; nan]%float [StringValue "x"] 30%float = Aggregate.Done (Err not_a_scalar) /\
  Default [0; nan]%float [] 30%float = Aggregate.Panic Aggregate.index_out_of_range /\
  NaNKeepLast [0; 1; nan; 3; 4; 5]%float [] 30%float = Ok [0; 1; 1; 3; 4; 5]%float /\
  NaNKeepLast [2; nan; nan; nan; 3; 3]%float [] 30%float = Ok [2; 2; 2; 2; 3; 3]%float /\
  NaNKeepLast [nan; nan; 1; nan]%float [] 30%float = Ok [nan; nan; 1; 1]%float /\
  MapMaker (fun x => (- x)%float) [0; 1; 2]%float [] 30%float = Ok [-0; -1; -2]%float.
Proof. repeat split; vm_compute; reflexivity. Qed.

(** *** The failures of [ApplyTransform] *)

Lemma ApplyTransform_loop_Err (sl : SeriesList) (t : transform) (parameters : list Value)
    (pre : list Timeseries) : forall (s : Timeseries) (post : list Timeseries) (e : error) i r,
  Forall (transforms sl t parameters) pre ->
  t (ts_Values s) parameters (transform_scale sl) = Err e ->
  for_each_from i (pre ++ s :: post) (ApplyTransform_step sl t parameters) (Ok r) = Err e.
Proof.
  induction pre as [|p pre IH]; intros s post e i r Hpre Hs; cbn [app for_each_from].
  - set (st := ApplyTransform_step sl t parameters i s (Ok r)).
    assert (Hst : st = match transformTimeseries s t parameters (transform_scale sl) with
                       | Err e => Err e
                       | Ok s1 => Ok (<[i := s1]> r)
                       end) by reflexivity.
    rewrite Hst. unfold transformTimeseries. rewrite Hs. apply ApplyTransform_step_Err.
  - apply Forall_cons in Hpre as [[v Hp] Hpre].
    set (st := ApplyTransform_step sl t parameters i p (Ok r)).
    assert (Hst : st = match transformTimeseries p t parameters (transform_scale sl) with
                       | Err e => Err e
                       | Ok s1 => Ok (<[i := s1]> r)
                       end) by reflexivity.
    rewrite Hst. unfold transformTimeseries. rewrite Hp. apply IH; assumption.
Qed.

Lemma ApplyTransform_loop_Ok (sl : SeriesList) (t : transform) (parameters : list Value)
    (l : list Timeseries) : forall i r,
  Forall (transforms sl t parameters) l ->
  exists out, for_each_from i l (ApplyTransform_step sl t parameters) (Ok r) = Ok out.
Proof.
  induction l as [|p l IH]; intros i r Hl; cbn [for_each_from].
  - exists r. reflexivity.
  - apply Forall_cons in Hl as [[v Hp] Hl].
    set (st := ApplyTransform_step sl t parameters i p (Ok r)).
    assert (Hst : st = match transformTimeseries p t parameters (transform_scale sl) with
                       | Err e => Err e
                       | Ok s1 => Ok (<[i := s1]> r)
                       end) by reflexivity.
    rewrite Hst. unfold transformTimeseries. rewrite Hp. apply IH; assumption.
Qed.

(** X7. [ApplyTransform] succeeds when the transform succeeds on every series
    of the list, and otherwise fails with the error of the first series, in
    the order of the list, on which the transform fails; the series after it
    are not looked at. *)
Theorem ApplyTransform_first_error (sl : SeriesList) (t : transform) (parameters : list Value) :
  (Forall (transforms sl t parameters) (sl_Series sl) ->
     exists out, ApplyTransform sl t parameters = Ok out) /\
  (forall pre s post e,
     sl_Series sl = pre ++ s :: post ->
     Forall (transforms sl t parameters) pre ->
     t (ts_Values s) parameters (transform_scale sl) = Err e ->
     ApplyTransform sl t parameters = Err e).
Proof.
  split.
  - intros Hall. unfold ApplyTransform, for_each.
    destruct (ApplyTransform_loop_Ok sl t parameters (sl_Series sl) 0
                (replicate (length (sl_Series sl))
                   {| ts_Values := []; ts_TagSet := NewTagSet |}) Hall) as [out Hout].
    rewrite Hout. eexists. reflexivity.
  - intros pre s post e Hsl Hpre Hs. unfold ApplyTransform, for_each. cbv zeta.
    pose proof (ApplyTransform_loop_Err sl t parameters pre s post e 0
                  (replicate (length (sl_Series sl))
                     {| ts_Values := []; ts_TagSet := NewTagSet |}) Hpre Hs) as Hrun.
    rewrite <- Hsl in Hrun. rewrite Hrun. reflexivity.
Qed.

End TransformFillFacts.

(** ** Package [aggregate]: series of different lengths, and no tags *)

Section RaggedFacts.
Import Api Aggregate.

Lemma timeSlice_loop_short (i : nat) (lst : list Timeseries) : forall j timeSlice,
  Exists (fun m => (length (ts_Values m) <= i)%nat) lst ->
  timeSlice_loop lst i j timeSlice = Panic index_out_of_range.
Proof.
  induction lst as [|m lst IH]; intros j timeSlice Hex; [inversion Hex|].
  simpl. destruct (ts_Values m !! i) as [v|] eqn:Hv; [|reflexivity].
  apply IH. apply Exists_cons in Hex as [Hm|Hex]; [|exact Hex].
  apply lookup_lt_Some in Hv. lia.
Qed.

Lemma applyAggregation_loop_ge (lst : list Timeseries) (aggregator : list float -> float)
    (N n : nat) : forall pre suffix,
  Forall (fun m => (N <= length (ts_Values m))%nat) lst ->
  (length pre + n <= N)%nat -> (n <= length suffix)%nat ->
  applyAggregation_loop lst aggregator n (length pre) (pre ++ suffix) =
  Done (pre ++ ((fun i => aggregator (column i lst)) <$> seq (length pre) n) ++ drop n suffix).
Proof.
  induction n as [|n IH]; intros pre suffix Hall HN Hlen; simpl.
  - rewrite drop_0. reflexivity.
  - rewrite timeSlice_loop_column
      by (eapply Forall_impl; [exact Hall|]; simpl; intros m Hm; lia).
    destruct suffix as [|x suffix]; simpl in Hlen; [lia|].
    replace (length pre) with (length pre + 0)%nat at 2 by lia.
    rewrite insert_app_r. simpl.
    replace (pre ++ aggregator (column (length pre) lst) :: suffix)
      with ((pre ++ [aggregator (column (length pre) lst)]) ++ suffix)
      by (rewrite <- app_assoc; reflexivity).
    replace (S (length pre)) with (length (pre ++ [aggregator (column (length pre) lst)]))
      by (rewrite length_app; simpl; lia).
    rewrite IH by (auto; rewrite ?length_app; simpl; lia).
    rewrite <- app_assoc. simpl. reflexivity.
Qed.

Lemma applyAggregation_loop_short (lst : list Timeseries) (aggregator : list float -> float)
    (n : nat) : forall i values,
  Forall (fun m => (i <= length (ts_Values m))%nat) lst ->
  Exists (fun m => (length (ts_Values m) < i + n)%nat) lst ->
  applyAggregation_loop lst aggregator n i values = Panic index_out_of_range.
Proof.
  induction n as [|n IH]; intros i values Hall Hex.
  - exfalso. apply Exists_exists in Hex as (m & Hm & Hlt).
    rewrite Forall_forall in Hall. specialize (Hall m Hm). lia.
  - simpl.
    destruct (decide (Forall (fun m => (i < length (ts_Values m))%nat) lst)) as [Hlt|Hshort].
    + rewrite timeSlice_loop_column by assumption. apply IH.
      * eapply Forall_impl; [exact Hlt|]. simpl. intros m Hm. lia.
      * eapply Exists_impl; [exact Hex|]. simpl. intros m Hm. lia.
    + apply not_Forall_Exists in Hshort; [|intros m; apply _].
      rewrite timeSlice_loop_short; [reflexivity|].
      eapply Exists_impl; [exact Hshort|]. simpl. intros m Hm. lia.
Qed.

(** X8. The result of [applyAggregation] has the number of slots of the
    group's first member.  When every member has at least as many values, the
    call returns, slot [i] holding the aggregator's value on the members'
    values at [i], and the values a longer member has past that number are
    ignored; when some member has fewer values, the call panics with an index
    out of range. *)
Theorem applyAggregation_ragged (g : group) (aggregator : list float -> float) :
  g_List g <> [] ->
  (Forall (fun m => (slot_count g <= length (ts_Values m))%nat) (g_List g) ->
     applyAggregation g aggregator = Done (aggregated aggregator g) /\
     length (ts_Values (aggregated aggregator g)) = slot_count g) /\
  (Exists (fun m => (length (ts_Values m) < slot_count g)%nat) (g_List g) ->
     applyAggregation g aggregator = Panic index_out_of_range).
Proof.
  intros Hne. unfold applyAggregation, aggregated, slot_count.
  destruct (g_List g) as [|first rest] eqn:Hg; [congruence|]. split.
  - intros Hall.
    pose proof (applyAggregation_loop_ge (first :: rest) aggregator (length (ts_Values first))
                  (length (ts_Values first)) [] (make_floats (length (ts_Values first))) Hall) as H.
    simpl length in H. simpl app in H. rewrite H by (rewrite ?length_make_floats; lia).
    rewrite drop_ge by (rewrite length_make_floats; lia). rewrite app_nil_r.
    split; [reflexivity|]. simpl. rewrite length_fmap, length_seq. reflexivity.
  - intros Hex. rewrite applyAggregation_loop_short; [reflexivity| |exact Hex].
    apply Forall_forall. intros m _. lia.
Qed.

(** A group whose second member is longer than the first, and one whose
    second member is shorter. *)
Lemma applyAggregation_ragged_witness :
  applyAggregation long_tail_group Sum
    = Done {| ts_Values := [5; 7; 9]%float; ts_TagSet := NewTagSet |} /\
  applyAggregation short_tail_group Sum = Panic index_out_of_range.
Proof.
  assert (Hlong : g_List long_tail_group <> []) by (simpl; discriminate).
  assert (Hshort : g_List short_tail_group <> []) by (simpl; discriminate).
  split.
  - destruct (applyAggregation_ragged long_tail_group Sum Hlong) as [Hdone _].
    destruct Hdone as [Hdone _].
    + unfold long_tail_group. simpl. repeat constructor; vm_compute; lia.
    + rewrite Hdone. vm_compute. reflexivity.
  - destruct (applyAggregation_ragged short_tail_group Sum Hshort) as [_ Hpanic].
    apply Hpanic. unfold short_tail_group. simpl.
    apply Exists_cons_tl, Exists_cons_hd. vm_compute. lia.
Defined.

Lemma groupBy_no_tags_loop (l : list Timeseries) : forall g,
  foldl (fun result series => addToGroup result series []) [g] l =
  [ {| g_List := g_List g ++ (untagged <$> l); g_TagSet := g_TagSet g |} ].
Proof.
  induction l as [|s l IH]; intros g; simpl.
  - rewrite app_nil_r. destruct g; reflexivity.
  - unfold addToGroup at 2. simpl. rewrite IH. simpl. rewrite <- app_assoc. reflexivity.
Qed.

(** X9. Grouping by no tag puts all the series of a list in one group, in
    their order and without their tags, under the empty tag set; an empty list
    has no group, and aggregating it returns an empty list under the same
    timerange and name, whatever the tags. *)
Theorem groupBy_no_tags (sl : SeriesList) (aggregator : list float -> float)
    (tags : list string) :
  (sl_Series sl <> [] ->
     groupBy sl [] = [ {| g_List := untagged <$> sl_Series sl; g_TagSet := NewTagSet |} ]) /\
  (sl_Series sl = [] ->
     groupBy sl tags = [] /\
     AggregateBy sl aggregator tags =
       Done {| sl_Series := []; sl_Timerange := sl_Timerange sl; sl_Name := sl_Name sl |}).
Proof.
  split.
  - intros Hne. unfold groupBy. destruct (sl_Series sl) as [|s l]; [congruence|].
    simpl. unfold addToGroup at 2. simpl. rewrite groupBy_no_tags_loop. reflexivity.
  - intros Hnil. unfold AggregateBy, groupBy. rewrite Hnil. simpl. split; reflexivity.
Qed.

End RaggedFacts.

(** ** Package [blueflood]: slots, samplers and rollups *)

Section BluefloodSlotFacts.
Import Api Blueflood.

Lemma filter_ext_Forall {A : Type} (P Q : A -> Prop) `{forall x, Decision (P x)}
    `{forall x, Decision (Q x)} (l : list A) :
  Forall (fun x => P x <-> Q x) l -> filter P l = filter Q l.
Proof.
  induction 1 as [|x l Hx Hl IH]; [reflexivity|].
  rewrite !filter_cons, IH. destruct (decide (P x)), (decide (Q x)); tauto.
Qed.

Lemma div_eq_iff (d r i : Z) : 0 < r -> (d / r = i <-> i * r <= d < (i + 1) * r).
Proof.
  intros Hr. split.
  - intros <-. pose proof (Z.mul_div_le d r Hr). pose proof (Z.mul_succ_div_gt d r Hr). lia.
  - intros Hd. symmetry. apply (Z.div_unique d r i (d - i * r)); lia.
Qed.

(** X10. On a timerange with a positive resolution and from its start on,
    [processResult] panics in [make] when the number of slots is negative, and
    otherwise samples the points slot by slot: it returns as many values as the
    timerange has slots, and slot [i] is the sampler's value on the selected
    field of the points with
    [start + i * resolution <= timestamp < start + (i + 1) * resolution], in
    the order of the response, and NaN when there is no such point.  Points
    after the last slot are dropped.  A timerange whose start is not after its
    end has at least one slot. *)
Theorem processResult_slots (parsedResult : queryResponse) (timerange : Timerange) (s : sampler) :
  0 < Resolution timerange ->
  Forall (fun p => 0 <= mp_Timestamp p - Start timerange < 2 ^ 63) (qr_Values parsedResult) ->
  (Start timerange <= End timerange -> 0 < Slots timerange) /\
  (Slots timerange < 0 ->
     processResult parsedResult timerange s = Aggregate.Panic makeslice_len_out_of_range) /\
  (0 <= Slots timerange ->
     exists values,
       processResult parsedResult timerange s = Aggregate.Done values /\
       length values = Z.to_nat (Slots timerange) /\
       forall i, (i < Z.to_nat (Slots timerange))%nat ->
         values !! i =
         Some (let bucket := fieldSelector s <$> slot_points timerange (qr_Values parsedResult) i in
               if decide (bucket = []) then Float64.NaN else bucketSampler s bucket)).
Proof.
  intros Hres Hpoints. split; [|split].
  - intros Hse. unfold Slots. fold (End timerange) (Start timerange) (Resolution timerange).
    rewrite Z.quot_div_nonneg by lia.
    pose proof (Z.div_pos (End timerange - Start timerange) (Resolution timerange)). lia.
  - apply processResult_negative.
  - intros Hslots.
    destruct (processResult_spec parsedResult timerange s ltac:(lia) Hslots)
      as (values & Hrun & Hlen & Hvalues).
    exists values. split; [exact Hrun|]. split; [exact Hlen|].
    intros i Hi. rewrite (Hvalues i Hi). cbv zeta.
    assert (Hbucket : bucket_of timerange (fieldSelector s) (qr_Values parsedResult) i
                      = fieldSelector s <$> slot_points timerange (qr_Values parsedResult) i).
    { unfold bucket_of, slot_points. f_equal. apply filter_ext_Forall.
      eapply Forall_impl; [exact Hpoints|]. simpl. intros p Hp.
      rewrite slot_of_floor by assumption. rewrite div_eq_iff by assumption. lia. }
    rewrite Hbucket. reflexivity.
Qed.

(** The response of three points on the three slots of 30 s; and a timerange
    that ends three steps before its start, which has -2 slots. *)
Lemma processResult_slots_witness :
  0 < Resolution three_slots /\
  Forall (fun p => 0 <= mp_Timestamp p - Start three_slots < 2 ^ 63)
         (qr_Values three_slots_response) /\
  0 < Slots three_slots /\
  processResult three_slots_response three_slots mean_sampler
    = Aggregate.Done [1; 2; nan]%float /\
  Slots {| tr_start := 90000; tr_end := 0; tr_resolution := 30000 |} = -2 /\
  processResult {| qr_Values := [] |}
                {| tr_start := 90000; tr_end := 0; tr_resolution := 30000 |} mean_sampler
    = Aggregate.Panic makeslice_len_out_of_range.
Proof.
  assert (Hres : 0 < Resolution three_slots) by (vm_compute; reflexivity).
  assert (Hpoints : Forall (fun p => 0 <= mp_Timestamp p - Start three_slots < 2 ^ 63)
                           (qr_Values three_slots_response)).
  { unfold three_slots_response. simpl. repeat constructor; vm_compute; congruence. }
  split; [exact Hres|]. split; [exact Hpoints|]. split; [|split; [|split]].
  - apply (proj1 (processResult_slots three_slots_response three_slots mean_sampler Hres Hpoints)).
    vm_compute. congruence.
  - vm_compute. reflexivity.
  - vm_compute. reflexivity.
  - apply (processResult_slots {| qr_Values := [] |}
             {| tr_start := 90000; tr_end := 0; tr_resolution := 30000 |} mean_sampler
             ltac:(vm_compute; reflexivity) ltac:(constructor)).
    vm_compute. reflexivity.
Defined.

(** X11. On a timerange whose end is a whole number of steps after its start,
    [addMetricPoint] keeps every point of the interval the backend is asked
    for, [start <= timestamp < end + resolution]: its slot
    [(timestamp - start) / resolution] is a slot of the timerange, and on
    buckets that have this slot the call returns true and appends the point's
    value to the bucket of the slot, as it does on the one bucket per slot
    that [bucketsFromMetricPoints] makes; on a slice too short to have the slot
    it panics.  A point at or after [end + resolution] is dropped: the call
    returns false and leaves the buckets as they are. *)
Theorem addMetricPoint_asked_range (point : metricPoint) (field : metricPoint -> float)
    (timerange : Timerange) (buckets : list (list float)) :
  0 < Resolution timerange ->
  Start timerange <= End timerange ->
  (End timerange - Start timerange) mod Resolution timerange = 0 ->
  0 <= mp_Timestamp point - Start timerange < 2 ^ 63 ->
  let k := (mp_Timestamp point - Start timerange) / Resolution timerange in
  (mp_Timestamp point < End timerange + Resolution timerange ->
     0 <= k < Slots timerange /\
     (length buckets = Z.to_nat (Slots timerange) -> (Z.to_nat k < length buckets)%nat) /\
     ((Z.to_nat k < length buckets)%nat ->
        addMetricPoint point field timerange buckets =
          Aggregate.Done
            (true, <[Z.to_nat k := (buckets !!! Z.to_nat k) ++ [field point]]> buckets)) /\
     ((length buckets <= Z.to_nat k)%nat ->
        addMetricPoint point field timerange buckets
          = Aggregate.Panic Aggregate.index_out_of_range)) /\
  (End timerange + Resolution timerange <= mp_Timestamp point ->
     addMetricPoint point field timerange buckets = Aggregate.Done (false, buckets)).
Proof.
  intros Hres Hse Hmod Hts k.
  assert (Hslots : Slots timerange = (End timerange - Start timerange) / Resolution timerange + 1).
  { unfold Slots. fold (End timerange) (Start timerange) (Resolution timerange).
    rewrite Z.quot_div_nonneg by lia. reflexivity. }
  assert (Hexact : End timerange - Start timerange
                   = Resolution timerange * ((End timerange - Start timerange) / Resolution timerange)).
  { pose proof (Z.div_mod (End timerange - Start timerange) (Resolution timerange)). lia. }
  assert (Hk : slot_of timerange point = k) by (apply slot_of_floor; assumption).
  assert (Hk0 : 0 <= k) by (apply Z.div_pos; lia).
  unfold addMetricPoint. rewrite int64_quo_Done by lia.
  change (wrap64 (int64_sub (mp_Timestamp point) (Start timerange) ÷ Resolution timerange))
    with (slot_of timerange point).
  rewrite Hk. cbv zeta. split.
  - intros Hlt.
    assert (Hkn : k < Slots timerange).
    { rewrite Hslots. apply Z.div_lt_upper_bound; [lia|]. nia. }
    split; [lia|]. split; [lia|].
    destruct (k <? 0) eqn:H1; [apply Z.ltb_lt in H1; lia|].
    destruct (Slots timerange <=? k) eqn:H2; [apply Z.leb_le in H2; lia|].
    simpl. split.
    + intros Hlen. destruct (lookup_lt_is_Some_2 buckets (Z.to_nat k) Hlen) as [bucket Hbucket].
      rewrite Hbucket, (list_lookup_total_correct _ _ _ Hbucket). reflexivity.
    + intros Hlen. rewrite (lookup_ge_None_2 buckets (Z.to_nat k)) by lia. reflexivity.
  - intros Hge.
    assert (Hkn : Slots timerange <= k).
    { rewrite Hslots. apply Z.div_le_lower_bound; [lia|]. nia. }
    destruct (Slots timerange <=? k) eqn:H2; [|apply Z.leb_gt in H2; lia].
    rewrite orb_true_r. reflexivity.
Qed.

Lemma addMetricPoint_asked_range_witness :
  addMetricPoint (point_at 89999 1) mp_Average three_slots [[]; []; []]
    = Aggregate.Done (true, [[]; []; [1%float]]) /\
  addMetricPoint (point_at 89999 1) mp_Average three_slots [[]; []]
    = Aggregate.Panic Aggregate.index_out_of_range /\
  addMetricPoint (point_at 90000 1) mp_Average three_slots [[]; []; []]
    = Aggregate.Done (false, [[]; []; []]).
Proof.
  split; [|split].
  - refine (proj1 (proj2 (proj2 (proj1 (addMetricPoint_asked_range (point_at 89999 1) mp_Average
                            three_slots [[]; []; []] _ _ _ _) _))) _);
      vm_compute; first [reflexivity | congruence | lia | (split; congruence)].
  - refine (proj2 (proj2 (proj2 (proj1 (addMetricPoint_asked_range (point_at 89999 1) mp_Average
                            three_slots [[]; []] _ _ _ _) _))) _);
      vm_compute; first [reflexivity | congruence | lia | (split; congruence)].
  - refine (proj2 (addMetricPoint_asked_range (point_at 90000 1) mp_Average three_slots
                     [[]; []; []] _ _ _ _) _);
      vm_compute; first [reflexivity | congruence | (split; congruence)].
Defined.

End BluefloodSlotFacts.

Section BluefloodV1Facts.
Import Api Blueflood.

Lemma addMetricPoint_index_eq (point : metricPoint) (timerange : Timerange) :
  0 < Resolution timerange < 2 ^ 62 ->
  0 <= mp_Timestamp point - Start timerange < 2 ^ 62 ->
  BluefloodV1.addMetricPoint_index point timerange
  = Aggregate.Done
      ((mp_Timestamp point - Start timerange + Resolution timerange / 2) / Resolution timerange).
Proof.
  unfold BluefloodV1.addMetricPoint_index. cbv zeta. intros Hres Hts.
  rewrite int64_quo_Done by lia. f_equal. revert Hres Hts.
  generalize (mp_Timestamp point) (Start timerange) (Resolution timerange).
  intros timestamp start resolution Hres Hts.
  assert (H262 : 2 ^ 62 + 2 ^ 62 = 2 ^ 63) by reflexivity.
  assert (Hhalf : 0 <= resolution / 2 <= resolution).
  { split; [apply Z.div_pos; lia|]. apply Z.div_le_upper_bound; lia. }
  unfold BluefloodV1.int64_add, int64_sub.
  rewrite (Z.quot_div_nonneg resolution 2) by lia.
  rewrite (wrap64_id (timestamp - start)) by lia.
  rewrite (wrap64_id (resolution / 2)) by lia.
  rewrite (wrap64_id (timestamp - start + resolution / 2)) by lia.
  rewrite Z.quot_div_nonneg by lia.
  apply wrap64_id. split.
  - pose proof (Z.div_pos (timestamp - start + resolution / 2) resolution). lia.
  - apply Z.le_lt_trans with (timestamp - start + resolution / 2); [|lia].
    apply Z.div_le_upper_bound; [lia|]. nia.
Qed.

Lemma nearest_index (d r k : Z) :
  0 < r -> 0 <= d -> k = (d + r / 2) / r ->
  2 * Z.abs (d - k * r) <= r /\ (d mod r = 0 -> k = d / r).
Proof.
  intros Hr Hd Hk.
  pose proof (Z.mul_div_le (d + r / 2) r Hr) as Hlo.
  pose proof (Z.mul_succ_div_gt (d + r / 2) r Hr) as Hhi.
  rewrite <- Hk in Hlo, Hhi. clear Hk.
  pose proof (Z.mul_div_le r 2 ltac:(lia)) as Hr1.
  pose proof (Z.mul_succ_div_gt r 2 ltac:(lia)) as Hr2.
  rewrite Z.mul_succ_r in Hhi, Hr2. split.
  - replace (k * r) with (r * k) by ring.
    apply Z.abs_case; [intros x y ->; tauto|lia|lia].
  - intros Hmod.
    pose proof (Z.div_mod d r ltac:(lia)) as Hq. rewrite Hmod, Z.add_0_r in Hq.
    set (q := d / r) in *. clearbody q. nia.
Qed.

(** X12. The earlier [addMetricPoint] rounds to the nearest slot: from the
    start of the timerange on, it computes an index [k], the one whose slot
    start, [start + k * resolution], is nearest to the timestamp, at most half
    a step away; and on a timestamp that is a slot start, it is the index the
    later [addMetricPoint] computes. *)
Theorem addMetricPoint_index_nearest (point : metricPoint) (timerange : Timerange) :
  0 < Resolution timerange < 2 ^ 62 ->
  0 <= mp_Timestamp point - Start timerange < 2 ^ 62 ->
  exists k,
    BluefloodV1.addMetricPoint_index point timerange = Aggregate.Done k /\
    k = (mp_Timestamp point - Start timerange + Resolution timerange / 2) / Resolution timerange /\
    2 * Z.abs (mp_Timestamp point - (Start timerange + k * Resolution timerange))
      <= Resolution timerange /\
    ((mp_Timestamp point - Start timerange) mod Resolution timerange = 0 ->
       k = slot_of timerange point).
Proof.
  intros Hres Hts.
  assert (H262 : 2 ^ 62 + 2 ^ 62 = 2 ^ 63) by reflexivity.
  eexists. split; [apply addMetricPoint_index_eq; assumption|]. split; [reflexivity|].
  pose proof (slot_of_floor timerange point ltac:(lia) ltac:(lia)) as Hslot.
  revert Hslot. generalize (slot_of timerange point).
  revert Hres Hts.
  generalize (mp_Timestamp point) (Start timerange) (Resolution timerange).
  intros timestamp start r Hres Hts s Hslot.
  destruct (nearest_index (timestamp - start) r _ ltac:(lia) ltac:(lia) eq_refl) as [Hnear Hgrid].
  split.
  - replace (timestamp - (start + (timestamp - start + r / 2) / r * r))
      with (timestamp - start - (timestamp - start + r / 2) / r * r) by ring.
    exact Hnear.
  - intros Hmod. rewrite Hslot. apply Hgrid. exact Hmod.
Qed.

Lemma addMetricPoint_index_nearest_witness :
  BluefloodV1.addMetricPoint_index (point_at 44999 1) three_slots = Aggregate.Done 1 /\
  BluefloodV1.addMetricPoint_index (point_at 45000 1) three_slots = Aggregate.Done 2 /\
  BluefloodV1.addMetricPoint_index (point_at 60000 1) three_slots
    = Aggregate.Done (slot_of three_slots (point_at 60000 1)).
Proof.
  split; [|split].
  - destruct (addMetricPoint_index_nearest (point_at 44999 1) three_slots
                ltac:(vm_compute; split; reflexivity)
                ltac:(vm_compute; split; congruence)) as (k & Hk & Heq & _).
    rewrite Hk, Heq. vm_compute. reflexivity.
  - vm_compute. reflexivity.
  - destruct (addMetricPoint_index_nearest (point_at 60000 1) three_slots
                ltac:(vm_compute; split; reflexivity)
                ltac:(vm_compute; split; congruence)) as (k & Hk & _ & _ & Hgrid).
    rewrite Hk, Hgrid by (vm_compute; reflexivity). reflexivity.
Defined.

End BluefloodV1Facts.

Section BluefloodSamplerFacts.
Import Api Blueflood Float64.

Lemma Min_nan_r (x : float) : IsInf x (-1) = false -> Float64.Min x NaN = NaN.
Proof.
  intros Hx. unfold Float64.Min. rewrite Hx.
  change (IsInf NaN (-1)) with false. change (IsNaN NaN) with true.
  rewrite orb_true_r. reflexivity.
Qed.

Lemma Min_nan_l (y : float) : IsInf y (-1) = false -> Float64.Min NaN y = NaN.
Proof.
  intros Hy. unfold Float64.Min. rewrite Hy.
  change (IsInf NaN (-1)) with false. change (IsNaN NaN) with true. reflexivity.
Qed.

Lemma Min_not_neg_inf (x y : float) :
  IsInf x (-1) = false -> IsInf y (-1) = false -> IsInf (Float64.Min x y) (-1) = false.
Proof.
  intros Hx Hy. unfold Float64.Min. rewrite Hx, Hy. simpl orb.
  destruct (IsNaN x || IsNaN y); [reflexivity|].
  destruct ((x =? 0)%float && (x =? y)%float); [destruct (Signbit x); assumption|].
  destruct (x <? y)%float; assumption.
Qed.

Lemma foldl_Min_nan (l : list float) :
  Forall (fun v => IsInf v (-1) = false) l -> foldl Float64.Min NaN l = NaN.
Proof.
  induction 1 as [|y l Hy Hl IH]; [reflexivity|]. simpl. rewrite Min_nan_l by assumption. exact IH.
Qed.

Lemma foldl_Min_has_nan (l : list float) : forall acc,
  IsInf acc (-1) = false ->
  Forall (fun v => IsInf v (-1) = false) l ->
  Exists (fun v => IsNaN v = true) l ->
  foldl Float64.Min acc l = NaN.
Proof.
  induction l as [|y l IH]; intros acc Hacc Hall Hex; [inversion Hex|].
  apply Forall_cons in Hall as [Hy Hall]. simpl.
  apply Exists_cons in Hex as [Hnan|Hex].
  - apply IsNaN_eq_nan in Hnan. subst y. rewrite Min_nan_r by assumption.
    apply foldl_Min_nan. exact Hall.
  - apply IH; [apply Min_not_neg_inf; assumption|assumption..].
Qed.

Lemma Max_nan_r (x : float) : IsInf x 1 = false -> Float64.Max x NaN = NaN.
Proof.
  intros Hx. unfold Float64.Max. rewrite Hx.
  change (IsInf NaN 1) with false. change (IsNaN NaN) with true.
  rewrite orb_true_r. reflexivity.
Qed.

Lemma Max_nan_l (y : float) : IsInf y 1 = false -> Float64.Max NaN y = NaN.
Proof.
  intros Hy. unfold Float64.Max. rewrite Hy.
  change (IsInf NaN 1) with false. change (IsNaN NaN) with true. reflexivity.
Qed.

Lemma Max_not_inf (x y : float) :
  IsInf x 1 = false -> IsInf y 1 = false -> IsInf (Float64.Max x y) 1 = false.
Proof.
  intros Hx Hy. unfold Float64.Max. rewrite Hx, Hy. simpl orb.
  destruct (IsNaN x || IsNaN y); [reflexivity|].
  destruct ((x =? 0)%float && (x =? y)%float); [destruct (Signbit x); assumption|].
  destruct (y <? x)%float; assumption.
Qed.

Lemma foldl_Max_nan (l : list float) :
  Forall (fun v => IsInf v 1 = false) l -> foldl Float64.Max NaN l = NaN.
Proof.
  induction 1 as [|y l Hy Hl IH]; [reflexivity|]. simpl. rewrite Max_nan_l by assumption. exact IH.
Qed.

Lemma foldl_Max_has_nan (l : list float) : forall acc,
  IsInf acc 1 = false ->
  Forall (fun v => IsInf v 1 = false) l ->
  Exists (fun v => IsNaN v = true) l ->
  foldl Float64.Max acc l = NaN.
Proof.
  induction l as [|y l IH]; intros acc Hacc Hall Hex; [inversion Hex|].
  apply Forall_cons in Hall as [Hy Hall]. simpl.
  apply Exists_cons in Hex as [Hnan|Hex].
  - apply IsNaN_eq_nan in Hnan. subst y. rewrite Max_nan_r by assumption.
    apply foldl_Max_nan. exact Hall.
  - apply IH; [apply Max_not_inf; assumption|assumption..].
Qed.

(** X13. The samplers of the minimum and of the maximum select the fields
    [Min] and [Max] of a point.  On a bucket without NaN, they return a value
    of the bucket that is at most, respectively at least, every value of the
    bucket.  Unlike the reducers of package [aggregate], they do not skip NaN:
    on a bucket that holds a NaN, the minimum is NaN unless the bucket holds
    [-Inf], and the maximum is NaN unless it holds [+Inf]. *)
Theorem min_max_samplers (bucket : list float) :
  bucket <> [] ->
  exists smin smax,
    samplerMap SampleMin = Some smin /\ samplerMap SampleMax = Some smax /\
    fieldSelector smin = mp_Min /\ fieldSelector smax = mp_Max /\
    (Forall (fun v => IsNaN v = false) bucket ->
       bucketSampler smin bucket ∈ bucket /\
       (forall y, y ∈ bucket -> (bucketSampler smin bucket <=? y)%float = true) /\
       bucketSampler smax bucket ∈ bucket /\
       (forall y, y ∈ bucket -> (y <=? bucketSampler smax bucket)%float = true)) /\
    (Exists (fun v => IsNaN v = true) bucket ->
       (Forall (fun v => IsInf v (-1) = false) bucket -> bucketSampler smin bucket = NaN) /\
       (Forall (fun v => IsInf v 1 = false) bucket -> bucketSampler smax bucket = NaN)).
Proof.
  intros Hne. destruct bucket as [|a rest]; [congruence|].
  eexists _, _. split; [reflexivity|]. split; [reflexivity|].
  split; [reflexivity|]. split; [reflexivity|]. cbn [bucketSampler].
  change ((a :: rest) !!! 0%nat) with a.
  change (foldl (fun value v => Float64.Min value v)) with (foldl Float64.Min).
  change (foldl (fun value v => Float64.Max value v)) with (foldl Float64.Max).
  split.
  - intros Hall. pose proof Hall as Hall'. apply Forall_cons in Hall' as [Ha _].
    pose proof (foldl_Min_spec (a :: rest) a Ha Hall) as (Hm1 & _ & Hm3).
    pose proof (foldl_Max_spec (a :: rest) a Ha Hall) as (HM1 & _ & HM3).
    split; [destruct Hm1 as [->|]; [apply elem_of_cons; auto|assumption]|].
    split; [exact Hm3|].
    split; [destruct HM1 as [->|]; [apply elem_of_cons; auto|assumption]|].
    exact HM3.
  - intros Hex. split; intros Hinf.
    + apply foldl_Min_has_nan; [|assumption..]. apply Forall_cons in Hinf. tauto.
    + apply foldl_Max_has_nan; [|assumption..]. apply Forall_cons in Hinf. tauto.
Qed.

Lemma min_max_samplers_witness :
  exists smin smax,
    samplerMap SampleMin = Some smin /\ samplerMap SampleMax = Some smax /\
    bucketSampler smin [3; 1; 2]%float = 1%float /\
    bucketSampler smax [3; 1; 2]%float = 3%float /\
    bucketSampler smin [3; nan; 2]%float = nan.
Proof.
  destruct (min_max_samplers [3; 1; 2]%float ltac:(discriminate))
    as (smin & smax & Hmin & Hmax & _).
  exists smin, smax. split; [exact Hmin|]. split; [exact Hmax|].
  injection Hmin as <-. injection Hmax as <-. repeat split; vm_compute; reflexivity.
Defined.

End BluefloodSamplerFacts.

Section RollupFacts.
Import Blueflood BluefloodTtl.


Lemma getTtlInMillis_rollups (c : Config) (r : Resolution) :
  r ∈ rollups -> exists ttl, getTtlInMillis c r = Aggregate.Done ttl.
Proof.
  intros Hr. unfold getTtlInMillis, ttl_days.
  destruct (Ttls c !! r) as [v|]; [eexists; reflexivity|].
  unfold rollups in Hr. rewrite !elem_of_cons in Hr.
  destruct Hr as [->|[->|[->|[->|[->|[->|Hr]]]]]]; try (eexists; reflexivity).
  apply elem_of_nil in Hr. destruct Hr.
Qed.

Lemma elem_of_rollups (r : string) :
  r ∈ rollups <->
  r = ResolutionFull \/ r = Resolution5Min \/ r = Resolution20Min \/
  r = Resolution60Min \/ r = Resolution240Min \/ r = Resolution1440Min.
Proof.
  unfold rollups. rewrite !elem_of_cons, elem_of_nil. tauto.
Qed.


(** X15. [bluefloodResolution] always returns, with the name of one of the
    six rollups.  The rollup is never finer than the one the requested
    resolution alone selects (the choice made before the rollup depended on
    the age of the data), and it is that one when the data is younger than
    every time to live. *)
Theorem bluefloodResolution_spec (c : Config) (unix resolution timestamp : Z) :
  exists r,
    bluefloodResolution c unix resolution timestamp = Aggregate.Done r /\
    r ∈ rollups /\
    (coarseness (BluefloodV1.bluefloodResolution resolution) <= coarseness r)%nat /\
    ((forall r' ttl, r' ∈ rollups -> getTtlInMillis c r' = Aggregate.Done ttl ->
        int64_sub (int64_mul unix 1000) timestamp < ttl) ->
     r = BluefloodV1.bluefloodResolution resolution).
Proof.
  destruct (getTtlInMillis_rollups c ResolutionFull) as [t1 H1]; [apply elem_of_rollups; tauto|].
  destruct (getTtlInMillis_rollups c Resolution5Min) as [t2 H2]; [apply elem_of_rollups; tauto|].
  destruct (getTtlInMillis_rollups c Resolution20Min) as [t3 H3]; [apply elem_of_rollups; tauto|].
  destruct (getTtlInMillis_rollups c Resolution60Min) as [t4 H4]; [apply elem_of_rollups; tauto|].
  destruct (getTtlInMillis_rollups c Resolution240Min) as [t5 H5]; [apply elem_of_rollups; tauto|].
  unfold bluefloodResolution, resolution_case, BluefloodV1.bluefloodResolution. cbv zeta.
  rewrite H1, H2, H3, H4, H5.
  set (age := int64_sub (int64_mul unix 1000) timestamp).
  assert (Hfresh : forall r' ttl, r' ∈ rollups -> getTtlInMillis c r' = Aggregate.Done ttl ->
                     (age <? ttl) = false ->
                     (forall r' ttl, r' ∈ rollups -> getTtlInMillis c r' = Aggregate.Done ttl ->
                        age < ttl) -> False).
  { intros r' ttl Hr' Httl Hage Hall. specialize (Hall r' ttl Hr' Httl).
    apply Z.ltb_ge in Hage. lia. }
  assert (R1 : ResolutionFull ∈ rollups) by (apply elem_of_rollups; tauto).
  assert (R2 : Resolution5Min ∈ rollups) by (apply elem_of_rollups; tauto).
  assert (R3 : Resolution20Min ∈ rollups) by (apply elem_of_rollups; tauto).
  assert (R4 : Resolution60Min ∈ rollups) by (apply elem_of_rollups; tauto).
  assert (R5 : Resolution240Min ∈ rollups) by (apply elem_of_rollups; tauto).
  assert (R6 : Resolution1440Min ∈ rollups) by (apply elem_of_rollups; tauto).
  destruct (resolution <? 5 * 60 * 1000) eqn:L1;
  destruct (resolution <? 20 * 60 * 1000) eqn:L2;
  destruct (resolution <? 60 * 60 * 1000) eqn:L3;
  destruct (resolution <? 240 * 60 * 1000) eqn:L4;
  destruct (resolution <? 1440 * 60 * 1000) eqn:L5;
  try (exfalso; rewrite ?Z.ltb_lt, ?Z.ltb_ge in *; lia);
  repeat match goal with
         | |- context [if (age <? ?t) then _ else _] => destruct (age <? t) eqn:?
         end;
  (eexists; split; [reflexivity|]; split; [assumption|];
   split; [vm_compute; lia|]; intros Hall; first [reflexivity | exfalso; eauto]).
Qed.

(** Case analysis on the comparisons of a switch over thresholds. *)
Ltac thresholds :=
  match goal with
  | |- context [if (?r <? ?c) then _ else _] => destruct (r <? c) eqn:?
  end.

Ltac thresholds_lia :=
  repeat match goal with
         | H : (_ <? _) = true |- _ => apply Z.ltb_lt in H
         | H : (_ <? _) = false |- _ => apply Z.ltb_ge in H
         | |- context [rollup_millis ?x] =>
             let v := eval vm_compute in (rollup_millis x) in change (rollup_millis x) with v
         | H : context [rollup_millis ?x] |- _ =>
             let v := eval vm_compute in (rollup_millis x) in change (rollup_millis x) with v in H
         | |- context [coarseness ?x] =>
             let v := eval vm_compute in (coarseness x) in change (coarseness x) with v
         end;
  lia.

(** X16. The earlier [bluefloodResolution] selects a rollup by the requested
    resolution alone: the coarsest of the six whose period, the minutes of its
    name, does not exceed the resolution.  So the data it asks for is never
    coarser than the resolution of the query, and a coarser query never
    selects a finer rollup. *)
Theorem bluefloodResolution_coarsest (r : Z) :
  BluefloodV1.bluefloodResolution r ∈ rollups /\
  (0 <= r -> rollup_millis (BluefloodV1.bluefloodResolution r) <= r) /\
  (forall x, x ∈ rollups -> rollup_millis x <= r ->
     (coarseness x <= coarseness (BluefloodV1.bluefloodResolution r))%nat) /\
  (forall r', r <= r' ->
     (coarseness (BluefloodV1.bluefloodResolution r)
        <= coarseness (BluefloodV1.bluefloodResolution r'))%nat).
Proof.
  unfold BluefloodV1.bluefloodResolution.
  split; [|split; [|split]].
  - repeat (destruct (_ <? _)); apply elem_of_rollups; tauto.
  - intros Hr. repeat thresholds; thresholds_lia.
  - intros x Hx. apply elem_of_rollups in Hx.
    destruct Hx as [->|[->|[->|[->|[->| ->]]]]]; intros Hle; repeat thresholds; thresholds_lia.
  - intros r' Hle. repeat thresholds; thresholds_lia.
Qed.

End RollupFacts.

Section BluefloodV1Buckets.
Import Api Blueflood.

Lemma nearest_buckets_loop (points : list metricPoint) (field : metricPoint -> float)
    (timerange : Timerange) :
  Resolution timerange <> 0 ->
  foldl (fun st point =>
           match st with
           | Aggregate.Panic msg => Aggregate.Panic msg
           | Aggregate.Done buckets =>
               match BluefloodV1.addMetricPoint point field timerange buckets with
               | Aggregate.Panic msg => Aggregate.Panic msg
               | Aggregate.Done (_, buckets) => Aggregate.Done buckets
               end
           end)
        (Aggregate.Done (replicate (Z.to_nat (Slots timerange)) [])) points =
  Aggregate.Done (nearest_bucket_of timerange field points <$> seq 0 (Z.to_nat (Slots timerange))).
Proof.
  intros Hres. set (n := Z.to_nat (Slots timerange)).
  induction points as [|p points IH] using rev_ind.
  - simpl. f_equal. apply list_eq. intros i. destruct (decide (i < n)%nat) as [Hlt|Hge].
    + rewrite lookup_fmap_seq, lookup_replicate_2 by assumption. reflexivity.
    + rewrite !lookup_ge_None_2; [reflexivity| |];
        rewrite ?length_replicate, ?length_fmap, ?length_seq; lia.
  - rewrite foldl_snoc, IH. unfold BluefloodV1.addMetricPoint.
    destruct (BluefloodV1.addMetricPoint_index p timerange) as [index|msg] eqn:Hidx;
      [|unfold BluefloodV1.addMetricPoint_index in Hidx; cbv zeta in Hidx;
        rewrite int64_quo_Done in Hidx by exact Hres; discriminate].
    assert (Hother : forall i, index <> Z.of_nat i ->
               nearest_bucket_of timerange field (points ++ [p]) i
               = nearest_bucket_of timerange field points i).
    { intros i Hi. unfold nearest_bucket_of.
      rewrite filter_app, filter_cons, decide_False by (rewrite Hidx; congruence).
      rewrite filter_nil, app_nil_r. reflexivity. }
    destruct ((index <? 0) || (Slots timerange <=? index)) eqn:Hrange.
    + f_equal. apply list_fmap_ext. intros i j Hj. symmetry. apply Hother.
      apply lookup_seq in Hj as [-> Hj]. simpl.
      apply orb_prop in Hrange as [H|H]; [apply Z.ltb_lt in H|apply Z.leb_le in H]; lia.
    + apply orb_false_elim in Hrange as [H1 H2].
      apply Z.ltb_ge in H1. apply Z.leb_gt in H2.
      set (k := Z.to_nat index).
      assert (Hk : (k < n)%nat) by lia.
      assert (Hkz : index = Z.of_nat k) by lia.
      rewrite lookup_fmap_seq by exact Hk. f_equal.
      apply list_eq. intros i. destruct (decide (i = k)) as [->|Hne].
      * rewrite list_lookup_insert_eq by (rewrite length_fmap, length_seq; exact Hk).
        rewrite lookup_fmap_seq by exact Hk. f_equal.
        unfold nearest_bucket_of.
        rewrite filter_app, filter_cons, decide_True by (rewrite Hidx, Hkz; reflexivity).
        rewrite filter_nil, fmap_app. reflexivity.
      * rewrite list_lookup_insert_ne by congruence.
        destruct (decide (i < n)%nat) as [Hlt|Hge].
        -- rewrite !lookup_fmap_seq by assumption. f_equal. symmetry. apply Hother. lia.
        -- rewrite !lookup_ge_None_2; [reflexivity| |]; rewrite ?length_fmap, ?length_seq; lia.
Qed.

(** X23. The earlier [bucketsFromMetricPoints], on a timerange whose resolution
    is not zero, panics in [make] when the number of slots is negative, and
    otherwise returns one bucket per slot, bucket [i] holding the selected
    field of the points whose index is [i], in the order of the response: the
    error [index out of range] that the earlier [addMetricPoint] reports for a
    point whose index is outside the slots is discarded, and these points
    leave no trace.  The earlier [addMetricPoint] itself panics on a resolution
    of zero, and on a point whose index is a slot that the slice of buckets is
    too short to have. *)
Theorem bucketsFromMetricPoints_nearest (points : list metricPoint)
    (field : metricPoint -> float) (timerange : Timerange) :
  (Resolution timerange <> 0 ->
     (Slots timerange < 0 ->
        BluefloodV1.bucketsFromMetricPoints points field timerange
          = Aggregate.Panic makeslice_len_out_of_range) /\
     (0 <= Slots timerange ->
        BluefloodV1.bucketsFromMetricPoints points field timerange =
          Aggregate.Done
            (nearest_bucket_of timerange field points <$> seq 0 (Z.to_nat (Slots timerange))))) /\
  (Resolution timerange = 0 ->
     forall point buckets,
       BluefloodV1.addMetricPoint point field timerange buckets
         = Aggregate.Panic integer_divide_by_zero) /\
  (forall point buckets index,
     BluefloodV1.addMetricPoint_index point timerange = Aggregate.Done index ->
     (index < 0 \/ Slots timerange <= index ->
        BluefloodV1.addMetricPoint point field timerange buckets
          = Aggregate.Done (Some BluefloodV1.index_out_of_range_error, buckets)) /\
     (0 <= index < Slots timerange -> (length buckets <= Z.to_nat index)%nat ->
        BluefloodV1.addMetricPoint point field timerange buckets
          = Aggregate.Panic Aggregate.index_out_of_range) /\
     (0 <= index < Slots timerange -> (Z.to_nat index < length buckets)%nat ->
        BluefloodV1.addMetricPoint point field timerange buckets
          = Aggregate.Done
              (None, <[Z.to_nat index := (buckets !!! Z.to_nat index) ++ [field point]]> buckets))).
Proof.
  split; [|split].
  - intros Hres. unfold BluefloodV1.bucketsFromMetricPoints. split.
    + intros Hneg. destruct (Slots timerange <? 0) eqn:H; [reflexivity|apply Z.ltb_ge in H; lia].
    + intros Hpos. destruct (Slots timerange <? 0) eqn:H; [apply Z.ltb_lt in H; lia|].
      cbv zeta. rewrite for_range_clear_buckets. apply nearest_buckets_loop. exact Hres.
  - intros Hres point buckets.
    unfold BluefloodV1.addMetricPoint, BluefloodV1.addMetricPoint_index, int64_quo.
    cbv zeta. rewrite Hres. reflexivity.
  - intros point buckets index Hidx. unfold BluefloodV1.addMetricPoint. rewrite Hidx.
    split; [|split].
    + intros Hout.
      destruct (index <? 0) eqn:H1; [reflexivity|].
      destruct (Slots timerange <=? index) eqn:H2; [reflexivity|].
      apply Z.ltb_ge in H1. apply Z.leb_gt in H2. lia.
    + intros Hin Hlen.
      destruct (index <? 0) eqn:H1; [apply Z.ltb_lt in H1; lia|].
      destruct (Slots timerange <=? index) eqn:H2; [apply Z.leb_le in H2; lia|].
      simpl. rewrite (lookup_ge_None_2 buckets (Z.to_nat index)) by lia. reflexivity.
    + intros Hin Hlen.
      destruct (index <? 0) eqn:H1; [apply Z.ltb_lt in H1; lia|].
      destruct (Slots timerange <=? index) eqn:H2; [apply Z.leb_le in H2; lia|].
      simpl. destruct (lookup_lt_is_Some_2 buckets (Z.to_nat index) Hlen) as [bucket Hbucket].
      rewrite Hbucket, (list_lookup_total_correct _ _ _ Hbucket). reflexivity.
Qed.

(** On the three slots of 30 s: the point at 44999 goes to slot 1, the point
    at 45000 to slot 2, and the point at 80000, whose index is 3, leaves no
    trace. *)
Lemma bucketsFromMetricPoints_nearest_witness :
  Resolution three_slots <> 0 /\ 0 <= Slots three_slots /\
  BluefloodV1.bucketsFromMetricPoints
    [point_at 45000 2; point_at 80000 7; point_at 44999 1; point_at 50000 3] mp_Average three_slots
    = Aggregate.Done [[]; [1%float]; [2; 3]%float].
Proof.
  assert (Hres : Resolution three_slots <> 0) by (vm_compute; congruence).
  assert (Hslots : 0 <= Slots three_slots) by (vm_compute; congruence).
  split; [exact Hres|]. split; [exact Hslots|].
  rewrite (proj2 (proj1 (bucketsFromMetricPoints_nearest
                           [point_at 45000 2; point_at 80000 7; point_at 44999 1; point_at 50000 3]
                           mp_Average three_slots) Hres) Hslots).
  vm_compute. reflexivity.
Defined.

End BluefloodV1Buckets.

Section SamplerReducerFacts.
Import Api Blueflood Float64.

Lemma non_nan_id (l : list float) : Forall (fun v => IsNaN v = false) l -> non_nan l = l.
Proof.
  unfold non_nan. induction 1 as [|x l Hx Hl IH]; [reflexivity|].
  rewrite filter_cons, decide_True by assumption. rewrite IH. reflexivity.
Qed.

(** X24. On a bucket that is not empty and holds no NaN, the three samplers
    of the backend return what the reducers of package [aggregate] return:
    the mean sampler is [Mean], the minimum sampler [Min] and the maximum
    sampler [Max]. *)
Theorem samplers_are_reducers (bucket : list float) :
  bucket <> [] ->
  Forall (fun v => IsNaN v = false) bucket ->
  exists smean smin smax,
    samplerMap SampleMean = Some smean /\ samplerMap SampleMin = Some smin /\
    samplerMap SampleMax = Some smax /\
    bucketSampler smean bucket = Aggregate.Mean bucket /\
    bucketSampler smin bucket = Aggregate.Min bucket /\
    bucketSampler smax bucket = Aggregate.Max bucket.
Proof.
  intros Hne Hall. eexists _, _, _.
  split; [reflexivity|]. split; [reflexivity|]. split; [reflexivity|].
  unfold Aggregate.Mean, Aggregate.Min, Aggregate.Max. rewrite !filterNaN_eq.
  rewrite (non_nan_id bucket Hall). cbv zeta.
  destruct bucket as [|a rest]; [congruence|].
  cbn [length Nat.eqb bucketSampler]. repeat split; reflexivity.
Qed.

Lemma samplers_are_reducers_witness :
  exists smean,
    samplerMap SampleMean = Some smean /\
    bucketSampler smean [3; 1; 2]%float = Aggregate.Mean [3; 1; 2]%float /\
    Aggregate.Mean [3; 1; 2]%float = 2%float.
Proof.
  destruct (samplers_are_reducers [3; 1; 2]%float ltac:(discriminate)
              ltac:(repeat constructor)) as (smean & smin & smax & Hmean & _ & _ & Heq & _).
  exists smean. split; [exact Hmean|]. split; [exact Heq|]. vm_compute. reflexivity.
Defined.

End SamplerReducerFacts.

(** ** Package [query]: evaluating a list of expressions *)

Section QueryExpressionsFacts.
Import Api Function Query QueryExpressions.

Lemma evaluateExpressions_loop_Ok (registry : Registry) (context : EvaluationContext)
    (exprs : list Expression) : forall pre suffix w results w',
  (length exprs <= length suffix)%nat ->
  evaluateExpressions_loop registry context exprs (length pre) (pre ++ suffix) w
    = (Ok results, w') ->
  exists values,
    results = pre ++ (Some <$> values) ++ drop (length exprs) suffix /\
    evaluated_in_order registry context w exprs values w'.
Proof.
  induction exprs as [|expr exprs IH]; intros pre suffix w results w' Hlen Hrun;
    cbn [evaluateExpressions_loop] in Hrun.
  - injection Hrun as <- <-. exists []. simpl. rewrite drop_0. split; reflexivity.
  - destruct (QueryExpressions.Evaluate registry expr context w) as [[v|e] w1] eqn:Hexpr;
      [|discriminate].
    destruct suffix as [|x suffix]; simpl in Hlen; [lia|].
    replace (length pre) with (length pre + 0)%nat in Hrun at 2 by lia.
    rewrite insert_app_r in Hrun. simpl in Hrun.
    replace (pre ++ Some v :: suffix) with ((pre ++ [Some v]) ++ suffix) in Hrun
      by (rewrite <- app_assoc; reflexivity).
    replace (S (length pre)) with (length (pre ++ [Some v])) in Hrun
      by (rewrite length_app; simpl; lia).
    apply IH in Hrun as (values & -> & Hvalues); [|lia].
    exists (v :: values). split.
    + rewrite <- app_assoc. reflexivity.
    + simpl. exists w1. split; [exact Hexpr|exact Hvalues].
Qed.

Lemma evaluated_in_order_length (registry : Registry) (context : EvaluationContext)
    (exprs : list Expression) : forall w values w',
  evaluated_in_order registry context w exprs values w' -> length values = length exprs.
Proof.
  induction exprs as [|expr exprs IH]; intros w [|v values] w' H; simpl in H;
    try contradiction; [reflexivity|].
  destruct H as (w1 & _ & H). simpl. f_equal. apply (IH _ _ _ H).
Qed.

Lemma evaluateExpressions_loop_run (registry : Registry) (context : EvaluationContext)
    (exprs : list Expression) : forall values w w' i results,
  evaluated_in_order registry context w exprs values w' ->
  exists results',
    evaluateExpressions_loop registry context exprs i results w = (Ok results', w').
Proof.
  induction exprs as [|expr exprs IH]; intros [|v values] w w' i results H; simpl in H;
    try contradiction.
  - subst w'. eexists. reflexivity.
  - destruct H as (w1 & Hexpr & H). cbn [evaluateExpressions_loop]. rewrite Hexpr.
    apply (IH _ _ _ _ _ H).
Qed.

(** X17. When [evaluateExpressions] succeeds, it returns one value per
    expression, none of them nil, in the order of the expressions: the
    expressions are evaluated in that order, each in the world the one before
    it has left, and slot [i] holds the value of expression [i].  Conversely,
    when every expression succeeds in its turn, [evaluateExpressions]
    succeeds. *)
Theorem evaluateExpressions_in_order (registry : Registry) (context : EvaluationContext)
    (exprs : list Expression) (w : world) :
  (forall results w',
     evaluateExpressions registry context exprs w = (Ok results, w') ->
     exists values,
       results = Some <$> values /\ length values = length exprs /\
       evaluated_in_order registry context w exprs values w') /\
  (forall values w',
     evaluated_in_order registry context w exprs values w' ->
     evaluateExpressions registry context exprs w = (Ok (Some <$> values), w')).
Proof.
  assert (Hok : forall results w',
            evaluateExpressions registry context exprs w = (Ok results, w') ->
            exists values,
              results = Some <$> values /\ length values = length exprs /\
              evaluated_in_order registry context w exprs values w').
  { intros results w' Hrun. unfold evaluateExpressions in Hrun.
    destruct exprs as [|expr exprs].
    - simpl in Hrun. injection Hrun as <- <-. exists []. repeat split.
    - change (evaluateExpressions_loop registry context (expr :: exprs) (length (@nil (option Value)))
                ([] ++ replicate (length (expr :: exprs)) None) w = (Ok results, w')) in Hrun.
      apply evaluateExpressions_loop_Ok in Hrun
        as (values & -> & Hvalues); [|rewrite length_replicate; reflexivity].
      exists values. rewrite drop_ge by (rewrite length_replicate; reflexivity).
      rewrite app_nil_r. split; [reflexivity|]. split; [|exact Hvalues].
      apply (evaluated_in_order_length _ _ _ _ _ _ Hvalues). }
  split; [exact Hok|].
  intros values w' Hvalues.
  destruct (evaluateExpressions registry context exprs w) as [[results|e] w1] eqn:Hrun.
  - destruct (Hok results w1 eq_refl) as (values' & -> & _ & Hvalues').
    assert (Hsame : forall exprs w values values' w1 w',
              evaluated_in_order registry context w exprs values w' ->
              evaluated_in_order registry context w exprs values' w1 ->
              values' = values /\ w1 = w').
    { clear. induction exprs as [|expr exprs IH]; intros w [|v values] [|v' values'] w1 w' H H';
        simpl in H, H'; try contradiction.
      - subst. split; reflexivity.
      - destruct H as (wa & Ha & H), H' as (wb & Hb & H').
        rewrite Ha in Hb. injection Hb as <- <-.
        destruct (IH _ _ _ _ _ H H') as [-> ->]. split; reflexivity. }
    destruct (Hsame _ _ _ _ _ _ Hvalues Hvalues') as [-> ->]. reflexivity.
  - exfalso. unfold evaluateExpressions in Hrun. destruct exprs as [|expr exprs].
    + simpl in Hrun. discriminate.
    + change (evaluateExpressions_loop registry context (expr :: exprs) 0
                (replicate (length (expr :: exprs)) None) w = (Err e, w1)) in Hrun.
      destruct (evaluateExpressions_loop_run registry context (expr :: exprs) values w w' 0
                  (replicate (length (expr :: exprs)) None) Hvalues) as [results' Hrun'].
      rewrite Hrun' in Hrun. discriminate.
Qed.

Lemma evaluateExpressions_loop_Err (registry : Registry) (context : EvaluationContext)
    (pre : list Expression) : forall values w w1 bad post e w2 i results,
  evaluated_in_order registry context w pre values w1 ->
  QueryExpressions.Evaluate registry bad context w1 = (Err e, w2) ->
  evaluateExpressions_loop registry context (pre ++ bad :: post) i results w = (Err e, w2).
Proof.
  induction pre as [|expr pre IH]; intros [|v values] w w1 bad post e w2 i results H Hbad;
    simpl in H; try contradiction.
  - subst w1. cbn [app evaluateExpressions_loop]. rewrite Hbad. reflexivity.
  - destruct H as (wa & Hexpr & H). cbn [app evaluateExpressions_loop]. rewrite Hexpr.
    apply (IH _ _ _ _ _ _ _ _ _ H Hbad).
Qed.

(** X18. [evaluateExpressions] fails fast: when the expressions before one
    succeed in their turn and that one fails, the call returns its error, in
    the world that expression has left; the expressions after it are not
    evaluated, so that they have no effect and the outcome does not depend on
    them.  A call of a function that is not registered is such a failure: it
    fails with the syntax error and leaves the world as it is, whatever its
    arguments. *)
Theorem evaluateExpressions_fail_fast (registry : Registry) (context : EvaluationContext)
    (pre post : list Expression) (bad : Expression) (values : list Value)
    (w w1 w2 : world) (e : error) :
  evaluated_in_order registry context w pre values w1 ->
  QueryExpressions.Evaluate registry bad context w1 = (Err e, w2) ->
  evaluateExpressions registry context (pre ++ bad :: post) w = (Err e, w2) /\
  (forall post',
     evaluateExpressions registry context (pre ++ bad :: post') w
     = evaluateExpressions registry context (pre ++ bad :: post) w) /\
  (forall functionName arguments groupBy post',
     registry functionName = None ->
     QueryExpressions.Evaluate registry (functionExpression functionName arguments groupBy)
       context w1 = (Err (no_such_function functionName), w1) /\
     evaluateExpressions registry context
       (pre ++ functionExpression functionName arguments groupBy :: post') w
     = (Err (no_such_function functionName), w1)).
Proof.
  intros Hpre Hbad.
  assert (Hcall : forall functionName arguments groupBy,
            registry functionName = None ->
            QueryExpressions.Evaluate registry (functionExpression functionName arguments groupBy)
              context w1 = (Err (no_such_function functionName), w1)).
  { intros functionName arguments groupBy Hnone. simpl. rewrite Hnone. reflexivity. }
  assert (Hfail : forall bad' e' w2' post',
            QueryExpressions.Evaluate registry bad' context w1 = (Err e', w2') ->
            evaluateExpressions registry context (pre ++ bad' :: post') w = (Err e', w2')).
  { intros bad' e' w2' post' Hbad'. unfold evaluateExpressions.
    destruct (Nat.eqb (length (pre ++ bad' :: post')) 0) eqn:Hlen.
    - apply Nat.eqb_eq in Hlen. rewrite length_app in Hlen. simpl in Hlen. lia.
    - apply (evaluateExpressions_loop_Err _ _ _ _ _ _ _ _ _ _ _ _ Hpre Hbad'). }
  split; [apply Hfail, Hbad|]. split.
  - intros post'. rewrite !(Hfail _ _ _ _ Hbad). reflexivity.
  - intros functionName arguments groupBy post' Hnone. split; [apply Hcall, Hnone|].
    apply Hfail, Hcall, Hnone.
Qed.

(** Two constants, then a call of a function that is not registered, then a
    fetch: the call fails and the fetch is not issued. *)
Lemma evaluateExpressions_fail_fast_witness :
  evaluateExpressions empty_registry backend_up_context
    [scalarExpression 1; stringExpression "s"; functionExpression "f" [] [];
     fetchExpression cpu_fetch] fresh_world
    = (Err (no_such_function "f"), fresh_world).
Proof.
  apply (proj1 (evaluateExpressions_fail_fast empty_registry backend_up_context
                  [scalarExpression 1; stringExpression "s"] [fetchExpression cpu_fetch]
                  (functionExpression "f" [] []) [ScalarValue 1; StringValue "s"]
                  fresh_world fresh_world fresh_world (no_such_function "f")
                  ltac:(simpl; eauto) ltac:(reflexivity))).
Defined.

(** *** The fetch limit over a whole evaluation *)

Lemma requested_snoc (w : world) (request : FetchMultipleRequest) :
  requested {| w_admitted := w_admitted w; w_fetches := w_fetches w ++ [request] |}
  = requested w + Z.of_nat (length (fmr_Metrics request)).
Proof.
  unfold requested. simpl. induction (w_fetches w) as [|r l IH]; simpl; lia.
Qed.

(** One fetch expression: the counter and the requests move together. *)
Lemma Evaluate_fetch_accounting (expr : metricFetchExpression) (context : EvaluationContext)
    (w : world) :
  let w' := snd (Query.Evaluate expr context w) in
  w_admitted w <= w_admitted w' /\
  requested w' - requested w = w_admitted w' - w_admitted w /\
  (w_admitted w <= ctx_FetchLimit context -> w_admitted w' <= ctx_FetchLimit context) /\
  (length (w_fetches w) <= length (w_fetches w') <= length (w_fetches w) + 1)%nat.
Proof.
  unfold Query.Evaluate.
  destruct (ctx_GetAllTags context (metricName expr)) as [tagSets|e]; simpl; [|lia].
  unfold Consume.
  set (filtered := applyPredicates tagSets (mergePredicates (ctx_Predicate context) (predicate expr))).
  destruct (w_admitted w + Z.of_nat (length filtered) <=? ctx_FetchLimit context) eqn:Hfit; simpl.
  - apply Z.leb_le in Hfit.
    set (request := {| fmr_Metrics := _; fmr_SampleMethod := _; fmr_Timerange := _ |}).
    assert (Hreq : requested {| w_admitted := w_admitted w + Z.of_nat (length filtered);
                                w_fetches := w_fetches w ++ [request] |}
                   = requested w + Z.of_nat (length filtered)).
    { unfold requested. simpl. unfold request. simpl.
      induction (w_fetches w) as [|r l IH]; simpl; [rewrite length_fmap; lia|lia]. }
    destruct (ctx_FetchMultipleSeries context request); simpl; rewrite Hreq, length_app; simpl; lia.
  - unfold requested. simpl. lia.
Qed.

Lemma Evaluate_accounting (registry : Registry) (context : EvaluationContext)
    (expr : Expression) (w : world) :
  calls_no_function expr ->
  let w' := snd (QueryExpressions.Evaluate registry expr context w) in
  w_admitted w <= w_admitted w' /\
  requested w' - requested w = w_admitted w' - w_admitted w /\
  (w_admitted w <= ctx_FetchLimit context -> w_admitted w' <= ctx_FetchLimit context).
Proof.
  destruct expr as [d|v|s|expr|f args groupBy]; simpl; intros Hcalls;
    [lia | lia | lia | | contradiction].
  pose proof (Evaluate_fetch_accounting expr context w) as H. simpl in H. tauto.
Qed.

Lemma evaluateExpressions_loop_accounting (registry : Registry) (context : EvaluationContext)
    (exprs : list Expression) : forall i results w,
  Forall calls_no_function exprs ->
  let w' := snd (evaluateExpressions_loop registry context exprs i results w) in
  w_admitted w <= w_admitted w' /\
  requested w' - requested w = w_admitted w' - w_admitted w /\
  (w_admitted w <= ctx_FetchLimit context -> w_admitted w' <= ctx_FetchLimit context).
Proof.
  induction exprs as [|expr exprs IH]; intros i results w Hall; cbn [evaluateExpressions_loop].
  - simpl. lia.
  - apply Forall_cons in Hall as [Hexpr Hall].
    pose proof (Evaluate_accounting registry context expr w Hexpr) as H1. simpl in H1.
    destruct (QueryExpressions.Evaluate registry expr context w) as [[v|e] w1]; simpl in H1.
    + pose proof (IH (S i) (<[i := Some v]> results) w1 Hall) as H2. simpl in H2.
      simpl. lia.
    + simpl. exact H1.
Qed.

(** X19. The fetch limit holds over a whole evaluation.  With the counter
    of the specification ([Consume] admits [k] fetches only while the total stays
    within the limit), evaluating any list of constants and fetch expressions,
    whether it succeeds or fails, asks the backend for exactly as many series
    as the counter admits, and never admits more than the limit: from a fresh
    counter, the series requested by all the multi-fetches together number at
    most the limit. *)
Theorem evaluateExpressions_fetch_limit (registry : Registry) (context : EvaluationContext)
    (exprs : list Expression) (w : world) :
  Forall calls_no_function exprs ->
  w_admitted w <= ctx_FetchLimit context ->
  let w' := snd (evaluateExpressions registry context exprs w) in
  w_admitted w <= w_admitted w' <= ctx_FetchLimit context /\
  requested w' - requested w = w_admitted w' - w_admitted w /\
  (w_admitted w = 0 -> requested w = 0 -> requested w' <= ctx_FetchLimit context).
Proof.
  intros Hall Hw. unfold evaluateExpressions.
  destruct (Nat.eqb (length exprs) 0).
  - simpl. lia.
  - pose proof (evaluateExpressions_loop_accounting registry context exprs 0
                  (replicate (length exprs) None) w Hall) as H. simpl in H. simpl. lia.
Qed.

(** Two fetches of one series each under a limit of 1: the second is refused
    and only one series is requested. *)
Lemma evaluateExpressions_fetch_limit_witness :
  fst (evaluateExpressions empty_registry one_fetch_context
         [fetchExpression cpu_fetch; fetchExpression cpu_fetch] fresh_world)
    = Err fetch_limit_exceeded /\
  requested (snd (evaluateExpressions empty_registry one_fetch_context
                    [fetchExpression cpu_fetch; fetchExpression cpu_fetch] fresh_world)) <= 1.
Proof.
  split; [vm_compute; reflexivity|].
  apply (evaluateExpressions_fetch_limit empty_registry one_fetch_context
           [fetchExpression cpu_fetch; fetchExpression cpu_fetch] fresh_world);
    [repeat constructor | vm_compute; congruence | reflexivity | reflexivity].
Defined.

End QueryExpressionsFacts.

(** ** Program [ruletester]: the statistics of a run *)

Section RuletesterFacts.
Import Api Function Ruletester.

Lemma tally_snoc (ruleset : RuleSet) (lines : list string) (input : string)
    (c : option (MetricKey * reversal)) :
  tally ruleset (lines ++ [input]) c =
  tally ruleset lines c + (if decide (classify ruleset input = c) then 1 else 0).
Proof.
  unfold tally. rewrite filter_app, length_app, filter_cons, filter_nil.
  case_decide; simpl; lia.
Qed.

Lemma tally_matched_snoc (ruleset : RuleSet) (lines : list string) (input : string) :
  tally_matched ruleset (lines ++ [input]) =
  tally_matched ruleset lines + (if decide (classify ruleset input = None) then 0 else 1).
Proof.
  unfold tally_matched. rewrite filter_app, length_app, filter_cons, filter_nil.
  destruct (decide (classify ruleset input = None)) as [Heq|Hne].
  - rewrite decide_False by tauto. simpl. lia.
  - rewrite decide_True by assumption. simpl. lia.
Qed.

Lemma tally_bounds (ruleset : RuleSet) (lines : list string) (c : option (MetricKey * reversal)) :
  0 <= tally ruleset lines c <= Z.of_nat (length lines).
Proof.
  unfold tally. pose proof (length_filter (fun input => classify ruleset input = c) lines). lia.
Qed.

Lemma tally_matched_bounds (ruleset : RuleSet) (lines : list string) :
  0 <= tally_matched ruleset lines <= Z.of_nat (length lines).
Proof.
  unfold tally_matched.
  pose proof (length_filter (fun input => classify ruleset input <> None) lines). lia.
Qed.

(** The three kinds of matched lines of a key do not overlap, so that
    together they number at most the lines. *)
Lemma tally_key_bounds (ruleset : RuleSet) (lines : list string) (key : MetricKey) :
  tally ruleset lines (Some (key, Reversed)) + tally ruleset lines (Some (key, ReverseFailed))
    + tally ruleset lines (Some (key, ReversedWrongly)) <= Z.of_nat (length lines).
Proof.
  induction lines as [|input lines IH] using rev_ind.
  - unfold tally. simpl. lia.
  - rewrite !tally_snoc, length_app. simpl.
    repeat case_decide; try congruence; lia.
Qed.

Lemma incr_id (x : Z) : 0 <= x < 2 ^ 63 - 1 -> incr x = x + 1.
Proof. intros Hx. unfold incr. apply wrap64_id. lia. Qed.

(** One turn of the loop on a matched line: the counters of its key move as
    the line counts. *)
Lemma run_step_matched (insertToDatabase : bool) (ruleset : RuleSet) (unmatched_file : bool)
    (stat : Statistics) (fx : effects) (input : string) (converted : TaggedMetric) :
  rs_MatchRule ruleset input = Some converted ->
  let key := tm_MetricKey converted in
  let stat' := fst (run_step insertToDatabase ruleset unmatched_file (stat, fx) input) in
  let bump (r : reversal) (x : Z) :=
    if decide (classify ruleset input = Some (key, r)) then incr x else x in
  matched stat' = incr (matched stat) /\
  unmatched stat' = unmatched stat /\
  exists pm,
    perMetric stat' = <[key := pm]> (perMetric stat) /\
    pm_matched pm = incr (pm_matched (perMetric_of stat key)) /\
    reverseSuccess pm = bump Reversed (reverseSuccess (perMetric_of stat key)) /\
    reverseError pm = bump ReverseFailed (reverseError (perMetric_of stat key)) /\
    reverseIncorrect pm = bump ReversedWrongly (reverseIncorrect (perMetric_of stat key)).
Proof.
  intros Hmatch. unfold run_step, classify. rewrite Hmatch. cbv zeta.
  split; [reflexivity|]. split; [reflexivity|].
  destruct (rs_ToGraphiteName ruleset converted) as [reversed|e].
  - destruct (decide (reversed = input)) as [Heq|Hneq].
    + rewrite (decide_False (P := reversed <> input)) by tauto.
      eexists. split; [reflexivity|]. simpl.
      repeat split; repeat case_decide; first [reflexivity | congruence].
    + rewrite (decide_True (P := reversed <> input)) by assumption.
      eexists. split; [reflexivity|]. simpl.
      repeat split; repeat case_decide; first [reflexivity | congruence].
  - eexists. split; [reflexivity|]. simpl.
    repeat split; repeat case_decide; first [reflexivity | congruence].
Qed.

Lemma run_step_unmatched (insertToDatabase : bool) (ruleset : RuleSet) (unmatched_file : bool)
    (stat : Statistics) (fx : effects) (input : string) :
  rs_MatchRule ruleset input = None ->
  fst (run_step insertToDatabase ruleset unmatched_file (stat, fx) input)
  = {| perMetric := perMetric stat; matched := matched stat;
       unmatched := incr (unmatched stat) |}.
Proof. intros Hmatch. unfold run_step. rewrite Hmatch. reflexivity. Qed.

Lemma classify_matched (ruleset : RuleSet) (input : string) (converted : TaggedMetric) :
  rs_MatchRule ruleset input = Some converted ->
  exists r, classify ruleset input = Some (tm_MetricKey converted, r).
Proof. intros Hmatch. unfold classify. rewrite Hmatch. eexists. reflexivity. Qed.

(** The statistics after the lines [lines], as long as the counters do not
    overflow. *)
Lemma run_tally (insertToDatabase : bool) (ruleset : RuleSet) (lines : list string)
    (unmatched_file : bool) :
  Z.of_nat (length lines) < 2 ^ 63 ->
  let stat := fst (run insertToDatabase ruleset lines unmatched_file) in
  matched stat = tally_matched ruleset lines /\
  unmatched stat = tally ruleset lines None /\
  forall key,
    (is_Some (perMetric stat !! key) ->
       0 < tally ruleset lines (Some (key, Reversed))
           + tally ruleset lines (Some (key, ReverseFailed))
           + tally ruleset lines (Some (key, ReversedWrongly))) /\
    reverseSuccess (perMetric_of stat key) = tally ruleset lines (Some (key, Reversed)) /\
    reverseError (perMetric_of stat key) = tally ruleset lines (Some (key, ReverseFailed)) /\
    reverseIncorrect (perMetric_of stat key) = tally ruleset lines (Some (key, ReversedWrongly)) /\
    pm_matched (perMetric_of stat key) =
      tally ruleset lines (Some (key, Reversed)) + tally ruleset lines (Some (key, ReverseFailed))
        + tally ruleset lines (Some (key, ReversedWrongly)).
Proof.
  unfold run. induction lines as [|input lines IH] using rev_ind; intros Hlen.
  - simpl. unfold tally_matched, tally, perMetric_of. simpl.
    split; [reflexivity|]. split; [reflexivity|]. intros key. rewrite lookup_empty.
    split; [intros [x Hx]; discriminate|]. repeat split; reflexivity.
  - rewrite length_app in Hlen. simpl in Hlen.
    rewrite foldl_snoc. cbv zeta in IH |- *.
    destruct (foldl (run_step insertToDatabase ruleset unmatched_file) _ lines) as [stat fx].
    simpl fst in IH. destruct IH as (Hm & Hu & Hkeys); [lia|].
    pose proof (tally_matched_bounds ruleset lines) as Bm.
    pose proof (tally_bounds ruleset lines None) as Bu.
    rewrite tally_matched_snoc, (tally_snoc _ _ _ None).
    destruct (rs_MatchRule ruleset input) as [converted|] eqn:Hmatch.
    + destruct (run_step_matched insertToDatabase ruleset unmatched_file stat fx input converted
                  Hmatch) as (Hm' & Hu' & pm & Hmap & Hpm & Hs & He & Hi).
      destruct (classify_matched ruleset input converted Hmatch) as [r Hr].
      rewrite Hm', Hu', Hm, Hu. rewrite !decide_False by (rewrite Hr; discriminate).
      split; [apply incr_id; lia|]. split; [lia|].
      intros key. rewrite !tally_snoc. unfold perMetric_of. rewrite Hmap.
      pose proof (tally_key_bounds ruleset lines (tm_MetricKey converted)) as Bk.
      pose proof (tally_bounds ruleset lines (Some (tm_MetricKey converted, Reversed))) as B1.
      pose proof (tally_bounds ruleset lines (Some (tm_MetricKey converted, ReverseFailed))) as B2.
      pose proof (tally_bounds ruleset lines (Some (tm_MetricKey converted, ReversedWrongly))) as B3.
      destruct (Hkeys (tm_MetricKey converted)) as (_ & Hs0 & He0 & Hi0 & Hpm0).
      destruct (decide (key = tm_MetricKey converted)) as [->|Hne].
      * rewrite !lookup_insert_eq. cbn [default from_option id]. rewrite Hpm, Hs, He, Hi.
        rewrite Hs0, He0, Hi0, Hpm0. rewrite Hr.
        destruct r; rewrite ?incr_id by lia; repeat case_decide; try congruence;
          (split; [intros _; lia|]); repeat split; lia.
      * rewrite !lookup_insert_ne by congruence.
        destruct (Hkeys key) as (Hsome & Hs' & He' & Hi' & Hpm').
        unfold perMetric_of in Hs', He', Hi', Hpm'. rewrite Hr.
        repeat case_decide; try congruence;
          rewrite ?Z.add_0_r; repeat split; assumption.
    + rewrite run_step_unmatched by assumption. cbn [matched unmatched perMetric].
      assert (Hnone : classify ruleset input = None) by (unfold classify; rewrite Hmatch; reflexivity).
      rewrite Hnone. rewrite !decide_True by reflexivity.
      split; [lia|]. split; [rewrite Hu; apply incr_id; lia|].
      intros key. rewrite !tally_snoc. rewrite Hnone.
      repeat case_decide; try congruence; rewrite ?Z.add_0_r; apply Hkeys.
Qed.

(** X20. [run] counts every line once.  As long as the lines number less
    than [2^63], the matched and the unmatched lines add up to the lines read;
    the statistics of a metric key count the lines converted to that key, each
    as one of reversed to itself, failed to reverse, or reversed to another
    name, so that [matched] is the sum of the three; a key that no line is
    converted to has no entry; and when every matched line reverses to itself
    no key counts an error or an incorrect reversal. *)
Theorem run_counts (insertToDatabase : bool) (ruleset : RuleSet) (lines : list string)
    (unmatched_file : bool) :
  Z.of_nat (length lines) < 2 ^ 63 ->
  let stat := fst (run insertToDatabase ruleset lines unmatched_file) in
  matched stat + unmatched stat = Z.of_nat (length lines) /\
  matched stat = tally_matched ruleset lines /\
  unmatched stat = tally ruleset lines None /\
  (forall key,
     reverseSuccess (perMetric_of stat key) = tally ruleset lines (Some (key, Reversed)) /\
     reverseError (perMetric_of stat key) = tally ruleset lines (Some (key, ReverseFailed)) /\
     reverseIncorrect (perMetric_of stat key)
       = tally ruleset lines (Some (key, ReversedWrongly)) /\
     pm_matched (perMetric_of stat key) =
       reverseSuccess (perMetric_of stat key) + reverseError (perMetric_of stat key)
         + reverseIncorrect (perMetric_of stat key) /\
     (is_Some (perMetric stat !! key) ->
        exists input converted, input ∈ lines /\ rs_MatchRule ruleset input = Some converted /\
                                tm_MetricKey converted = key)) /\
  ((forall input converted, input ∈ lines -> rs_MatchRule ruleset input = Some converted ->
      rs_ToGraphiteName ruleset converted = Ok input) ->
   forall key, reverseError (perMetric_of stat key) = 0 /\
               reverseIncorrect (perMetric_of stat key) = 0 /\
               reverseSuccess (perMetric_of stat key) = pm_matched (perMetric_of stat key)).
Proof.
  intros Hlen. cbv zeta.
  destruct (run_tally insertToDatabase ruleset lines unmatched_file Hlen) as (Hm & Hu & Hkeys).
  set (stat := fst (run insertToDatabase ruleset lines unmatched_file)) in *. clearbody stat.
  assert (Htotal : tally_matched ruleset lines + tally ruleset lines None = Z.of_nat (length lines)).
  { clear. induction lines as [|input lines IH] using rev_ind.
    - reflexivity.
    - rewrite tally_matched_snoc, tally_snoc, length_app, Nat2Z.inj_add.
      change (Z.of_nat (length [input])) with 1.
      repeat case_decide; try congruence; lia. }
  assert (Hzero : forall c, tally ruleset lines c <> 0 ->
            exists input, input ∈ lines /\ classify ruleset input = c).
  { intros c Hc. unfold tally in Hc.
    destruct (filter (fun input => classify ruleset input = c) lines) as [|input l] eqn:Hf;
      [simpl in Hc; lia|].
    exists input.
    assert (Hin : input ∈ filter (fun input => classify ruleset input = c) lines)
      by (rewrite Hf; apply elem_of_cons; auto).
    apply list_elem_of_filter in Hin. tauto. }
  split; [lia|]. split; [exact Hm|]. split; [exact Hu|]. split.
  - intros key. destruct (Hkeys key) as (Hnone & Hs & He & Hi & Hpm).
    split; [exact Hs|]. split; [exact He|]. split; [exact Hi|]. split; [lia|].
    intros Hsome. apply Hnone in Hsome.
    assert (Hex : exists r, tally ruleset lines (Some (key, r)) <> 0).
    { destruct (decide (tally ruleset lines (Some (key, Reversed)) = 0));
        [|exists Reversed; assumption].
      destruct (decide (tally ruleset lines (Some (key, ReverseFailed)) = 0));
        [|exists ReverseFailed; assumption].
      exists ReversedWrongly. lia. }
    destruct Hex as [r Hr]. apply Hzero in Hr as (input & Hin & Hc).
    unfold classify in Hc.
    destruct (rs_MatchRule ruleset input) as [converted|] eqn:Hmatch; [|discriminate].
    exists input, converted. split; [exact Hin|]. split; [exact Hmatch|]. congruence.
  - intros Hfaithful key. destruct (Hkeys key) as (_ & Hs & He & Hi & Hpm).
    assert (He0 : tally ruleset lines (Some (key, ReverseFailed)) = 0).
    { destruct (decide (tally ruleset lines (Some (key, ReverseFailed)) = 0)) as [|Hne]; [assumption|].
      apply Hzero in Hne as (input & Hin & Hc). unfold classify in Hc.
      destruct (rs_MatchRule ruleset input) as [converted|] eqn:Hmatch; [|discriminate].
      rewrite (Hfaithful _ _ Hin Hmatch), decide_True in Hc by reflexivity. discriminate. }
    assert (Hi0 : tally ruleset lines (Some (key, ReversedWrongly)) = 0).
    { destruct (decide (tally ruleset lines (Some (key, ReversedWrongly)) = 0)) as [|Hne]; [assumption|].
      apply Hzero in Hne as (input & Hin & Hc). unfold classify in Hc.
      destruct (rs_MatchRule ruleset input) as [converted|] eqn:Hmatch; [|discriminate].
      rewrite (Hfaithful _ _ Hin Hmatch), decide_True in Hc by reflexivity. discriminate. }
    lia.
Qed.

(** The rule of [TestMatchRule_FilterTag] on four lines: three match and
    reverse to themselves, one does not match. *)
Lemma run_counts_witness :
  Z.of_nat (length ruletester_lines) < 2 ^ 63 /\
  matched (fst (run false (one_rule filter_tag_rule) ruletester_lines true))
    + unmatched (fst (run false (one_rule filter_tag_rule) ruletester_lines true))
    = Z.of_nat (length ruletester_lines) /\
  matched (fst (run false (one_rule filter_tag_rule) ruletester_lines true)) = 3 /\
  reverseSuccess (perMetric_of (fst (run false (one_rule filter_tag_rule) ruletester_lines true))
                    "test-metric.b") = 2.
Proof.
  assert (H : Z.of_nat (length ruletester_lines) < 2 ^ 63) by (vm_compute; reflexivity).
  split; [exact H|].
  split; [exact (proj1 (run_counts false (one_rule filter_tag_rule) ruletester_lines true H))|].
  split; vm_compute; reflexivity.
Defined.

Lemma run_effects_snoc (insertToDatabase : bool) (ruleset : RuleSet) (unmatched_file : bool)
    (stat : Statistics) (fx : effects) (input : string) :
  let fx' := snd (run_step insertToDatabase ruleset unmatched_file (stat, fx) input) in
  added fx' = added fx ++ (if insertToDatabase then omap (rs_MatchRule ruleset) [input] else []) /\
  written fx' = written fx ++
    (if unmatched_file
     then match rs_MatchRule ruleset input with None => [input; newline] | Some _ => [] end
     else []).
Proof.
  unfold run_step. simpl.
  destruct (rs_MatchRule ruleset input) as [converted|]; simpl;
    destruct insertToDatabase, unmatched_file; simpl; rewrite ?app_nil_r; split; reflexivity.
Qed.

(** X21. Besides counting, [run] only adds to the database and writes to
    the file of the unmatched names.  With the flag [insert-to-db] it adds the
    metric of every matched line, in the order of the lines, and without the
    flag it adds nothing; with a file for the unmatched names it writes every
    unmatched line followed by a newline, in the order of the lines, and
    nothing for a matched line; without the file it writes nothing. *)
Theorem run_effects (insertToDatabase : bool) (ruleset : RuleSet) (lines : list string)
    (unmatched_file : bool) :
  let fx := snd (run insertToDatabase ruleset lines unmatched_file) in
  added fx = (if insertToDatabase then omap (rs_MatchRule ruleset) lines else []) /\
  written fx =
    (if unmatched_file
     then concat ((fun input => [input; newline])
                    <$> filter (fun input => rs_MatchRule ruleset input = None) lines)
     else []).
Proof.
  unfold run. induction lines as [|input lines IH] using rev_ind.
  - simpl. destruct insertToDatabase, unmatched_file; split; reflexivity.
  - rewrite foldl_snoc. cbv zeta in IH |- *.
    destruct (foldl (run_step insertToDatabase ruleset unmatched_file) _ lines) as [stat fx].
    simpl snd in IH. destruct IH as [Hadded Hwritten].
    destruct (run_effects_snoc insertToDatabase ruleset unmatched_file stat fx input) as [Ha Hw].
    cbv zeta in Ha, Hw. rewrite Ha, Hw, Hadded, Hwritten. split.
    + destruct insertToDatabase; [|reflexivity]. rewrite omap_app. reflexivity.
    + destruct unmatched_file; [|reflexivity].
      rewrite filter_app, fmap_app, concat_app, filter_cons, filter_nil.
      destruct (rs_MatchRule ruleset input) as [converted|].
      * rewrite decide_False by discriminate. reflexivity.
      * rewrite decide_True by reflexivity. simpl. reflexivity.
Qed.

End RuletesterFacts.

(** ** Package [inspect]: the profiler *)

Section InspectFacts.
Import Inspect.

Lemma profiler_calls_nil (calls : list profiler_call) :
  concat (fst (profiler_calls None calls)) = [] /\ snd (profiler_calls None calls) = None.
Proof.
  induction calls as [|[name start finish|] calls IH]; simpl.
  - split; reflexivity.
  - exact IH.
  - destruct (profiler_calls None calls) as [later p]. simpl in *. exact IH.
Qed.

(** X22. No profile is lost or returned twice.  Over any sequence of
    recorded tasks and flushes on a profiler, the profiles that the flushes
    return, in order, followed by those [All] shows at the end, are the
    profiles the profiler held at first followed by one profile per task, in
    the order in which the tasks finish, each with the name and the start read
    when [Record] was called; right after a flush the profiler holds nothing.
    On the nil profiler every call returns nothing and changes nothing. *)
Theorem profiler_flush_partition (p : Profiler) (calls : list profiler_call) :
  (forall profiles, p = Some profiles ->
     concat (fst (profiler_calls p calls)) ++ All (snd (profiler_calls p calls))
       = profiles ++ tasks_of calls) /\
  All (snd (Flush p)) = [] /\
  fst (Flush (snd (Flush p))) = [] /\
  (p = None ->
     concat (fst (profiler_calls p calls)) = [] /\ snd (profiler_calls p calls) = None /\
     All p = [] /\ Flush p = ([], None) /\
     forall name start now, finish (Record p name start) now p = None).
Proof.
  split; [|split; [|split]].
  - revert p. induction calls as [|[name start finish|] calls IH]; intros p profiles ->.
    + simpl. rewrite app_nil_r. reflexivity.
    + simpl. rewrite (IH _ _ eq_refl). rewrite <- app_assoc. reflexivity.
    + simpl. specialize (IH (Some []) [] eq_refl).
      destruct (profiler_calls (Some []) calls) as [later p']. simpl in *.
      rewrite <- app_assoc, IH. reflexivity.
  - destruct p; reflexivity.
  - destruct p; reflexivity.
  - intros ->. destruct (profiler_calls_nil calls) as [H1 H2].
    repeat split; assumption.
Qed.

End InspectFacts.

